(** * libfc: decoding IPFIX records into caller-owned memory

    A shallow embedding of the decoding core of libfc: the octet-array
    destination ([BasicOctetArray]), the decode plan with its compiler and
    executor ([DecodePlan]), the wire-template registry and data-set loop of
    the placement content handler, and the header phase of the IPFIX message
    stream parser.

    Conventions.  Octets are [Byte.byte]; their numeric value is [u8].
    Fixed-width unsigned integers are [Z] with the wrap-around written out
    ([u16], [u64]).  Pointers into a record buffer are [Z] offsets from the
    buffer start; destination pointers are [Z] addresses.  An [assert] of the
    source is modelled as enabled: a failing assertion ends the run with a
    dedicated outcome, different from a thrown [FormatError]. *)

From stdpp Require Import gmap list.
From Equations Require Import Equations.
From Stdlib Require Import ZArith Lia Strings.Byte Strings.String.

Local Open Scope Z_scope.

(** ** Machine integers and octets *)

Definition u16 (z : Z) : Z := z mod 65536.
Definition u64 (z : Z) : Z := z mod 18446744073709551616.

Definition UCHAR_MAX : Z := 255.
Definition USHRT_MAX : Z := 65535.

Definition u8 (b : Byte.byte) : Z := Z.of_N (Byte.to_N b).

(** Modelled from the spec: the constants of Constants.h, which the sources
    use by name ([kIpfixVarlen] is the sentinel length 0xFFFF, the IPFIX
    version is 10, and a message header has 16 octets, the least message
    length). *)
Definition kIpfixVarlen : Z := 65535.
Definition kIpfixVersion : Z := 10.
Definition kIpfixMessageHeaderLen : Z := 16.
Definition kIpfixMinMessageLen : Z := 16.

(** [cur[i]] for a buffer held as a list of octets. *)
Definition octet_at (buf : list Byte.byte) (i : Z) : Byte.byte :=
  nth (Z.to_nat i) buf x00.

(** The [n] octets starting at offset [i]. *)
Definition octets_from (buf : list Byte.byte) (i : Z) (n : nat) : list Byte.byte :=
  take n (drop (Z.to_nat i) buf).

(** ** BasicOctetArray (src/lib/BasicOctetArray.cpp) *)

Module BasicOctetArray.

Record t := mk {
  buf : list Byte.byte;   (* the storage: [capacity] octets, [] for the null pointer *)
  length : nat;
  capacity : nat
}.

(** BasicOctetArray::BasicOctetArray() : buf(0), length(0), capacity(0) *)
Definition empty : t := {| buf := []; length := 0; capacity := 0 |}.

Definition get_length (a : t) : nat := length a.
Definition get_buf (a : t) : list Byte.byte := buf a.

(** memcpy(dst, src, n) on a destination held as a list. *)
Definition memcpy (dst src : list Byte.byte) (n : nat) : list Byte.byte :=
  take n src ++ drop n dst.

Section CopyContent.

(** [new unsigned char[n]] returns [n] octets of indeterminate content. *)
Variable new_storage : nat -> list Byte.byte.
Definition copy_content (a : t) (new_buf : list Byte.byte) (buf_length : nat) : t :=
    let a1 :=
      if Nat.ltb (capacity a) buf_length
      then {| buf := new_storage buf_length;
              length := length a;
              capacity := buf_length |}
      else a in
    {| buf := memcpy (buf a1) new_buf buf_length;
       length := buf_length;
       capacity := capacity a1 |}.

(** A sequence of calls, each given by its source octets and length. *)
Definition copy_contents (a : t) (calls : list (list Byte.byte * nat)) : t :=
    foldl (fun acc c => copy_content acc c.1 c.2) a calls.

(** The storage always has [capacity] octets. *)
Definition storage_ok (a : t) : Prop := List.length (buf a) = capacity a.

End CopyContent.

End BasicOctetArray.

(** ** Information elements and templates (src/lib/InfoElement.h; IETemplate
    in src/lib/BasicOctetArray.cpp, second part) *)

(** The type kinds the decode-plan compiler switches on; [kOtherType] stands
    for every type number the switch sends to its default branch. *)
Inductive IEType :=
| kOctetArray | kUnsigned8 | kUnsigned16 | kUnsigned32 | kUnsigned64
| kSigned8 | kSigned16 | kSigned32 | kSigned64
| kFloat32 | kFloat64 | kBoolean | kMacAddress | kString
| kDateTimeSeconds | kDateTimeMilliseconds
| kDateTimeMicroseconds | kDateTimeNanoseconds
| kIpv4Address | kIpv6Address
| kOtherType.

(** An InfoElement object.  [ie_addr] is the address of the object: the code
    compares templates by comparing [const InfoElement*] pointers. [ietype]
    is [None] for a null [IEType*]. *)
Record InfoElement := mkIE {
  ie_addr : Z;
  pen : Z;
  number : Z;
  ietype : option IEType;
  len : Z
}.

(** InfoElement::matches: same enterprise number and same element number. *)
Definition matches (a b : InfoElement) : bool :=
  (pen a =? pen b) && (number a =? number b).

(** An IETemplate object: its address (templates are handled by pointer)
    and the element pointers [ies_] in wire order. *)
Record IETemplate := mkTemplate {
  tmpl_addr : Z;
  ies_ : list InfoElement
}.

(** IETemplate::size *)
Definition IETemplate_size (t : IETemplate) : nat := List.length (ies_ t).

(** IETemplate::add keeps [minlen_] as the running sum below; [minlen] is
    the value of [minlen_] after the elements were added in order. *)
Definition minlen_add (minlen_ : Z) (ie : InfoElement) : Z :=
  if len ie =? kIpfixVarlen then minlen_ + 1 else minlen_ + len ie.

Definition minlen (t : IETemplate) : Z := foldl minlen_add 0 (ies_ t).

(** IETemplate::operator==: element-wise comparison of the pointers. *)
Fixpoint ies_equal (l r : list InfoElement) : bool :=
  match l, r with
  | [], [] => true
  | a :: l', b :: r' => if ie_addr a =? ie_addr b then ies_equal l' r' else false
  | _, _ => false
  end.

Definition template_eq (a b : IETemplate) : bool := ies_equal (ies_ a) (ies_ b).
Definition template_ne (a b : IETemplate) : bool := negb (template_eq a b).

(** What a call into the decoder can end with: a value, a FormatError thrown
    by report_error, or a failed assert.  [S] is the state left behind. *)
Inductive outcome (S A : Type) : Type :=
| Done (a : A)
| Thrown (msg : string) (s : S)
| AssertFailed (s : S).
Arguments Done {S A} a.
Arguments Thrown {S A} msg s.
Arguments AssertFailed {S A} s.

(** ** Destination memory *)

(** What the destination pointers of a placement point into: raw octets, and
    the BasicOctetArray objects that octet-string destinations point to. *)
Record memory := mkMemory {
  octets : Z -> Byte.byte;
  objects : Z -> BasicOctetArray.t
}.

Definition store (f : Z -> Byte.byte) (a : Z) (v : Byte.byte) : Z -> Byte.byte :=
  fun x => if x =? a then v else f x.

(** memset(q, c, n) *)
Definition memset (f : Z -> Byte.byte) (q : Z) (c : Byte.byte) (n : Z) : Z -> Byte.byte :=
  fun x => if (q <=? x) && (x <? q + n) then c else f x.

(** memcpy(q, buf + cur, n) from a record buffer *)
Definition memcpy_from (f : Z -> Byte.byte) (q : Z) (buf : list Byte.byte) (cur n : Z)
  : Z -> Byte.byte :=
  fun x => if (q <=? x) && (x <? q + n) then octet_at buf (cur + (x - q)) else f x.

(** for (uint16_t k = 0; k < length; k++) q[k] = cur[length - (k + 1)]; *)
Definition reverse_copy (f : Z -> Byte.byte) (q : Z) (buf : list Byte.byte) (cur length : Z)
  : Z -> Byte.byte :=
  foldl (fun g k => store g (q + k) (octet_at buf (cur + (length - (k + 1)))))
        f (seqZ 0 length).

(** Writing a list of octets at consecutive addresses. *)
Fixpoint store_list (f : Z -> Byte.byte) (q : Z) (l : list Byte.byte) : Z -> Byte.byte :=
  match l with
  | [] => f
  | b :: l' => store_list (store f q b) (q + 1) l'
  end.

(** [*q = 1] and [*q = 0] through a [bool*]: one octet. *)
Definition store_bool (f : Z -> Byte.byte) (q : Z) (v : bool) : Z -> Byte.byte :=
  store f q (if v then x01 else x00).

Definition load_bool (f : Z -> Byte.byte) (q : Z) : bool := negb (u8 (f q) =? 0).

(** ** DecodePlan (src/IPFIXContentHandler.cpp) *)

Module DecodePlan.

Inductive decision_type_t :=
| skip_fixlen
| skip_varlen
| transfer_fixlen
| transfer_boolean
| transfer_fixlen_endianness
| transfer_fixlen_octets
| transfer_float_into_double
| transfer_float_into_double_endianness
| transfer_varlen.

Record Decision := mkDecision {
  type : decision_type_t;
  length : Z;                    (* uint16_t *)
  destination_size : Z;          (* uint16_t *)
  p : Z;                         (* void*: the transfer target *)
  wire_ie : option InfoElement
}.

Definition set_type (d : Decision) (t : decision_type_t) : Decision :=
  mkDecision t (length d) (destination_size d) (p d) (wire_ie d).
Definition set_length (d : Decision) (n : Z) : Decision :=
  mkDecision (type d) n (destination_size d) (p d) (wire_ie d).
Definition set_destination_size (d : Decision) (n : Z) : Decision :=
  mkDecision (type d) (length d) n (p d) (wire_ie d).
Definition set_target (d : Decision) (q : Z) (ie : InfoElement) : Decision :=
  mkDecision (type d) (length d) (destination_size d) q (Some ie).

Definition is_skip_fixlen (d : Decision) : bool :=
  match type d with skip_fixlen => true | _ => false end.

(** *** The constructor: one decision per wire field, then coalescing *)

Section Compile.

(** IPFIX_LITTLE_ENDIAN or IPFIX_BIG_ENDIAN *)
Variable little_endian : bool.

(** PlacementTemplate::lookup_placement(ie, &d.p, 0) of the placement
    template the plan is built for: the registered address, if any. *)
Variable lookup_placement : InfoElement -> option Z.

(** The content of [Decision d;] before any field is assigned. *)
Variable uninitialised : Decision.

Definition transfer_fixlen_maybe_endianness : decision_type_t :=
  if little_endian then transfer_fixlen_endianness else transfer_fixlen.

Definition transfer_float_into_double_maybe_endianness : decision_type_t :=
  if little_endian then transfer_float_into_double_endianness
  else transfer_float_into_double.

(** The block repeated for the numeric kinds: set type, length and
    destination size, and refuse a length above the native size. *)
Definition native (d : Decision) (t : decision_type_t) (ie : InfoElement) (native_size : Z)
  : outcome unit Decision :=
  let d := set_destination_size (set_length (set_type d t) (len ie)) native_size in
  if destination_size d <? length d
  then Thrown "IE length greater than native size" tt
  else Done d.

(** The address kinds: the length must be exactly [n]. *)
Definition exactly (d : Decision) (t : decision_type_t) (ie : InfoElement) (n : Z)
                   (msg : string) : outcome unit Decision :=
  let d := set_destination_size (set_length (set_type d t) (len ie)) n in
  if length d =? n then Done d else Thrown msg tt.

Definition octet_string (d : Decision) (ie : InfoElement) : outcome unit Decision :=
  if len ie =? kIpfixVarlen
  then Done (set_type d transfer_varlen)
  else Done (set_length (set_type d transfer_fixlen_octets) (len ie)).

(** The body of the loop over the wire template. *)
Definition decide (ie : InfoElement) : outcome unit Decision :=
  match lookup_placement ie with
  | Some q =>
    let d := set_target uninitialised q ie in
    match ietype ie with
    | None => Thrown "IE has NULL ietype" tt
    | Some kOctetArray => octet_string d ie
    | Some kUnsigned8 => native d transfer_fixlen ie 1
    | Some kUnsigned16 => native d transfer_fixlen_maybe_endianness ie 2
    | Some kUnsigned32 => native d transfer_fixlen_maybe_endianness ie 4
    | Some kUnsigned64 => native d transfer_fixlen_maybe_endianness ie 8
    | Some kSigned8 => native d transfer_fixlen_maybe_endianness ie 1
    | Some kSigned16 => native d transfer_fixlen_maybe_endianness ie 2
    | Some kSigned32 => native d transfer_fixlen_maybe_endianness ie 4
    | Some kSigned64 => native d transfer_fixlen_maybe_endianness ie 8
    | Some kFloat32 => native d transfer_fixlen_maybe_endianness ie 4
    | Some kFloat64 =>
      (* assert(ie->len() == sizeof(float) || d.length == sizeof(double)),
         where d.length has not been assigned yet *)
      if (len ie =? 4) || (length d =? 8) then
        native d (if len ie =? 4
                  then transfer_float_into_double_maybe_endianness
                  else transfer_fixlen_maybe_endianness) ie 8
      else AssertFailed tt
    | Some kBoolean => native d transfer_boolean ie 1
    | Some kMacAddress => exactly d transfer_fixlen ie 6 "MAC IE not 6 octets long"
    | Some kString => octet_string d ie
    | Some kDateTimeSeconds => native d transfer_fixlen_maybe_endianness ie 4
    | Some kDateTimeMilliseconds => native d transfer_fixlen_maybe_endianness ie 8
    | Some kDateTimeMicroseconds | Some kDateTimeNanoseconds =>
      if len ie =? 8 then native d transfer_fixlen_maybe_endianness ie 8
      else AssertFailed tt
    | Some kIpv4Address =>
      exactly d transfer_fixlen_maybe_endianness ie 4 "IPv4 Address IE not 4 octets long"
    | Some kIpv6Address => exactly d transfer_fixlen ie 16 "IPv6 Address IE not 16 octets long"
    | Some kOtherType => Thrown "Unknown IE type" tt
    end
  | None =>
    if len ie =? kIpfixVarlen
    then Done (set_type uninitialised skip_varlen)
    else Done (set_length (set_type uninitialised skip_fixlen) (len ie))
  end.

(** The first loop of the constructor: it stops at the first field whose
    decision throws or fails an assertion. *)
Fixpoint decisions (wire : list InfoElement) : outcome unit (list Decision) :=
  match wire with
  | [] => Done []
  | ie :: wire' =>
    match decide ie with
    | Done d =>
      match decisions wire' with
      | Done ds => Done (d :: ds)
      | Thrown msg s => Thrown msg s
      | AssertFailed s => AssertFailed s
      end
    | Thrown msg s => Thrown msg s
    | AssertFailed s => AssertFailed s
    end
  end.

End Compile.

(** The inner loop of the coalescing pass: starting behind a skip_fixlen
    decision, add up the lengths of the skip_fixlen decisions that follow in
    a uint16_t, and return the sum with the first decision not absorbed. *)
Fixpoint absorb (length_acc : Z) (skips : list Decision) : Z * list Decision :=
  match skips with
  | s :: skips' =>
    if is_skip_fixlen s then absorb (u16 (length_acc + length s)) skips'
    else (length_acc, skips)
  | [] => (length_acc, [])
  end.

(** The coalescing pass: at a skip_fixlen decision, erase the skip_fixlen
    decisions behind it and give it the accumulated length. *)
Equations? coalesce (plan : list Decision) : list Decision by wf (List.length plan) lt :=
  coalesce [] := [];
  coalesce (decision :: rest) with is_skip_fixlen decision := {
    | true := set_length decision (absorb (length decision) rest).1
                :: coalesce (absorb (length decision) rest).2;
    | false := decision :: coalesce rest }.
Proof.
  assert (Hle : forall l n, (List.length (absorb n l).2 <= List.length l)%nat).
  { induction l as [|s l IH]; intros n; simpl; [lia|].
    destruct (is_skip_fixlen s); simpl; [|lia].
    specialize (IH (u16 (n + length s))). lia. }
  specialize (Hle rest (length decision)). simpl. lia.
Qed.

(** DecodePlan::DecodePlan(placement_template, wire_template) *)
Definition create (little_endian : bool) (lookup_placement : InfoElement -> option Z)
                  (uninitialised : Decision) (wire_template : IETemplate)
  : outcome unit (list Decision) :=
  match decisions little_endian lookup_placement uninitialised (ies_ wire_template) with
  | Done ds => Done (coalesce ds)
  | Thrown msg s => Thrown msg s
  | AssertFailed s => AssertFailed s
  end.

(** *** decode_varlen_length *)

(** The final check shared by both encodings: the payload must end inside
    the buffer. *)
Definition varlen_payload_check (cur ret buf_end : Z) : outcome unit (Z * Z) :=
  if buf_end <? cur + ret
  then Thrown "varlen length goes beyond buffer" tt
  else Done (cur, ret).

(** decode_varlen_length(&cur, buf_end): the new cursor and the length. *)
Definition decode_varlen_length (buf : list Byte.byte) (cur buf_end : Z)
  : outcome unit (Z * Z) :=
  if buf_end <=? cur
  then Thrown "first octet of varlen length encoding beyond buffer" tt
  else
    let ret := u8 (octet_at buf cur) in
    if ret <? UCHAR_MAX then varlen_payload_check (cur + 1) ret buf_end
    else if buf_end <? cur + 3
    then Thrown "three-byte varlen length encoding beyond buffer" tt
    else
      let ret := u16 (Z.shiftl (u8 (octet_at buf (cur + 1))) 8
                      + u8 (octet_at buf (cur + 2))) in
      varlen_payload_check (cur + 3) ret buf_end.

(** *** DecodePlan::execute *)

Section Execute.

(** Storage handed out by [new unsigned char[n]] in copy_content. *)
Variable new_storage : nat -> list Byte.byte.

(** The conversion [double = float] on object representations: the four
    octets of a float in host order to the eight octets of the double. *)
Variable float_to_double : list Byte.byte -> list Byte.byte.

(** p->copy_content(cur, n) on the BasicOctetArray object at address [q]. *)
Definition copy_into (m : memory) (q : Z) (buf : list Byte.byte) (cur : Z) (n : Z) : memory :=
  mkMemory (octets m)
           (fun x => if x =? q
                     then BasicOctetArray.copy_content new_storage (objects m q)
                            (drop (Z.to_nat cur) buf) (Z.to_nat n)
                     else objects m x).

Definition with_octets (m : memory) (f : Z -> Byte.byte) : memory :=
  mkMemory f (objects m).

(** One case of the switch: the new cursor and memory. *)
Definition execute_decision (buf : list Byte.byte) (buf_end : Z) (i : Decision)
                            (cur : Z) (m : memory) : outcome memory (Z * memory) :=
  match type i with
  | skip_fixlen =>
    if cur + length i <=? buf_end then Done (cur + length i, m)
    else AssertFailed m
  | skip_varlen =>
    match decode_varlen_length buf cur buf_end with
    | Done (cur', varlen_length) =>
      if cur' + varlen_length <=? buf_end then Done (cur' + varlen_length, m)
      else AssertFailed m
    | Thrown msg _ => Thrown msg m
    | AssertFailed _ => AssertFailed m
    end
  | transfer_boolean =>
    if cur + 1 <=? buf_end then
      if u8 (octet_at buf cur) =? 1
      then Done (cur + 1, with_octets m (store_bool (octets m) (p i) true))
      else if u8 (octet_at buf cur) =? 2
      then Done (cur + 1, with_octets m (store_bool (octets m) (p i) false))
      else Thrown "bool encoding wrong" m
    else AssertFailed m
  | transfer_fixlen =>
    if buf_end <? cur + length i then Thrown "IE length beyond buffer" m
    else if length i <=? destination_size i then
      let zeroed := memset (octets m) (p i) x00 (destination_size i) in
      let copied := memcpy_from zeroed (p i + destination_size i - length i)
                                buf cur (length i) in
      Done (cur + length i, with_octets m copied)
    else AssertFailed m
  | transfer_fixlen_endianness =>
    if buf_end <? cur + length i then Thrown "IE length beyond buffer" m
    else if length i <=? destination_size i then
      let zeroed := memset (octets m) (p i) x00 (destination_size i) in
      let copied := reverse_copy zeroed (p i) buf cur (length i) in
      Done (cur + length i, with_octets m copied)
    else AssertFailed m
  | transfer_fixlen_octets =>
    if cur + length i <=? buf_end
    then Done (cur + length i, copy_into m (p i) buf cur (length i))
    else AssertFailed m
  | transfer_float_into_double =>
    if cur + 4 <=? buf_end then
      let f := octets_from buf cur 4 in
      Done (cur + 4, with_octets m (store_list (octets m) (p i) (float_to_double f)))
    else AssertFailed m
  | transfer_float_into_double_endianness =>
    if cur + 4 <=? buf_end then
      let f := [octet_at buf (cur + 3); octet_at buf (cur + 2);
                octet_at buf (cur + 1); octet_at buf cur] in
      Done (cur + 4, with_octets m (store_list (octets m) (p i) (float_to_double f)))
    else AssertFailed m
  | transfer_varlen =>
    match decode_varlen_length buf cur buf_end with
    | Done (cur', varlen_length) =>
      if cur' + varlen_length <=? buf_end
      then Done (cur' + varlen_length, copy_into m (p i) buf cur' varlen_length)
      else AssertFailed m
    | Thrown msg _ => Thrown msg m
    | AssertFailed _ => AssertFailed m
    end
  end.

(** The loop over the plan, with its [assert(cur < buf_end)] at the top of
    every iteration. *)
Fixpoint execute_loop (buf : list Byte.byte) (buf_end : Z) (plan : list Decision)
                      (cur : Z) (m : memory) : outcome memory (Z * memory) :=
  match plan with
  | [] => Done (cur, m)
  | i :: plan' =>
    if cur <? buf_end then
      match execute_decision buf buf_end i cur m with
      | Done (cur', m') => execute_loop buf buf_end plan' cur' m'
      | Thrown msg m' => Thrown msg m'
      | AssertFailed m' => AssertFailed m'
      end
    else AssertFailed m
  end.

(** DecodePlan::execute(buf, length): the number of octets decoded, with the
    memory the transfers left. *)
Definition execute (plan : list Decision) (buf : list Byte.byte) (length : Z) (m : memory)
  : outcome memory (Z * memory) :=
  let buf_end := length in
  match execute_loop buf buf_end plan 0 m with
  | Done (cur, m') =>
    if cur <=? USHRT_MAX then Done (u16 cur, m') else AssertFailed m'
  | Thrown msg m' => Thrown msg m'
  | AssertFailed m' => AssertFailed m'
  end.

End Execute.

End DecodePlan.

(** ** Errors (src/lib/Error.cpp, ErrorContext) *)

Inductive error_t :=
| no_error | parse_while_parsing | input_source_cant_peek | aborted_by_user
| system_error | short_header | short_body | long_set | long_fieldspec
| message_version_number | short_message | ipfix_basetime | format_error
| read_error | inconsistent_state | again.

Inductive severity_t := fatal | recoverable.

(** What LIBFC_RETURN_ERROR(severity, error, ...) returns. *)
Record ErrorContext := mkErrorContext {
  severity : severity_t;
  error : error_t
}.

(** ** PlacementContentHandler (src/lib/MessageStreamParser.h, second part) *)

Module PlacementContentHandler.

(** The members the template and data-set callbacks use.  Templates are
    stored by pointer: [matched_templates] is keyed by the address of the
    wire template, and [deleted] collects the addresses given to [delete]. *)
Record t := mk {
  observation_domain : Z;                         (* uint32_t *)
  current_template_id : Z;                        (* uint16_t *)
  current_field_count : Z;
  current_field_no : Z;
  current_wire_template : option IETemplate;      (* None: the null pointer *)
  wire_templates : gmap Z IETemplate;             (* std::map<uint64_t, const IETemplate*> *)
  matched_templates : gmap Z Z;                   (* wire template -> placement template *)
  incomplete_template_ids : gset Z;               (* std::set<uint64_t> *)
  unmatched_template_ids : gset Z;
  deleted : gset Z;
  parse_is_good : bool
}.

Definition set_observation_domain (h : t) (v : Z) : t :=
  mk v (current_template_id h) (current_field_count h) (current_field_no h)
     (current_wire_template h) (wire_templates h) (matched_templates h)
     (incomplete_template_ids h) (unmatched_template_ids h) (deleted h) (parse_is_good h).
Definition set_current_wire_template (h : t) (v : option IETemplate) : t :=
  mk (observation_domain h) (current_template_id h) (current_field_count h)
     (current_field_no h) v (wire_templates h) (matched_templates h)
     (incomplete_template_ids h) (unmatched_template_ids h) (deleted h) (parse_is_good h).
Definition set_wire_templates (h : t) (v : gmap Z IETemplate) : t :=
  mk (observation_domain h) (current_template_id h) (current_field_count h)
     (current_field_no h) (current_wire_template h) v (matched_templates h)
     (incomplete_template_ids h) (unmatched_template_ids h) (deleted h) (parse_is_good h).
Definition set_matched_templates (h : t) (v : gmap Z Z) : t :=
  mk (observation_domain h) (current_template_id h) (current_field_count h)
     (current_field_no h) (current_wire_template h) (wire_templates h) v
     (incomplete_template_ids h) (unmatched_template_ids h) (deleted h) (parse_is_good h).
Definition set_incomplete_template_ids (h : t) (v : gset Z) : t :=
  mk (observation_domain h) (current_template_id h) (current_field_count h)
     (current_field_no h) (current_wire_template h) (wire_templates h)
     (matched_templates h) v (unmatched_template_ids h) (deleted h) (parse_is_good h).
Definition set_deleted (h : t) (v : gset Z) : t :=
  mk (observation_domain h) (current_template_id h) (current_field_count h)
     (current_field_no h) (current_wire_template h) (wire_templates h)
     (matched_templates h) (incomplete_template_ids h) (unmatched_template_ids h) v
     (parse_is_good h).
Definition set_parse_is_good (h : t) (v : bool) : t :=
  mk (observation_domain h) (current_template_id h) (current_field_count h)
     (current_field_no h) (current_wire_template h) (wire_templates h)
     (matched_templates h) (incomplete_template_ids h) (unmatched_template_ids h)
     (deleted h) v.
Definition set_current_record (h : t) (template_id field_count : Z)
                              (w : option IETemplate) : t :=
  mk (observation_domain h) template_id field_count 0 w (wire_templates h)
     (matched_templates h) (incomplete_template_ids h) (unmatched_template_ids h)
     (deleted h) (parse_is_good h).

(** CH_REPORT_ERROR(error, ...): clear [parse_is_good], return a recoverable
    error. *)
Definition CH_REPORT_ERROR (h : t) (e : error_t) : t * option ErrorContext :=
  (set_parse_is_good h false, Some (mkErrorContext recoverable e)).

(** make_template_key: (uint64_t(observation_domain) << 16) + tid *)
Definition make_template_key (h : t) (tid : Z) : Z :=
  u64 (Z.shiftl (observation_domain h) 16 + tid).

Definition find_wire_template (h : t) (id : Z) : option IETemplate :=
  wire_templates h !! make_template_key h id.

(** start_message, for a handler without a start-message callback. *)
Definition start_message (h : t) (version length export_time sequence_number
                                  observation_domain base_time : Z)
  : outcome t (t * option ErrorContext) :=
  match current_wire_template h with
  | Some _ => AssertFailed h
  | None =>
    if (version =? kIpfixVersion) && negb (base_time =? 0)
    then Done (CH_REPORT_ERROR h ipfix_basetime)
    else if (version =? kIpfixVersion) && (length <? kIpfixMinMessageLen)
    then Done (CH_REPORT_ERROR h short_message)
    else Done (set_observation_domain h observation_domain, None)
  end.

(** start_template_record: [fresh] is the address [new IETemplate()]
    returns. *)
Definition start_template_record (h : t) (fresh : Z) (template_id field_count : Z)
  : outcome t (t * option ErrorContext) :=
  match current_wire_template h with
  | Some _ => AssertFailed h
  | None => Done (set_current_record h template_id field_count
                    (Some (mkTemplate fresh [])), None)
  end.

(** The registry update inside end_template_record, for a current wire
    template [cur] with at least one element. *)
Definition register_template (h : t) (cur : IETemplate) : t :=
  let key := make_template_key h (current_template_id h) in
  match find_wire_template h (current_template_id h) with
  | Some my_wire_template =>
    if template_ne my_wire_template cur then
      let h1 := set_incomplete_template_ids h
                  (incomplete_template_ids h ∖ {[ current_template_id h ]}) in
      let h2 := set_deleted h1 (deleted h1 ∪ {[ tmpl_addr my_wire_template ]}) in
      let h3 := set_wire_templates h2 (<[ key := cur ]> (wire_templates h2)) in
      set_matched_templates h3 (delete (tmpl_addr my_wire_template) (matched_templates h3))
    else h
  | None => set_wire_templates h (<[ key := cur ]> (wire_templates h))
  end.

(** end_template_record *)
Definition end_template_record (h : t) : outcome t (t * option ErrorContext) :=
  match current_wire_template h with
  | None => AssertFailed h
  | Some cur =>
    let h1 := if (0 <? IETemplate_size cur)%nat then register_template h cur else h in
    if negb (current_field_count h1 =? current_field_no h1)
    then Done (CH_REPORT_ERROR h1 format_error)
    else Done (set_current_wire_template h1 None, None)
  end.

(** wire_template_min_length: the fixed lengths, added up in a uint16_t. *)
Definition wire_template_min_length (t : IETemplate) : Z :=
  foldl (fun min i => if negb (len i =? kIpfixVarlen) then u16 (min + len i) else min)
        0 (ies_ t).

(** *** The record loop of start_data_set *)

(** What the loop does that a caller can see. *)
Inductive event :=
| ev_start_placement
| ev_execute (consumed : Z)
| ev_end_placement.

Record loop_state (collector : Type) := mkLoop {
  cur : Z;               (* const uint8_t* cur, as an offset from buf *)
  length : Z;            (* uint16_t length, the octets not yet consumed *)
  mem : memory;
  coll : collector;      (* the state of the PlacementCollector *)
  trace : list event
}.
Arguments mkLoop {collector} cur length mem coll trace.
Arguments cur {collector} l.
Arguments length {collector} l.
Arguments mem {collector} l.
Arguments coll {collector} l.
Arguments trace {collector} l.

Inductive loop_result (collector : Type) :=
| Finished (s : loop_state collector)                        (* LIBFC_RETURN_OK *)
| CallbackError (e : ErrorContext) (s : loop_state collector) (* CH_REPORT_CALLBACK_ERROR *)
| ExecuteThrown (msg : string) (s : loop_state collector)
| ExecuteAssertFailed (s : loop_state collector)
| OutOfFuel (s : loop_state collector).
Arguments Finished {collector} s.
Arguments CallbackError {collector} e s.
Arguments ExecuteThrown {collector} msg s.
Arguments ExecuteAssertFailed {collector} s.
Arguments OutOfFuel {collector} s.

Section DataSet.

Variable new_storage : nat -> list Byte.byte.
Variable float_to_double : list Byte.byte -> list Byte.byte.

(** The PlacementCollector registered for the placement template: its state
    and its two callbacks, which see the destination memory. *)
Variable collector : Type.
Variable start_placement : collector -> memory -> collector * option ErrorContext.
Variable end_placement : collector -> memory -> collector * option ErrorContext.

(** while (cur < buf_end && length >= min_length) *)
Definition loop_guard (buf_end min_length : Z) (s : loop_state collector) : bool :=
  (cur s <? buf_end) && (min_length <=? length s).

(** The loop; [fuel] bounds the number of iterations. *)
Fixpoint record_loop (fuel : nat) (plan : list DecodePlan.Decision)
                     (buf : list Byte.byte) (buf_end min_length : Z)
                     (s : loop_state collector) : loop_result collector :=
  match fuel with
  | O => OutOfFuel s
  | S fuel' =>
    if loop_guard buf_end min_length s then
      match start_placement (coll s) (mem s) with
      | (c1, Some e) =>
        CallbackError e (mkLoop (cur s) (length s) (mem s) c1
                                (trace s ++ [ev_start_placement]))
      | (c1, None) =>
        match DecodePlan.execute new_storage float_to_double plan
                (drop (Z.to_nat (cur s)) buf) (length s) (mem s) with
        | Done (consumed, m') =>
          match end_placement c1 m' with
          | (c2, Some e) =>
            CallbackError e
              (mkLoop (cur s) (length s) m' c2
                      (trace s ++ [ev_start_placement; ev_execute consumed;
                                   ev_end_placement]))
          | (c2, None) =>
            record_loop fuel' plan buf buf_end min_length
              (mkLoop (cur s + consumed) (u16 (length s - consumed)) m' c2
                      (trace s ++ [ev_start_placement; ev_execute consumed;
                                   ev_end_placement]))
          end
        | Thrown msg m' =>
          ExecuteThrown msg (mkLoop (cur s) (length s) m' c1
                                    (trace s ++ [ev_start_placement]))
        | AssertFailed m' =>
          ExecuteAssertFailed (mkLoop (cur s) (length s) m' c1
                                      (trace s ++ [ev_start_placement]))
        end
      end
    else Finished s
  end.

(** start_data_set from the point where the plan has been built: the loop
    runs on the set payload [buf] of [length] octets. *)
Definition decode_records (fuel : nat) (plan : list DecodePlan.Decision)
                          (wire_template : IETemplate) (buf : list Byte.byte)
                          (length : Z) (m : memory) (c : collector)
  : loop_result collector :=
  let buf_end := length in
  let min_length := wire_template_min_length wire_template in
  record_loop fuel plan buf buf_end min_length (mkLoop 0 length m c []).

End DataSet.

End PlacementContentHandler.

(** ** IPFIXMessageStreamParser (src/unnamed/part_000, second part) *)

Module IPFIXMessageStreamParser.

(** Modelled from the spec: decode_uint16 and decode_uint32 of
    decode_util.h, which read big-endian integers (the wire format is
    big-endian throughout). *)
Definition decode_uint16 (buf : list Byte.byte) (i : Z) : Z :=
  u8 (octet_at buf i) * 256 + u8 (octet_at buf (i + 1)).

Definition decode_uint32 (buf : list Byte.byte) (i : Z) : Z :=
  decode_uint16 buf i * 65536 + decode_uint16 buf (i + 2).

(** InputSource::read(buf, len): the return value (a count, or negative on
    error), the octets stored at [buf], and the source afterwards. *)
Class InputSource (S : Type) := read : S -> Z -> Z * list Byte.byte * S.

(** BufferInputSource (src/unnamed/part_003) *)
Record BufferInputSource := mkBuffer {
  buf : list Byte.byte;
  len : nat;
  off : nat
}.

Definition BufferInputSource_new (b : list Byte.byte) : BufferInputSource :=
  mkBuffer b (List.length b) 0.

Definition BufferInputSource_read (s : BufferInputSource) (result_len : Z)
  : Z * list Byte.byte * BufferInputSource :=
  let bytes_to_copy :=
    if (len s <? off s + Z.to_nat result_len)%nat then (len s - off s)%nat
    else Z.to_nat result_len in
  (Z.of_nat bytes_to_copy,
   take bytes_to_copy (drop (off s) (buf s)),
   mkBuffer (buf s) (len s) (off s + bytes_to_copy)).

#[global] Instance BufferInputSource_source : InputSource BufferInputSource :=
  BufferInputSource_read.

(** The part of the ContentHandler interface the header phase calls. *)
Class ContentHandler (H : Type) :=
  start_message : H -> Z -> Z -> Z -> Z -> Z -> Z -> outcome H (H * option ErrorContext).

#[global] Instance PlacementContentHandler_handler
  : ContentHandler PlacementContentHandler.t :=
  PlacementContentHandler.start_message.

(** How one round of the message loop can leave the header phase. *)
Inductive header_result (H S : Type) :=
| fatal_reported (e : error_t) (h : H) (s : S)   (* error_handler->fatal(e, ..); return *)
| assert_failed (h : H) (s : S)
| handler_threw (msg : string) (h : H) (s : S)
| end_of_stream (h : H) (s : S)                  (* nbytes == 0: end_session *)
| message_read (message : list Byte.byte) (message_size : Z) (h : H) (s : S).
Arguments fatal_reported {H S} e h s.
Arguments assert_failed {H S} h s.
Arguments handler_threw {H S} msg h s.
Arguments end_of_stream {H S} h s.
Arguments message_read {H S} message message_size h s.

(** parse, one round of [while (nbytes > 0)] from the read of the header up
    to the point where the sets are decoded.  The value start_message
    returns is not looked at. *)
Definition read_message {H S : Type} `{ContentHandler H} `{InputSource S}
                        (h : H) (source : S) : header_result H S :=
  let '(nbytes, message, source1) := read source kIpfixMessageHeaderLen in
  if nbytes <? 0 then fatal_reported read_error h source1
  else if nbytes =? 0 then end_of_stream h source1
  else if nbytes <? kIpfixMessageHeaderLen then fatal_reported short_header h source1
  else if negb (nbytes =? kIpfixMessageHeaderLen) then assert_failed h source1
  else if negb (decode_uint16 message 0 =? kIpfixVersion)
  then fatal_reported message_version_number h source1
  else
    let message_size := decode_uint16 message 2 in
    match start_message h (decode_uint16 message 0) message_size
                        (decode_uint32 message 4) (decode_uint32 message 8)
                        (decode_uint32 message 12) 0 with
    | Done (h1, _) =>
      let message_end := message_size in
      let cur := nbytes in
      if cur <=? message_end then
        let '(nbytes2, body, source2) := read source1 (message_size - kIpfixMessageHeaderLen) in
        if nbytes2 <? 0 then fatal_reported read_error h1 source2
        else if negb (nbytes2 =? message_size - kIpfixMessageHeaderLen)
        then fatal_reported short_body h1 source2
        else message_read (message ++ body) message_size h1 source2
      else assert_failed h1 source1
    | Thrown msg h1 => handler_threw msg h1 source1
    | AssertFailed h1 => assert_failed h1 source1
    end.

End IPFIXMessageStreamParser.

(** BasicOctetArray::to_string: the first [length] octets of the storage. *)
Definition BasicOctetArray_to_string (a : BasicOctetArray.t) : list Byte.byte :=
  take (BasicOctetArray.length a) (BasicOctetArray.buf a).

(** ** Operations of IETemplate (src/lib/BasicOctetArray.cpp, second part),
    MatchTemplate (src/unnamed/part_000) and InfoElement (src/lib/InfoElement.h) *)

(** IETemplate::add: add_inner appends the element; [minlen_] grows as in
    [minlen_add]. *)
Definition IETemplate_add (t : IETemplate) (ie : InfoElement) : IETemplate :=
  mkTemplate (tmpl_addr t) (ies_ t ++ [ie]).

(** IETemplate::find: the position of the first element [i] with
    [i->matches(ie)], or [None] for [ies_.end()]. *)
Fixpoint find_first (ies : list InfoElement) (ie : InfoElement) : option nat :=
  match ies with
  | [] => None
  | i :: ies' => if matches i ie then Some 0%nat else S <$> find_first ies' ie
  end.

Definition IETemplate_find (t : IETemplate) (ie : InfoElement) : option nat :=
  find_first (ies_ t) ie.

(** IETemplate::contains *)
Definition IETemplate_contains (t : IETemplate) (ie : InfoElement) : bool :=
  match IETemplate_find t ie with
  | Some _ => true
  | None => false
  end.

(** IETemplate::containsAll: false at the first element of [rhs] that is
    not contained. *)
Fixpoint contains_each (t : IETemplate) (rhs : list InfoElement) : bool :=
  match rhs with
  | [] => true
  | ie :: rhs' => if negb (IETemplate_contains t ie) then false else contains_each t rhs'
  end.

Definition IETemplate_containsAll (t rhs : IETemplate) : bool :=
  contains_each t (ies_ rhs).



(** InfoElement::ptrIdHash and InfoElement::ptrIdEqual *)
Definition ptrIdHash (ie : InfoElement) : Z := Z.lor (pen ie) (number ie).
Definition ptrIdEqual (lhs rhs : InfoElement) : bool := matches lhs rhs.

(** ** The set loop of IPFIXMessageStreamParser::parse (src/unnamed/part_000) *)

(** Modelled from the spec: a set header has 4 octets (set id and set
    length, 16 bits each), set id 2 announces a template set and set id 3
    an options template set. *)
Definition kIpfixSetHeaderLen : Z := 4.
Definition kIpfixTemplateSetID : Z := 2.
Definition kIpfixOptionTemplateSetID : Z := 3.

Module SetLoop.

(** The callbacks of the ContentHandler interface that the set loop calls.
    A set callback gets the set id, a 16-bit length, and the pointer to the
    payload, here the message buffer and an offset into it.  A callback
    returns, throws or fails an assertion; the parser uses no value it
    returns. *)
Class SetHandler (H : Type) := {
  start_template_set : H -> Z -> Z -> list Byte.byte -> Z -> outcome H H;
  end_template_set : H -> outcome H H;
  start_options_template_set : H -> Z -> Z -> list Byte.byte -> Z -> outcome H H;
  end_options_template_set : H -> outcome H H;
  start_data_set : H -> Z -> Z -> list Byte.byte -> Z -> outcome H H;
  end_data_set : H -> outcome H H
}.

(** A start callback followed by its end callback. *)
Definition bracket {H : Type} (start finish : H -> outcome H H) (h : H) : outcome H H :=
  match start h with
  | Done h1 => finish h1
  | Thrown msg h1 => Thrown msg h1
  | AssertFailed h1 => AssertFailed h1
  end.

(** The if / else if / else on the set id. *)
Definition dispatch {H : Type} `{SetHandler H} (h : H) (set_id length : Z)
                    (message : list Byte.byte) (cur : Z) : outcome H H :=
  if set_id =? kIpfixTemplateSetID then
    bracket (fun h => start_template_set h set_id length message cur) end_template_set h
  else if set_id =? kIpfixOptionTemplateSetID then
    bracket (fun h => start_options_template_set h set_id length message cur)
            end_options_template_set h
  else
    bracket (fun h => start_data_set h set_id length message cur) end_data_set h.

(** How the set loop can end. *)
Inductive sets_result (H : Type) :=
| sets_done (cur : Z) (h : H)            (* cur + kIpfixSetHeaderLen > message_end *)
| sets_fatal (e : error_t) (cur : Z) (h : H)   (* error_handler->fatal(e, ..); return *)
| sets_assert_failed (h : H)
| sets_handler_threw (msg : string) (h : H)
| sets_out_of_fuel (cur : Z) (h : H).
Arguments sets_done {H} cur h.
Arguments sets_fatal {H} e cur h.
Arguments sets_assert_failed {H} h.
Arguments sets_handler_threw {H} msg h.
Arguments sets_out_of_fuel {H} cur h.

(** while (cur + kIpfixSetHeaderLen <= message_end), with [cur] and
    [message_end] as offsets into [message]; [fuel] bounds the number of
    iterations.  The difference set_length - kIpfixSetHeaderLen reaches the
    callback through a uint16_t parameter; added to [cur], which has gone
    over the set header before, it leaves [cur] at the old [cur] plus
    set_length, also where set_length is below 4. *)
Fixpoint decode_sets {H : Type} `{SetHandler H} (fuel : nat) (message : list Byte.byte)
                     (cur message_end : Z) (h : H) : sets_result H :=
  match fuel with
  | O => sets_out_of_fuel cur h
  | S fuel' =>
    if cur + kIpfixSetHeaderLen <=? message_end then
      let set_id := IPFIXMessageStreamParser.decode_uint16 message (cur + 0) in
      let set_length := IPFIXMessageStreamParser.decode_uint16 message (cur + 2) in
      let set_end := cur + set_length in
      if message_end <? set_end then sets_fatal long_set cur h
      else
        let cur1 := cur + kIpfixSetHeaderLen in
        match dispatch h set_id (u16 (set_length - kIpfixSetHeaderLen)) message cur1 with
        | Done h1 =>
          let cur2 := cur1 + (set_length - kIpfixSetHeaderLen) in
          if negb (cur2 =? set_end) then sets_assert_failed h1
          else if negb (cur2 <=? message_end) then sets_assert_failed h1
          else decode_sets fuel' message cur2 message_end h1
        | Thrown msg h1 => sets_handler_threw msg h1
        | AssertFailed h1 => sets_assert_failed h1
        end
    else sets_done cur h
  end.

End SetLoop.

(** ** IPFIXContentHandler (src/IPFIXContentHandler.cpp, namespace IPFIX) *)

(** Modelled from the spec: a template record starts with 4 octets
    (template id and field count), a field specifier has 4 octets (element
    id and length), and an enterprise number 4 more. *)
Definition kTemplateHeaderLen : Z := 4.
Definition kFieldSpecifierLen : Z := 4.
Definition kEnterpriseLen : Z := 4.

Module IPFIXContentHandler.

Section Handler.

(** The InfoModel singleton: its state, lookupIE, and add_unknown, which
    may enter a new element into the model. *)
Variable info_model : Type.
Variable lookupIE : info_model -> Z -> Z -> Z -> option InfoElement.
Variable add_unknown : info_model -> Z -> Z -> Z -> option InfoElement * info_model.

(** The address [new MatchTemplate()] returns, by the number of templates
    allocated before (the handler frees none). *)
Variable new_MatchTemplate : nat -> Z.

Record t := mk {
  info : info_model;
  observation_domain : Z;                          (* uint32_t *)
  current_template_id : Z;                         (* uint16_t *)
  current_field_count : Z;
  current_field_no : Z;
  current_wire_template : option IETemplate;       (* None: the null pointer *)
  wire_templates : gmap Z IETemplate;              (* std::map<uint64_t, const MatchTemplate*> *)
  parse_is_good : bool;
  allocated : nat
}.

Definition set_info (h : t) (v : info_model) : t :=
  mk v (observation_domain h) (current_template_id h) (current_field_count h)
     (current_field_no h) (current_wire_template h) (wire_templates h)
     (parse_is_good h) (allocated h).
Definition set_observation_domain (h : t) (v : Z) : t :=
  mk (info h) v (current_template_id h) (current_field_count h)
     (current_field_no h) (current_wire_template h) (wire_templates h)
     (parse_is_good h) (allocated h).
Definition set_current_wire_template (h : t) (v : option IETemplate) : t :=
  mk (info h) (observation_domain h) (current_template_id h) (current_field_count h)
     (current_field_no h) v (wire_templates h) (parse_is_good h) (allocated h).
Definition set_current_field_no (h : t) (v : Z) : t :=
  mk (info h) (observation_domain h) (current_template_id h) (current_field_count h)
     v (current_wire_template h) (wire_templates h) (parse_is_good h) (allocated h).
Definition set_wire_templates (h : t) (v : gmap Z IETemplate) : t :=
  mk (info h) (observation_domain h) (current_template_id h) (current_field_count h)
     (current_field_no h) (current_wire_template h) v (parse_is_good h) (allocated h).
Definition set_parse_is_good (h : t) (v : bool) : t :=
  mk (info h) (observation_domain h) (current_template_id h) (current_field_count h)
     (current_field_no h) (current_wire_template h) (wire_templates h) v (allocated h).

(** How a call into the handler can end.  [report_error] throws a
    FormatError; a member access through a null [current_wire_template] has
    no defined behaviour; [OutOfFuel] is for the loop of
    [start_template_set] below. *)
Inductive result :=
| Returned (h : t)
| FormatError (h : t)
| AssertionFailed (h : t)
| NullDereferenced (h : t)
| OutOfFuel (h : t).

(** make_template_key: (uint64_t(observation_domain) << 16) + tid *)
Definition make_template_key (h : t) (tid : Z) : Z :=
  u64 (Z.shiftl (observation_domain h) 16 + tid).

Definition find_wire_template (h : t) (id : Z) : option IETemplate :=
  wire_templates h !! make_template_key h id.

(** start_message *)
Definition start_message (h : t) (version length export_time sequence_number
                                  observation_domain base_time : Z) : result :=
  match current_wire_template h with
  | Some _ => AssertionFailed h
  | None =>
    if negb (version =? kIpfixVersion) then FormatError (set_parse_is_good h false)
    else if negb (base_time =? 0) then FormatError (set_parse_is_good h false)
    else Returned (set_observation_domain h observation_domain)
  end.

(** end_message *)
Definition end_message (h : t) : result :=
  match current_wire_template h with
  | Some _ => AssertionFailed h
  | None => Returned h
  end.

(** start_template_record *)
Definition start_template_record (h : t) (template_id field_count : Z) : result :=
  match current_wire_template h with
  | Some _ => AssertionFailed h
  | None =>
    Returned (mk (info h) (observation_domain h) template_id field_count 0
                 (Some (mkTemplate (new_MatchTemplate (allocated h)) []))
                 (wire_templates h) (parse_is_good h) (S (allocated h)))
  end.

(** end_template_record *)
Definition end_template_record (h : t) : result :=
  match current_wire_template h with
  | None => NullDereferenced h
  | Some cur =>
    let h1 :=
      if (0 <? IETemplate_size cur)%nat
      then set_wire_templates h
             (<[ make_template_key h (current_template_id h) := cur ]> (wire_templates h))
      else h in
    if negb (current_field_count h1 =? current_field_no h1)
    then FormatError (set_parse_is_good h1 false)
    else Returned (set_current_wire_template h1 None)
  end.

(** field_specifier *)
Definition field_specifier (h : t) (enterprise : bool)
                           (ie_id ie_length enterprise_number : Z) : result :=
  if current_field_count h <=? current_field_no h
  then FormatError (set_parse_is_good h false)
  else
    let ie := lookupIE (info h) enterprise_number ie_id ie_length in
    if negb (enterprise || (enterprise_number =? 0)) then AssertionFailed h
    else if negb ((enterprise && negb (enterprise_number =? 0)) || bool_decide (is_Some ie))
    then AssertionFailed h
    else
      let '(ie, h1) :=
        match ie with
        | Some ie => (Some ie, h)
        | None =>
          let '(ie, m) := add_unknown (info h) enterprise_number ie_id ie_length in
          (ie, set_info h m)
        end in
      match ie with
      | None => AssertionFailed h1
      | Some ie =>
        match current_wire_template h1 with
        | None => NullDereferenced h1
        | Some cur =>
          Returned (set_current_field_no
                      (set_current_wire_template h1 (Some (IETemplate_add cur ie)))
                      (current_field_no h1 + 1))
        end
      end.

(** How the loop over the field specifiers of a record can end. *)
Inductive fields_result :=
| fields_done (buf : Z) (h : t)
| fields_long (h : t)                  (* error(Error::long_fieldspec, 0); return *)
| fields_failed (r : result).

(** for (unsigned int field = 0; field < field_count; field++), with
    [remaining] the number of rounds to go; [buf] and [set_end] are offsets
    into [message]. *)
Fixpoint read_fields (remaining : nat) (message : list Byte.byte) (buf set_end : Z)
                     (h : t) : fields_result :=
  match remaining with
  | O => fields_done buf h
  | S remaining' =>
    if set_end <? buf + kFieldSpecifierLen then fields_long h
    else
      let ie_id := IPFIXMessageStreamParser.decode_uint16 message (buf + 0) in
      let ie_length := IPFIXMessageStreamParser.decode_uint16 message (buf + 2) in
      let enterprise := negb (Z.land ie_id 32768 =? 0) in
      let ie_id := Z.land ie_id 32767 in
      if enterprise && (set_end <? buf + kFieldSpecifierLen + kEnterpriseLen)
      then fields_long h
      else
        let enterprise_number :=
          if enterprise then IPFIXMessageStreamParser.decode_uint32 message (buf + 4)
          else 0 in
        match field_specifier h enterprise ie_id ie_length enterprise_number with
        | Returned h1 =>
          let buf1 := buf + kFieldSpecifierLen + (if enterprise then kEnterpriseLen else 0) in
          if negb (buf1 <=? set_end) then fields_failed (AssertionFailed h1)
          else read_fields remaining' message buf1 set_end h1
        | r => fields_failed r
        end
  end.

(** while (buf + kTemplateHeaderLen <= set_end); [fuel] bounds the number
    of records. *)
Fixpoint template_records (fuel : nat) (message : list Byte.byte) (buf set_end : Z)
                          (h : t) : result :=
  match fuel with
  | O => OutOfFuel h
  | S fuel' =>
    if buf + kTemplateHeaderLen <=? set_end then
      let set_id := IPFIXMessageStreamParser.decode_uint16 message (buf + 0) in
      let field_count := IPFIXMessageStreamParser.decode_uint16 message (buf + 2) in
      match start_template_record h set_id field_count with
      | Returned h1 =>
        match read_fields (Z.to_nat field_count) message (buf + kTemplateHeaderLen)
                          set_end h1 with
        | fields_done buf1 h2 =>
          match end_template_record h2 with
          | Returned h3 => template_records fuel' message buf1 set_end h3
          | r => r
          end
        | fields_long h2 => Returned h2
        | fields_failed r => r
        end
      | r => r
      end
    else Returned h
  end.

(** start_template_set *)
Definition start_template_set (fuel : nat) (h : t) (set_id set_length : Z)
                              (message : list Byte.byte) (buf : Z) : result :=
  match current_wire_template h with
  | Some _ => AssertionFailed h
  | None => template_records fuel message buf (buf + set_length) h
  end.

End Handler.

Arguments Returned {info_model} h.
Arguments FormatError {info_model} h.
Arguments AssertionFailed {info_model} h.
Arguments NullDereferenced {info_model} h.
Arguments OutOfFuel {info_model} h.
Arguments fields_done {info_model} buf h.
Arguments fields_long {info_model} h.
Arguments fields_failed {info_model} r.
Arguments info {info_model} t.
Arguments observation_domain {info_model} t.
Arguments current_template_id {info_model} t.
Arguments current_field_count {info_model} t.
Arguments current_field_no {info_model} t.
Arguments current_wire_template {info_model} t.
Arguments wire_templates {info_model} t.
Arguments parse_is_good {info_model} t.
Arguments allocated {info_model} t.

End IPFIXContentHandler.

(** ** UDPInputSource (src/lib/UDPInputSource.cpp) *)

Module UDPInputSource.

Section Socket.

(** recvfrom(fd, packet_buffer, sizeof(packet_buffer), ..): the value the
    call returns and the octets of the datagram it stores, by the number of
    calls made before. *)
Variable recvfrom : nat -> Z * list Byte.byte.

Record t := mk {
  packet_buffer : list Byte.byte;   (* uint8_t packet_buffer[4096] *)
  packet_lenght : Z;                (* ssize_t packet_lenght = 0 *)
  packet_read : Z;                  (* ssize_t packet_read = 0 *)
  received : nat                    (* the calls of recvfrom so far *)
}.

(** read(buf, len), with a uint16_t [len]: the value returned, the octets
    stored at [buf], and the source afterwards. *)
Definition read (s : t) (len : Z) : Z * list Byte.byte * t :=
  let s1 :=
    if packet_read s =? packet_lenght s then
      let '(n, datagram) := recvfrom (received s) in
      mk (datagram ++ drop (List.length datagram) (packet_buffer s)) n 0 (S (received s))
    else s in
  if packet_read s1 + len <=? packet_lenght s1 then
    (len, octets_from (packet_buffer s1) (packet_read s1) (Z.to_nat len),
     mk (packet_buffer s1) (packet_lenght s1) (packet_read s1 + len) (received s1))
  else (-1, [], s1).

(** resync *)
Definition resync (s : t) : bool * t :=
  (true, mk (packet_buffer s) 0 0 (received s)).

End Socket.

End UDPInputSource.

(** * Vocabulary of the statements, and sample data *)

(** The [n] octets of memory from address [q], the [n] wire octets from
    offset [cur], and the unsigned integers a big-endian or a little-endian
    reader sees in a sequence of octets. *)
Definition mem_octets (f : Z -> Byte.byte) (q n : Z) : list Byte.byte :=
  (fun j => f (q + j)) <$> seqZ 0 n.

Definition wire_octets (buf : list Byte.byte) (cur n : Z) : list Byte.byte :=
  (fun j => octet_at buf (cur + j)) <$> seqZ 0 n.

Definition be_value (l : list Byte.byte) : Z :=
  foldl (fun acc b => acc * 256 + u8 b) 0 l.

Definition le_value (l : list Byte.byte) : Z :=
  foldr (fun b acc => u8 b + 256 * acc) 0 l.

(** Sample environment for the examples: a memory of zero octets and empty
    octet arrays, fresh storage filled with zero octets, and a stand-in for
    the float conversion. *)
Definition zero_memory : memory :=
  mkMemory (fun _ => x00) (fun _ => BasicOctetArray.empty).
Definition zero_storage (n : nat) : list Byte.byte := replicate n x00.
Definition sample_float_to_double (l : list Byte.byte) : list Byte.byte :=
  l ++ replicate 4 x00.

(** The wire octets a decision of fixed extent needs. *)
Definition fixed_extent (i : DecodePlan.Decision) : option Z :=
  match DecodePlan.type i with
  | DecodePlan.skip_fixlen | DecodePlan.transfer_fixlen
  | DecodePlan.transfer_fixlen_endianness | DecodePlan.transfer_fixlen_octets =>
    Some (DecodePlan.length i)
  | DecodePlan.transfer_boolean => Some 1
  | DecodePlan.transfer_float_into_double
  | DecodePlan.transfer_float_into_double_endianness => Some 4
  | DecodePlan.skip_varlen | DecodePlan.transfer_varlen => None
  end.

(** A wire template with interfaceName (string, variable length) and
    ingressInterface (unsigned32 in four octets), and a placement that asks
    for the name only, at address 100. *)
Definition interfaceName : InfoElement := mkIE 1 0 82 (Some kString) kIpfixVarlen.
Definition ingressInterface : InfoElement := mkIE 2 0 10 (Some kUnsigned32) 4.
Definition name_and_interface : IETemplate :=
  mkTemplate 1000 [interfaceName; ingressInterface].
Definition place_name (ie : InfoElement) : option Z :=
  if matches ie interfaceName then Some 100 else None.

(** Whether two skip_fixlen decisions stand next to each other in a plan,
    and whether a plan starts with one. *)
Fixpoint has_adjacent_skip_fixlen (plan : list DecodePlan.Decision) : bool :=
  match plan with
  | d1 :: plan' =>
    match plan' with
    | d2 :: _ =>
      (DecodePlan.is_skip_fixlen d1 && DecodePlan.is_skip_fixlen d2)
      || has_adjacent_skip_fixlen plan'
    | [] => false
    end
  | [] => false
  end.

Definition starts_with_skip_fixlen (plan : list DecodePlan.Decision) : bool :=
  match plan with
  | d :: _ => DecodePlan.is_skip_fixlen d
  | [] => false
  end.



(** A handler in observation domain 1 that holds template 256 (the name
    alone, stored at address 1000 and matched with the placement at address
    7), has warned about its incomplete match, and is at the end of a new
    record for template 256 that declares the interface alone. *)
Definition name_only : IETemplate := mkTemplate 1000 [interfaceName].
Definition interface_only : IETemplate := mkTemplate 2000 [ingressInterface].
Definition redefining_handler : PlacementContentHandler.t :=
  PlacementContentHandler.mk 1 256 1 1 (Some interface_only)
    {[ 65792 := name_only ]} {[ 1000 := 7 ]} {[ 65792 ]} ∅ ∅ true.

(** The two minimum lengths: IETemplate counts one octet for a field of
    variable length, wire_template_min_length counts none. *)
Definition minlen_contribution (ie : InfoElement) : Z :=
  if len ie =? kIpfixVarlen then 1 else len ie.

Definition fixed_contribution (ie : InfoElement) : Z :=
  if len ie =? kIpfixVarlen then 0 else len ie.

Definition sum_over (f : InfoElement -> Z) (ies : list InfoElement) : Z :=
  foldr (fun ie acc => f ie + acc) 0 ies.

(** The events of completed iterations with the given consumed counts. *)
Definition brackets (consumed : list Z) : list PlacementContentHandler.event :=
  consumed ≫= (fun c => [PlacementContentHandler.ev_start_placement;
                         PlacementContentHandler.ev_execute c;
                         PlacementContentHandler.ev_end_placement]).


(** A collector without state whose callbacks report no error. *)
Definition silent_callback (c : unit) (m : memory) : unit * option ErrorContext :=
  (c, None).

(** Scenario: the template with sourceIPv4Address alone, placed at address
    100, and a data set with the two records C0 00 02 01 and 0A 00 00 01. *)
Definition sourceIPv4Address : InfoElement := mkIE 6 0 8 (Some kIpv4Address) 4.
Definition address_only : IETemplate := mkTemplate 3000 [sourceIPv4Address].
Definition place_address (ie : InfoElement) : option Z :=
  if matches ie sourceIPv4Address then Some 100 else None.
Definition address_plan : list DecodePlan.Decision :=
  [DecodePlan.mkDecision DecodePlan.transfer_fixlen_endianness 4 4 100
     (Some sourceIPv4Address)].


(** A handler as its constructor leaves it, and a stream that holds one
    message header: version 10, length 8, export time 1, sequence number 1,
    observation domain 0. *)
Definition new_handler : PlacementContentHandler.t :=
  PlacementContentHandler.mk 0 0 0 0 None ∅ ∅ ∅ ∅ ∅ true.

Definition short_header_stream : list Byte.byte :=
  [x00; x0a; x00; x08; x00; x00; x00; x01; x00; x00; x00; x01; x00; x00; x00; x00].

(** The decision for a fixed-length field the placement does not list. *)
Definition skip_fixlen_of (uninitialised : DecodePlan.Decision) (ie : InfoElement)
  : DecodePlan.Decision :=
  DecodePlan.set_length (DecodePlan.set_type uninitialised DecodePlan.skip_fixlen) (len ie).

Definition unplaced_fixed_length (lookup_placement : InfoElement -> option Z)
                                 (ie : InfoElement) : Prop :=
  lookup_placement ie = None /\ len ie <> kIpfixVarlen.

(** The octets and the octet-array objects a decision may write to. *)
Definition writes_octet (i : DecodePlan.Decision) (a : Z) : bool :=
  match DecodePlan.type i with
  | DecodePlan.transfer_fixlen | DecodePlan.transfer_fixlen_endianness =>
    (DecodePlan.p i <=? a) && (a <? DecodePlan.p i + DecodePlan.destination_size i)
  | DecodePlan.transfer_boolean => a =? DecodePlan.p i
  | DecodePlan.transfer_float_into_double
  | DecodePlan.transfer_float_into_double_endianness =>
    (DecodePlan.p i <=? a) && (a <? DecodePlan.p i + 8)
  | _ => false
  end.

Definition writes_object (i : DecodePlan.Decision) (q : Z) : bool :=
  match DecodePlan.type i with
  | DecodePlan.transfer_fixlen_octets | DecodePlan.transfer_varlen => q =? DecodePlan.p i
  | _ => false
  end.

(** The memory a run of the executor leaves, however it ends. *)
Definition memory_after {A : Type} (o : outcome memory (A * memory)) : memory :=
  match o with
  | Done (_, m) => m
  | Thrown _ m => m
  | AssertFailed m => m
  end.

(** The wire octets of a plan all of whose decisions have a fixed extent. *)
Definition plan_extent (plan : list DecodePlan.Decision) : Z :=
  foldr (fun i acc => default 0 (fixed_extent i) + acc) 0 plan.

(** A stand-in for the float conversion that returns eight zero octets. *)
Definition zero_double (l : list Byte.byte) : list Byte.byte := replicate 8 x00.

(** The sizes a decision of a compiled plan can have: a transfer of fixed
    length fits its destination, whose size is that of a native type, and a
    reduced-length float64 has four octets for a destination of eight. *)
Definition well_sized (d : DecodePlan.Decision) : Prop :=
  match DecodePlan.type d with
  | DecodePlan.transfer_fixlen | DecodePlan.transfer_fixlen_endianness
  | DecodePlan.transfer_boolean =>
    DecodePlan.length d <= DecodePlan.destination_size d
    /\ DecodePlan.destination_size d ∈ [1; 2; 4; 6; 8; 16]
  | DecodePlan.transfer_float_into_double
  | DecodePlan.transfer_float_into_double_endianness =>
    DecodePlan.length d = 4 /\ DecodePlan.destination_size d = 8
  | _ => True
  end.

Definition is_transfer (d : DecodePlan.Decision) : bool :=
  match DecodePlan.type d with
  | DecodePlan.skip_fixlen | DecodePlan.skip_varlen => false
  | _ => true
  end.

(** How the decision for a wire field relates to the field and to the
    placement: a placed field gets a transfer to the registered address, an
    unplaced field a skip of its length. *)
Definition decision_for (lookup_placement : InfoElement -> option Z)
                        (ie : InfoElement) (d : DecodePlan.Decision) : Prop :=
  match lookup_placement ie with
  | Some q =>
    is_transfer d = true /\ DecodePlan.p d = q /\ DecodePlan.wire_ie d = Some ie
  | None =>
    if len ie =? kIpfixVarlen
    then DecodePlan.type d = DecodePlan.skip_varlen
    else DecodePlan.type d = DecodePlan.skip_fixlen /\ DecodePlan.length d = len ie
  end.

(** The invariant of a BasicOctetArray: the storage has [capacity] octets
    and the length is at most the capacity. *)
Definition array_ok (a : BasicOctetArray.t) : Prop :=
  BasicOctetArray.storage_ok a
  /\ (BasicOctetArray.length a <= BasicOctetArray.capacity a)%nat.

(** The number of fields of variable length of a list of elements. *)
Definition varlen_count (ies : list InfoElement) : Z :=
  sum_over (fun ie => if len ie =? kIpfixVarlen then 1 else 0) ies.

(** ** Sets on the wire *)

(** The octet with value [z mod 256], and 16 bits in network order. *)
Definition octet_of (z : Z) : Byte.byte :=
  default x00 (Byte.of_N (Z.to_N (z mod 256))).

Definition u16be (v : Z) : list Byte.byte := [octet_of (v / 256); octet_of v].

(** A set as (set id, payload), and its octets: the header with the length
    of header and payload, then the payload. *)
Definition encode_set (s : Z * list Byte.byte) : list Byte.byte :=
  u16be s.1 ++ u16be (kIpfixSetHeaderLen + Z.of_nat (List.length s.2)) ++ s.2.

Definition encode_sets (sets : list (Z * list Byte.byte)) : list Byte.byte :=
  List.concat (encode_set <$> sets).

Definition set_fits (s : Z * list Byte.byte) : Prop :=
  0 <= s.1 < 65536 /\ kIpfixSetHeaderLen + Z.of_nat (List.length s.2) < 65536.

(** The callbacks a list of sets that starts at offset [cur] should
    cause: for each set in turn its start and end callback, with the length
    and the offset of the payload. *)
Fixpoint deliver_all {H : Type} `{SetLoop.SetHandler H} (message : list Byte.byte)
                     (cur : Z) (sets : list (Z * list Byte.byte)) (h : H)
  : outcome H H :=
  match sets with
  | [] => Done h
  | s :: rest =>
    match SetLoop.dispatch h s.1 (Z.of_nat (List.length s.2)) message
            (cur + kIpfixSetHeaderLen) with
    | Done h1 =>
      deliver_all message (cur + kIpfixSetHeaderLen + Z.of_nat (List.length s.2)) rest h1
    | Thrown msg h1 => Thrown msg h1
    | AssertFailed h1 => AssertFailed h1
    end
  end.

(** A handler that counts the callbacks it gets. *)
#[global] Instance counting_handler : SetLoop.SetHandler nat := {|
  SetLoop.start_template_set := fun h _ _ _ _ => Done (S h);
  SetLoop.end_template_set := fun h => Done (S h);
  SetLoop.start_options_template_set := fun h _ _ _ _ => Done (S h);
  SetLoop.end_options_template_set := fun h => Done (S h);
  SetLoop.start_data_set := fun h _ _ _ _ => Done (S h);
  SetLoop.end_data_set := fun h => Done (S h)
|}.

(** A handler whose callbacks always return. *)
Definition always_returns {H : Type} `{SetLoop.SetHandler H} : Prop :=
  forall (h : H) (set_id length : Z) (message : list Byte.byte) (cur : Z),
    exists h', SetLoop.dispatch h set_id length message cur = Done h'.

(** Two sets for the examples: a template set with one record and a data
    set with one record of four octets. *)
Definition sample_sets : list (Z * list Byte.byte) :=
  [(2, [x01; x00; x00; x01; x00; x08; x00; x04]); (256, [xc0; x00; x02; x01])].

(** ** Template records on the wire *)

Definition u32be (v : Z) : list Byte.byte := u16be (v / 65536) ++ u16be (v mod 65536).

(** A field specifier: the enterprise bit, the element id without that
    bit, the length, and the enterprise number (read only if the bit is
    set). *)
Record field_spec := mkFieldSpec {
  fs_enterprise : bool;
  fs_id : Z;
  fs_length : Z;
  fs_pen : Z
}.

Definition field_ok (f : field_spec) : Prop :=
  0 <= fs_id f < 32768 /\ 0 <= fs_length f < 65536 /\ 0 <= fs_pen f < 4294967296
  /\ (fs_enterprise f = false -> fs_pen f = 0).

Definition encode_field (f : field_spec) : list Byte.byte :=
  if fs_enterprise f
  then u16be (32768 + fs_id f) ++ u16be (fs_length f) ++ u32be (fs_pen f)
  else u16be (fs_id f) ++ u16be (fs_length f).

Definition encode_fields (fs : list field_spec) : list Byte.byte :=
  List.concat (encode_field <$> fs).

(** A template record as (template id, field specifiers); the field count
    of its header is the number of specifiers. *)
Definition encode_record (r : Z * list field_spec) : list Byte.byte :=
  u16be r.1 ++ u16be (Z.of_nat (List.length r.2)) ++ encode_fields r.2.

Definition encode_records (rs : list (Z * list field_spec)) : list Byte.byte :=
  List.concat (encode_record <$> rs).

Definition record_ok (r : Z * list field_spec) : Prop :=
  0 <= r.1 < 65536 /\ Z.of_nat (List.length r.2) < 65536 /\ Forall field_ok r.2.

Section Announcements.

Context {info_model : Type}.
Variable lookupIE : info_model -> Z -> Z -> Z -> option InfoElement.
Variable new_MatchTemplate : nat -> Z.

(** The information model [m] has the element [ie] for the specifier. *)
Definition known (m : info_model) (f : field_spec) (ie : InfoElement) : Prop :=
  lookupIE m (fs_pen f) (fs_id f) (fs_length f) = Some ie.

(** The handler in the middle of a record: the template under construction
    and the number of fields seen. *)
Definition with_fields (h : IPFIXContentHandler.t info_model) (cur : IETemplate) (n : Z)
  : IPFIXContentHandler.t info_model :=
  IPFIXContentHandler.mk _ (IPFIXContentHandler.info h)
    (IPFIXContentHandler.observation_domain h)
    (IPFIXContentHandler.current_template_id h)
    (IPFIXContentHandler.current_field_count h) n (Some cur)
    (IPFIXContentHandler.wire_templates h) (IPFIXContentHandler.parse_is_good h)
    (IPFIXContentHandler.allocated h).

(** What the announcement of one template record with the elements [ies]
    should leave: a record without fields changes no template, any other
    one is stored under the key of its id in place of what was there. *)
Definition announce (h : IPFIXContentHandler.t info_model)
                    (r : (Z * list field_spec) * list InfoElement)
  : IPFIXContentHandler.t info_model :=
  IPFIXContentHandler.mk _ (IPFIXContentHandler.info h)
    (IPFIXContentHandler.observation_domain h)
    r.1.1 (Z.of_nat (List.length r.1.2)) (Z.of_nat (List.length r.1.2)) None
    (match r.2 with
     | [] => IPFIXContentHandler.wire_templates h
     | _ => <[ IPFIXContentHandler.make_template_key _ h r.1.1 :=
               mkTemplate (new_MatchTemplate (IPFIXContentHandler.allocated h)) r.2 ]>
            (IPFIXContentHandler.wire_templates h)
     end)
    (IPFIXContentHandler.parse_is_good h)
    (S (IPFIXContentHandler.allocated h)).

End Announcements.

(** Sample information model: nothing to look up in, every element known
    with the type of an octet array. *)
Definition sample_lookupIE (m : unit) (pen number length : Z) : option InfoElement :=
  Some (mkIE (pen * 65536 + number) pen number (Some kOctetArray) length).

Definition sample_add_unknown (m : unit) (pen number length : Z)
  : option InfoElement * unit := (None, tt).

Definition sample_new_MatchTemplate (n : nat) : Z := 4096 + 64 * Z.of_nat n.

Definition fresh_handler : IPFIXContentHandler.t unit :=
  IPFIXContentHandler.mk unit tt 0 0 0 0 None ∅ true 0.

Definition sample_records : list (Z * list field_spec) :=
  [(256, [mkFieldSpec false 8 4 0; mkFieldSpec true 5 65535 29305]);
   (257, [mkFieldSpec false 12 4 0])].

(** ** Messages in a buffer *)

(** A BufferInputSource over [b] that has been read up to [off]. *)
Definition buffer_at (b : list Byte.byte) (off : nat)
  : IPFIXMessageStreamParser.BufferInputSource :=
  IPFIXMessageStreamParser.mkBuffer b (List.length b) off.

(** A handler that counts the messages announced to it. *)
#[global] Instance counting_messages : IPFIXMessageStreamParser.ContentHandler nat :=
  fun h _ _ _ _ _ _ => Done (S h, None).

Definition sample_message : list Byte.byte :=
  [x00; x0a; x00; x14; x00; x00; x00; x01; x00; x00; x00; x01; x00; x00; x00; x00;
   x01; x00; x00; x04].

(** ** Reading from a UDP source *)

(** The values a sequence of reads returns, and the source afterwards. *)
Fixpoint udp_reads (recvfrom : nat -> Z * list Byte.byte) (s : UDPInputSource.t)
                   (lens : list Z) : list Z * UDPInputSource.t :=
  match lens with
  | [] => ([], s)
  | len :: lens' =>
    let '(n, _, s1) := UDPInputSource.read recvfrom s len in
    let '(ns, s2) := udp_reads recvfrom s1 lens' in
    (n :: ns, s2)
  end.

(** recvfrom stores no more than the size of the packet buffer. *)
Definition recvfrom_bounded (recvfrom : nat -> Z * list Byte.byte) : Prop :=
  forall k, (recvfrom k).1 <= 4096.

(** A socket that fails once and then delivers a datagram of four octets. *)
Definition failing_socket (k : nat) : Z * list Byte.byte :=
  match k with
  | O => (-1, [])
  | _ => (4, [x00; x0a; x00; x14])
  end.

Definition new_udp_source : UDPInputSource.t :=
  UDPInputSource.mk (replicate 4096 x00) 0 0 0.

(** * Properties *)

(** ** Machine integers *)

Lemma u8_range (b : Byte.byte) : 0 <= u8 b < 256.
Proof.
  unfold u8. pose proof (Byte.to_N_bounded b). lia.
Qed.

Lemma u16_range (z : Z) : 0 <= u16 z < 65536.
Proof. unfold u16. apply Z.mod_pos_bound. lia. Qed.

Lemma u16_small (z : Z) : 0 <= z < 65536 -> u16 z = z.
Proof. intros Hz. unfold u16. apply Z.mod_small. exact Hz. Qed.

Lemma u16_add_l (a b : Z) : u16 (u16 a + b) = u16 (a + b).
Proof. unfold u16. apply Zplus_mod_idemp_l. Qed.

(** ** BasicOctetArray *)

Section CopyContentFacts.

Variable new_storage : nat -> list Byte.byte.

Abbreviation copy_content := (BasicOctetArray.copy_content new_storage).
Abbreviation copy_contents := (BasicOctetArray.copy_contents new_storage).

Lemma copy_content_capacity (a : BasicOctetArray.t) (new_buf : list Byte.byte) (n : nat) :
  BasicOctetArray.capacity (copy_content a new_buf n)
  = if Nat.ltb (BasicOctetArray.capacity a) n then n else BasicOctetArray.capacity a.
Proof.
  unfold BasicOctetArray.copy_content.
  destruct (Nat.ltb (BasicOctetArray.capacity a) n); reflexivity.
Qed.

Lemma copy_content_capacity_mono (a : BasicOctetArray.t) (new_buf : list Byte.byte) (n : nat) :
  (BasicOctetArray.capacity a <= BasicOctetArray.capacity (copy_content a new_buf n))%nat.
Proof.
  rewrite copy_content_capacity.
  destruct (Nat.ltb_spec (BasicOctetArray.capacity a) n); lia.
Qed.

Lemma copy_contents_capacity_mono (calls : list (list Byte.byte * nat)) :
  forall a : BasicOctetArray.t,
    (BasicOctetArray.capacity a <= BasicOctetArray.capacity (copy_contents a calls))%nat.
Proof.
  induction calls as [|c calls IH]; intros a; simpl; [lia|].
  etransitivity; [apply (copy_content_capacity_mono a c.1 c.2)|apply IH].
Qed.

Lemma copy_contents_capacity_grows (calls : list (list Byte.byte * nat)) :
  forall a : BasicOctetArray.t,
    (BasicOctetArray.capacity a < BasicOctetArray.capacity (copy_contents a calls))%nat ->
    exists c, c ∈ calls /\ (BasicOctetArray.capacity a < c.2)%nat.
Proof.
  induction calls as [|c calls IH]; intros a Hlt; simpl in Hlt; [lia|].
  destruct (Nat.ltb_spec (BasicOctetArray.capacity a) c.2) as [Hc|Hc].
  - exists c. split; [apply list_elem_of_here|exact Hc].
  - assert (Hsame : BasicOctetArray.capacity (copy_content a c.1 c.2)
                    = BasicOctetArray.capacity a).
    { rewrite copy_content_capacity.
      destruct (Nat.ltb_spec (BasicOctetArray.capacity a) c.2); [lia|reflexivity]. }
    destruct (IH (copy_content a c.1 c.2)) as (c' & Hin & Hc'); [lia|].
    exists c'. split; [apply list_elem_of_further; exact Hin|lia].
Qed.

(** The storage keeps [capacity] octets when fresh storage has the size
    that was asked for. *)
Lemma copy_content_storage_ok (a : BasicOctetArray.t) (new_buf : list Byte.byte) (n : nat) :
  (forall k, List.length (new_storage k) = k) ->
  (n <= List.length new_buf)%nat ->
  BasicOctetArray.storage_ok a ->
  BasicOctetArray.storage_ok (copy_content a new_buf n).
Proof.
  intros Hnew Hsrc Hok. unfold BasicOctetArray.storage_ok in *.
  unfold BasicOctetArray.copy_content, BasicOctetArray.memcpy.
  destruct (Nat.ltb_spec (BasicOctetArray.capacity a) n) as [Hc|Hc]; simpl;
    rewrite length_app, length_take, length_drop.
  - rewrite Hnew. lia.
  - rewrite Hok. lia.
Qed.

(** C10: after copy_content(new_buf, buf_length) the array has length
    buf_length and its first buf_length octets are those of new_buf; over any
    sequence of copy_content calls the capacity never decreases, and it is
    larger than before only if some call asked for more than the capacity. *)
Theorem copy_content_spec (a : BasicOctetArray.t) (new_buf : list Byte.byte)
                          (buf_length : nat) :
  (buf_length <= List.length new_buf)%nat ->
  BasicOctetArray.get_length (copy_content a new_buf buf_length) = buf_length
  /\ take buf_length (BasicOctetArray.get_buf (copy_content a new_buf buf_length))
     = take buf_length new_buf
  /\ (BasicOctetArray.capacity a
      <= BasicOctetArray.capacity (copy_content a new_buf buf_length))%nat
  /\ (BasicOctetArray.capacity (copy_content a new_buf buf_length)
      <> BasicOctetArray.capacity a ->
      (BasicOctetArray.capacity a < buf_length)%nat)
  /\ forall calls : list (list Byte.byte * nat),
       (BasicOctetArray.capacity a
        <= BasicOctetArray.capacity (copy_contents a calls))%nat
       /\ ((BasicOctetArray.capacity a
            < BasicOctetArray.capacity (copy_contents a calls))%nat ->
           exists c, c ∈ calls /\ (BasicOctetArray.capacity a < c.2)%nat).
Proof.
  intros Hsrc. repeat split.
  - unfold BasicOctetArray.get_buf, BasicOctetArray.copy_content, BasicOctetArray.memcpy.
    simpl. rewrite take_app_le by (rewrite length_take; lia).
    rewrite take_take. f_equal. lia.
  - apply copy_content_capacity_mono.
  - rewrite copy_content_capacity.
    destruct (Nat.ltb_spec (BasicOctetArray.capacity a) buf_length); [lia|congruence].
  - apply copy_contents_capacity_mono.
  - apply copy_contents_capacity_grows.
Qed.

End CopyContentFacts.

Lemma copy_content_spec_witness :
  BasicOctetArray.get_length
    (BasicOctetArray.copy_content (fun n => replicate n x00) BasicOctetArray.empty
                                  [x41; x42; x43] 3) = 3%nat.
Proof.
  apply (copy_content_spec (fun n => replicate n x00) BasicOctetArray.empty
                           [x41; x42; x43] 3).
  simpl. lia.
Defined.

(** ** decode_varlen_length *)

Lemma shiftl8_add_lor (a b : Z) :
  0 <= b < 256 -> Z.shiftl a 8 + b = Z.lor (Z.shiftl a 8) b.
Proof.
  intros Hb.
  assert (Hland : Z.land (Z.shiftl a 8) b = 0).
  { apply Z.bits_inj'. intros n Hn.
    rewrite Z.land_spec, Z.bits_0.
    destruct (Z.lt_ge_cases n 8) as [Hlow|Hhigh].
    - rewrite Z.shiftl_spec_low by exact Hlow. reflexivity.
    - replace b with (b mod 2 ^ 8) by (apply Z.mod_small; simpl; lia).
      rewrite Z.mod_pow2_bits_high by lia.
      apply andb_false_r. }
  rewrite <- Z.lxor_lor by exact Hland.
  apply Z.add_nocarry_lxor. exact Hland.
Qed.

Lemma two_octet_length (b1 b2 : Byte.byte) :
  u16 (Z.shiftl (u8 b1) 8 + u8 b2) = Z.lor (Z.shiftl (u8 b1) 8) (u8 b2).
Proof.
  pose proof (u8_range b1) as H1. pose proof (u8_range b2) as H2.
  rewrite <- shiftl8_add_lor by exact H2.
  apply u16_small. rewrite Z.shiftl_mul_pow2 by lia.
  change (2 ^ 8) with 256. lia.
Qed.

Lemma varlen_payload_check_spec (cur ret buf_end : Z) :
  (cur + ret <= buf_end ->
   DecodePlan.varlen_payload_check cur ret buf_end = Done (cur, ret))
  /\ (buf_end < cur + ret ->
      exists msg, DecodePlan.varlen_payload_check cur ret buf_end = Thrown msg tt).
Proof.
  unfold DecodePlan.varlen_payload_check.
  destruct (Z.ltb_spec buf_end (cur + ret)); split; intros; try lia; eauto.
Qed.

(** C5: with an octet b0 at the cursor, b0 < 255 gives the length b0 and
    consumes one octet; b0 = 255 (three octets being inside the buffer)
    consumes three octets and gives (b1 << 8) | b2, whatever that value is,
    values below 255 included.  In both cases the length is returned only if
    cursor + length <= buf_end holds for the cursor behind the length octets,
    and a FormatError is thrown when the payload would cross buf_end. *)
Theorem decode_varlen_length_spec (buf : list Byte.byte) (cur buf_end : Z) :
  cur < buf_end ->
  let b0 := u8 (octet_at buf cur) in
  let b1 := u8 (octet_at buf (cur + 1)) in
  let b2 := u8 (octet_at buf (cur + 2)) in
  (b0 < 255 ->
     (cur + 1 + b0 <= buf_end ->
        DecodePlan.decode_varlen_length buf cur buf_end = Done (cur + 1, b0))
     /\ (buf_end < cur + 1 + b0 ->
        exists msg, DecodePlan.decode_varlen_length buf cur buf_end = Thrown msg tt))
  /\ (b0 = 255 -> cur + 3 <= buf_end ->
     let length := Z.lor (Z.shiftl b1 8) b2 in
     (cur + 3 + length <= buf_end ->
        DecodePlan.decode_varlen_length buf cur buf_end = Done (cur + 3, length))
     /\ (buf_end < cur + 3 + length ->
        exists msg, DecodePlan.decode_varlen_length buf cur buf_end = Thrown msg tt)).
Proof.
  intros Hcur b0 b1 b2. unfold DecodePlan.decode_varlen_length.
  destruct (Z.leb_spec buf_end cur) as [Hge|_]; [lia|].
  fold b0. unfold UCHAR_MAX. split.
  - intros Hb0. destruct (Z.ltb_spec b0 255) as [_|Hge]; [|lia].
    apply varlen_payload_check_spec.
  - intros Hb0 Hthree. cbv zeta.
    destruct (Z.ltb_spec b0 255) as [Hlt|_]; [lia|].
    destruct (Z.ltb_spec buf_end (cur + 3)) as [Hshort|_]; [lia|].
    rewrite two_octet_length.
    apply varlen_payload_check_spec.
Qed.

Lemma decode_varlen_length_spec_witness :
  DecodePlan.decode_varlen_length [xff; x00; x03; x41; x42; x43] 0 6 = Done (3, 3).
Proof.
  assert (Hcur : 0 < 6) by lia.
  destruct (decode_varlen_length_spec [xff; x00; x03; x41; x42; x43] 0 6 Hcur)
    as [_ Hthree].
  destruct (Hthree eq_refl) as [Hok _]; [simpl; lia|].
  apply Hok. vm_compute. discriminate.
Defined.

(** The lengths of the test vectors 0, 1, 254, 255 (three-octet form), 256
    and 65535, each with a buffer that holds the payload. *)
Example varlen_lengths :
  DecodePlan.decode_varlen_length [x00] 0 1 = Done (1, 0)
  /\ DecodePlan.decode_varlen_length [x01; x41] 0 2 = Done (1, 1)
  /\ DecodePlan.decode_varlen_length [xfe] 0 255 = Done (1, 254)
  /\ DecodePlan.decode_varlen_length [xff; x00; xff] 0 258 = Done (3, 255)
  /\ DecodePlan.decode_varlen_length [xff; x01; x00] 0 259 = Done (3, 256)
  /\ DecodePlan.decode_varlen_length [xff; xff; xff] 0 65538 = Done (3, 65535).
Proof. repeat split; reflexivity. Qed.

(** ** Destination memory *)

Lemma store_eq (f : Z -> Byte.byte) (a : Z) (v : Byte.byte) : store f a v a = v.
Proof. unfold store. rewrite Z.eqb_refl. reflexivity. Qed.

Lemma store_ne (f : Z -> Byte.byte) (a x : Z) (v : Byte.byte) :
  x <> a -> store f a v x = f x.
Proof. intros Hne. unfold store. destruct (Z.eqb_spec x a); [contradiction|reflexivity]. Qed.

Lemma memset_inside (f : Z -> Byte.byte) (q n x : Z) (c : Byte.byte) :
  q <= x < q + n -> memset f q c n x = c.
Proof.
  intros Hx. unfold memset.
  destruct (Z.leb_spec q x); [|lia]. destruct (Z.ltb_spec x (q + n)); [|lia]. reflexivity.
Qed.

Lemma memset_outside (f : Z -> Byte.byte) (q n x : Z) (c : Byte.byte) :
  ~ (q <= x < q + n) -> memset f q c n x = f x.
Proof.
  intros Hx. unfold memset.
  destruct (Z.leb_spec q x); destruct (Z.ltb_spec x (q + n)); simpl; try reflexivity; lia.
Qed.

Lemma memcpy_from_inside (f : Z -> Byte.byte) (q : Z) (buf : list Byte.byte) (cur n x : Z) :
  q <= x < q + n -> memcpy_from f q buf cur n x = octet_at buf (cur + (x - q)).
Proof.
  intros Hx. unfold memcpy_from.
  destruct (Z.leb_spec q x); [|lia]. destruct (Z.ltb_spec x (q + n)); [|lia]. reflexivity.
Qed.

Lemma memcpy_from_outside (f : Z -> Byte.byte) (q : Z) (buf : list Byte.byte) (cur n x : Z) :
  ~ (q <= x < q + n) -> memcpy_from f q buf cur n x = f x.
Proof.
  intros Hx. unfold memcpy_from.
  destruct (Z.leb_spec q x); destruct (Z.ltb_spec x (q + n)); simpl; try reflexivity; lia.
Qed.

(** A loop of stores [q[k] = v k] over a list of indices, read back at [x]. *)
Lemma store_loop_lookup (v : Z -> Byte.byte) (q x : Z) (ks : list Z) :
  forall f : Z -> Byte.byte,
    foldl (fun g k => store g (q + k) (v k)) f ks x
    = if decide (x - q ∈ ks) then v (x - q) else f x.
Proof.
  induction ks as [|k ks IH]; intros f; simpl.
  - destruct (decide (x - q ∈ [])) as [Hin|_]; [|reflexivity].
    apply elem_of_nil in Hin. contradiction.
  - rewrite IH.
    destruct (decide (x - q ∈ ks)) as [Hin|Hnin].
    + destruct (decide (x - q ∈ k :: ks)) as [_|Hn]; [reflexivity|].
      exfalso. apply Hn. apply list_elem_of_further. exact Hin.
    + destruct (decide (x - q ∈ k :: ks)) as [Hin'|Hnin'].
      * apply elem_of_cons in Hin' as [Heq|Hin']; [|contradiction].
        replace (q + k) with x by lia. rewrite store_eq. rewrite Heq. reflexivity.
      * apply store_ne. intros Heq. apply Hnin'. subst x.
        replace (q + k - q) with k by lia. apply list_elem_of_here.
Qed.

Lemma reverse_copy_inside (f : Z -> Byte.byte) (q : Z) (buf : list Byte.byte)
                          (cur length k : Z) :
  0 <= k < length ->
  reverse_copy f q buf cur length (q + k) = octet_at buf (cur + (length - (k + 1))).
Proof.
  intros Hk. unfold reverse_copy.
  rewrite (store_loop_lookup (fun k => octet_at buf (cur + (length - (k + 1))))).
  replace (q + k - q) with k by lia.
  destruct (decide (k ∈ seqZ 0 length)) as [_|Hn]; [reflexivity|].
  exfalso. apply Hn. apply elem_of_seqZ. lia.
Qed.

Lemma reverse_copy_outside (f : Z -> Byte.byte) (q : Z) (buf : list Byte.byte)
                           (cur length x : Z) :
  ~ (q <= x < q + length) -> reverse_copy f q buf cur length x = f x.
Proof.
  intros Hx. unfold reverse_copy.
  rewrite (store_loop_lookup (fun k => octet_at buf (cur + (length - (k + 1))))).
  destruct (decide (x - q ∈ seqZ 0 length)) as [Hin|_]; [|reflexivity].
  apply elem_of_seqZ in Hin. lia.
Qed.

(** ** DecodePlan::execute, one decision at a time *)

Section ExecuteFacts.

Variable new_storage : nat -> list Byte.byte.
Variable float_to_double : list Byte.byte -> list Byte.byte.

Abbreviation execute_decision :=
  (DecodePlan.execute_decision new_storage float_to_double).

(** C6: a transfer_boolean decision with its octet inside the buffer stores
    true for the wire octet 1 and false for the wire octet 2, touching only
    the destination and consuming one octet; any other octet throws a
    FormatError and leaves the memory as it was. *)
Theorem transfer_boolean_spec (buf : list Byte.byte) (buf_end : Z)
                              (i : DecodePlan.Decision) (cur : Z) (m : memory) :
  DecodePlan.type i = DecodePlan.transfer_boolean ->
  cur + 1 <= buf_end ->
  let b := u8 (octet_at buf cur) in
  (b = 1 ->
     exists m', execute_decision buf buf_end i cur m = Done (cur + 1, m')
       /\ load_bool (octets m') (DecodePlan.p i) = true
       /\ (forall a, a <> DecodePlan.p i -> octets m' a = octets m a)
       /\ objects m' = objects m)
  /\ (b = 2 ->
     exists m', execute_decision buf buf_end i cur m = Done (cur + 1, m')
       /\ load_bool (octets m') (DecodePlan.p i) = false
       /\ (forall a, a <> DecodePlan.p i -> octets m' a = octets m a)
       /\ objects m' = objects m)
  /\ (b <> 1 -> b <> 2 ->
     exists msg, execute_decision buf buf_end i cur m = Thrown msg m).
Proof.
  intros Htype Hin b. unfold DecodePlan.execute_decision. rewrite Htype.
  destruct (Z.leb_spec (cur + 1) buf_end) as [_|Hout]; [|lia].
  fold b. repeat split.
  - intros Hb. rewrite Hb. simpl. eexists. split; [reflexivity|].
    simpl. unfold load_bool, store_bool. rewrite store_eq.
    repeat split. intros a Ha. apply store_ne. exact Ha.
  - intros Hb. rewrite Hb. simpl. eexists. split; [reflexivity|].
    simpl. unfold load_bool, store_bool. rewrite store_eq.
    repeat split. intros a Ha. apply store_ne. exact Ha.
  - intros H1 H2.
    destruct (Z.eqb_spec b 1); [contradiction|].
    destruct (Z.eqb_spec b 2); [contradiction|].
    eexists. reflexivity.
Qed.

End ExecuteFacts.

(** ** Destinations and wire values as unsigned integers *)

Lemma seqZ_fmap_ext {A : Type} (f g : Z -> A) (m n : Z) :
  (forall k, m <= k < m + n -> f k = g k) -> f <$> seqZ m n = g <$> seqZ m n.
Proof.
  intros Hfg. apply list_fmap_ext. intros i x Hix.
  apply lookup_seqZ in Hix. apply Hfg. lia.
Qed.

Lemma be_value_zeros (zs l : list Byte.byte) :
  Forall (fun b => b = x00) zs -> be_value (zs ++ l) = be_value l.
Proof.
  intros Hz. unfold be_value. rewrite foldl_app.
  replace (foldl (fun acc b => acc * 256 + u8 b) 0 zs) with 0; [reflexivity|].
  induction zs as [|b zs IH] using rev_ind; [reflexivity|].
  apply Forall_app in Hz as [Hzs Hb]. inversion Hb as [|b' l' Hb' _]; subst.
  rewrite foldl_snoc, <- (IH Hzs). reflexivity.
Qed.

Lemma le_value_zeros (l zs : list Byte.byte) :
  Forall (fun b => b = x00) zs -> le_value (l ++ zs) = le_value l.
Proof.
  intros Hz. unfold le_value. rewrite foldr_app.
  replace (foldr (fun b acc => u8 b + 256 * acc) 0 zs) with 0; [reflexivity|].
  induction Hz as [|b zs Hb _ IH]; [reflexivity|].
  simpl in *. subst b. rewrite <- IH. reflexivity.
Qed.

(** Reading reversed octets in little-endian order gives the big-endian
    value of the octets. *)
Lemma le_value_reversed (g : Z -> Byte.byte) (n : nat) :
  le_value ((fun k => g (Z.of_nat n - (k + 1))) <$> seqZ 0 (Z.of_nat n))
  = be_value (g <$> seqZ 0 (Z.of_nat n)).
Proof.
  induction n as [|n IH]; [reflexivity|].
  rewrite (seqZ_S 0 n) at 2. rewrite fmap_app. unfold be_value at 1.
  rewrite foldl_app. fold (be_value (g <$> seqZ 0 (Z.of_nat n))). rewrite <- IH.
  rewrite seqZ_cons by lia. rewrite fmap_cons.
  replace (Z.pred (Z.of_nat (S n))) with (Z.of_nat n) by lia.
  replace (Z.succ 0) with (1 + 0) by lia. rewrite <- fmap_add_seqZ.
  rewrite <- list_fmap_compose.
  rewrite (seqZ_fmap_ext _ (fun k => g (Z.of_nat n - (k + 1)))).
  - simpl. replace (Z.of_nat (S n) - (0 + 1)) with (0 + Z.of_nat n) by lia. lia.
  - intros k _. simpl. f_equal. lia.
Qed.

Lemma transfer_boolean_spec_witness :
  exists m',
    DecodePlan.execute_decision zero_storage sample_float_to_double [x02] 1
      (DecodePlan.mkDecision DecodePlan.transfer_boolean 1 1 100 None) 0 zero_memory
    = Done (1, m')
    /\ load_bool (octets m') 100 = false.
Proof.
  assert (Hin : 0 + 1 <= 1) by lia.
  destruct (transfer_boolean_spec zero_storage sample_float_to_double [x02] 1
              (DecodePlan.mkDecision DecodePlan.transfer_boolean 1 1 100 None)
              0 zero_memory eq_refl Hin) as (_ & Hfalse & _).
  destruct (Hfalse eq_refl) as (m' & Hexec & Hload & _).
  exists m'. split; [exact Hexec|exact Hload].
Defined.

Section FixlenFacts.

Variable new_storage : nat -> list Byte.byte.
Variable float_to_double : list Byte.byte -> list Byte.byte.

Abbreviation execute_decision :=
  (DecodePlan.execute_decision new_storage float_to_double).

(** C2: a fixed-length transfer whose wire octets lie inside the buffer and
    whose length is at most the destination size leaves the destination as
    zeroing all destination_size octets and then copying leaves it.  For
    transfer_fixlen the wire octets are right-justified behind zero octets;
    for transfer_fixlen_endianness dst[k] = src[length - 1 - k] for k below
    length, with zero octets behind.  Either way the destination, read as an
    unsigned integer in the matching byte order, is the unsigned big-endian
    wire value: a short wire value is zero-extended. *)
Theorem transfer_fixlen_spec (buf : list Byte.byte) (buf_end : Z)
                             (i : DecodePlan.Decision) (cur : Z) (m : memory) :
  0 <= DecodePlan.length i <= DecodePlan.destination_size i ->
  cur + DecodePlan.length i <= buf_end ->
  let len := DecodePlan.length i in
  let dst_size := DecodePlan.destination_size i in
  let q := DecodePlan.p i in
  (DecodePlan.type i = DecodePlan.transfer_fixlen ->
     exists m', execute_decision buf buf_end i cur m = Done (cur + len, m')
       /\ (forall j, 0 <= j < dst_size - len -> octets m' (q + j) = x00)
       /\ (forall j, 0 <= j < len ->
             octets m' (q + (dst_size - len) + j) = octet_at buf (cur + j))
       /\ (forall a, ~ (q <= a < q + dst_size) -> octets m' a = octets m a)
       /\ objects m' = objects m
       /\ be_value (mem_octets (octets m') q dst_size)
          = be_value (wire_octets buf cur len))
  /\ (DecodePlan.type i = DecodePlan.transfer_fixlen_endianness ->
     exists m', execute_decision buf buf_end i cur m = Done (cur + len, m')
       /\ (forall k, 0 <= k < len ->
             octets m' (q + k) = octet_at buf (cur + (len - 1 - k)))
       /\ (forall k, len <= k < dst_size -> octets m' (q + k) = x00)
       /\ (forall a, ~ (q <= a < q + dst_size) -> octets m' a = octets m a)
       /\ objects m' = objects m
       /\ le_value (mem_octets (octets m') q dst_size)
          = be_value (wire_octets buf cur len)).
Proof.
  intros Hlen Hin len dst_size q. split; intros Htype.
  - unfold DecodePlan.execute_decision. rewrite Htype.
    fold len dst_size q.
    destruct (Z.ltb_spec buf_end (cur + len)) as [Hout|_]; [lia|].
    destruct (Z.leb_spec len dst_size) as [_|Hbig]; [|lia].
    eexists. split; [reflexivity|]. simpl.
    assert (Hzero : forall j, 0 <= j < dst_size - len ->
              memcpy_from (memset (octets m) q x00 dst_size) (q + dst_size - len)
                          buf cur len (q + j) = x00).
    { intros j Hj. rewrite memcpy_from_outside by lia. apply memset_inside. lia. }
    assert (Hcopy : forall j, 0 <= j < len ->
              memcpy_from (memset (octets m) q x00 dst_size) (q + dst_size - len)
                          buf cur len (q + (dst_size - len) + j)
              = octet_at buf (cur + j)).
    { intros j Hj. rewrite memcpy_from_inside by lia. f_equal. lia. }
    repeat split.
    + exact Hzero.
    + exact Hcopy.
    + intros a Ha. rewrite memcpy_from_outside by lia. apply memset_outside. exact Ha.
    + unfold mem_octets, wire_octets.
      replace dst_size with ((dst_size - len) + len) at 1 by lia.
      rewrite seqZ_app by lia. rewrite fmap_app. rewrite be_value_zeros.
      * f_equal. replace (0 + (dst_size - len)) with ((dst_size - len) + 0) by lia.
        rewrite <- fmap_add_seqZ, <- list_fmap_compose.
        apply seqZ_fmap_ext. intros k Hk. simpl.
        replace (q + (dst_size - len + k)) with (q + (dst_size - len) + k) by lia.
        apply Hcopy. lia.
      * apply Forall_fmap, Forall_seqZ. intros k Hk. simpl. apply Hzero. lia.
  - unfold DecodePlan.execute_decision. rewrite Htype.
    fold len dst_size q.
    destruct (Z.ltb_spec buf_end (cur + len)) as [Hout|_]; [lia|].
    destruct (Z.leb_spec len dst_size) as [_|Hbig]; [|lia].
    eexists. split; [reflexivity|]. simpl.
    assert (Hrev : forall k, 0 <= k < len ->
              reverse_copy (memset (octets m) q x00 dst_size) q buf cur len (q + k)
              = octet_at buf (cur + (len - 1 - k))).
    { intros k Hk. rewrite reverse_copy_inside by lia. f_equal. lia. }
    assert (Hzero : forall k, len <= k < dst_size ->
              reverse_copy (memset (octets m) q x00 dst_size) q buf cur len (q + k)
              = x00).
    { intros k Hk. rewrite reverse_copy_outside by lia. apply memset_inside. lia. }
    repeat split.
    + exact Hrev.
    + exact Hzero.
    + intros a Ha. rewrite reverse_copy_outside by lia. apply memset_outside. exact Ha.
    + unfold mem_octets, wire_octets.
      replace dst_size with (len + (dst_size - len)) at 1 by lia.
      rewrite seqZ_app by lia. rewrite fmap_app. rewrite le_value_zeros.
      * rewrite <- (Z2Nat.id len) by lia.
        rewrite <- (le_value_reversed (fun j => octet_at buf (cur + j))).
        f_equal. apply seqZ_fmap_ext. intros k Hk. simpl.
        rewrite Z2Nat.id in * by lia. rewrite Hrev by lia. f_equal. lia.
      * apply Forall_fmap, Forall_seqZ. intros k Hk. simpl. apply Hzero. lia.
Qed.

End FixlenFacts.

Lemma transfer_fixlen_spec_witness :
  exists m',
    DecodePlan.execute_decision zero_storage sample_float_to_double [x12; x34] 2
      (DecodePlan.mkDecision DecodePlan.transfer_fixlen_endianness 2 4 100 None)
      0 zero_memory
    = Done (2, m')
    /\ le_value (mem_octets (octets m') 100 4) = be_value (wire_octets [x12; x34] 0 2).
Proof.
  assert (Hlen : 0 <= 2 <= 4) by lia.
  assert (Hin : 0 + 2 <= 2) by lia.
  destruct (transfer_fixlen_spec zero_storage sample_float_to_double [x12; x34] 2
              (DecodePlan.mkDecision DecodePlan.transfer_fixlen_endianness 2 4 100 None)
              0 zero_memory Hlen Hin) as [_ Hendian].
  destruct (Hendian eq_refl) as (m' & Hexec & _ & _ & _ & _ & Hvalue).
  exists m'. split; [exact Hexec|exact Hvalue].
Defined.

(** Reduced-length encoding on a little-endian host: an unsigned32 sent in
    two octets 12 34 arrives as 0x00001234, and a signed32 sent in the one
    octet FF arrives as 0x000000FF. *)
Example reduced_length_u32 :
  exists m',
    DecodePlan.execute_decision zero_storage sample_float_to_double [x12; x34] 2
      (DecodePlan.mkDecision DecodePlan.transfer_fixlen_endianness 2 4 100 None)
      0 zero_memory
    = Done (2, m')
    /\ mem_octets (octets m') 100 4 = [x34; x12; x00; x00]
    /\ le_value (mem_octets (octets m') 100 4) = 0x1234.
Proof. eexists. split; [reflexivity|]. split; reflexivity. Qed.

Example reduced_length_i32 :
  exists m',
    DecodePlan.execute_decision zero_storage sample_float_to_double [xff] 1
      (DecodePlan.mkDecision DecodePlan.transfer_fixlen_endianness 1 4 100 None)
      0 zero_memory
    = Done (1, m')
    /\ mem_octets (octets m') 100 4 = [xff; x00; x00; x00]
    /\ le_value (mem_octets (octets m') 100 4) = 0xFF.
Proof. eexists. split; [reflexivity|]. split; reflexivity. Qed.

(** ** Bounds checks of the executor *)

Section BoundsFacts.

Variable new_storage : nat -> list Byte.byte.
Variable float_to_double : list Byte.byte -> list Byte.byte.

Abbreviation execute_decision :=
  (DecodePlan.execute_decision new_storage float_to_double).
Abbreviation execute := (DecodePlan.execute new_storage float_to_double).

(** The two transfer_fixlen kinds throw a FormatError on an overrun. *)
Lemma transfer_fixlen_overrun_throws (buf : list Byte.byte) (buf_end : Z)
                                     (i : DecodePlan.Decision) (cur : Z) (m : memory) :
  DecodePlan.type i = DecodePlan.transfer_fixlen
  \/ DecodePlan.type i = DecodePlan.transfer_fixlen_endianness ->
  buf_end < cur + DecodePlan.length i ->
  exists msg, execute_decision buf buf_end i cur m = Thrown msg m.
Proof.
  intros [Ht|Ht] Hover; unfold DecodePlan.execute_decision; rewrite Ht;
    destruct (Z.ltb_spec buf_end (cur + DecodePlan.length i)); try lia; eauto.
Qed.

(** The varlen kinds throw on every overrun decode_varlen_length sees, and
    otherwise stay inside the buffer. *)
Lemma decode_varlen_length_inside (buf : list Byte.byte) (cur buf_end cur' n : Z) :
  DecodePlan.decode_varlen_length buf cur buf_end = Done (cur', n) ->
  cur < cur' /\ cur' + n <= buf_end /\ 0 <= n.
Proof.
  unfold DecodePlan.decode_varlen_length, DecodePlan.varlen_payload_check, UCHAR_MAX.
  pose proof (u8_range (octet_at buf cur)) as Hb0.
  pose proof (u16_range (Z.shiftl (u8 (octet_at buf (cur + 1))) 8
                         + u8 (octet_at buf (cur + 2)))) as Hl.
  destruct (Z.leb_spec buf_end cur); [discriminate|].
  destruct (Z.ltb_spec (u8 (octet_at buf cur)) 255).
  - destruct (Z.ltb_spec buf_end (cur + 1 + u8 (octet_at buf cur))); [discriminate|].
    intros [= <- <-]. lia.
  - destruct (Z.ltb_spec buf_end (cur + 3)); [discriminate|].
    destruct (Z.ltb_spec buf_end
                (cur + 3 + u16 (Z.shiftl (u8 (octet_at buf (cur + 1))) 8
                                + u8 (octet_at buf (cur + 2))))); [discriminate|].
    intros [= <- <-]. lia.
Qed.

Lemma decode_varlen_length_never_asserts (buf : list Byte.byte) (cur buf_end : Z) :
  DecodePlan.decode_varlen_length buf cur buf_end <> AssertFailed tt.
Proof.
  unfold DecodePlan.decode_varlen_length, DecodePlan.varlen_payload_check.
  repeat match goal with |- context [if ?c then _ else _] => destruct c end;
    discriminate.
Qed.

(** The other kinds of fixed extent only assert the bound: on an overrun no
    FormatError is thrown. *)
Lemma asserted_overrun (buf : list Byte.byte) (buf_end : Z)
                       (i : DecodePlan.Decision) (cur : Z) (m : memory) (n : Z) :
  DecodePlan.type i <> DecodePlan.transfer_fixlen ->
  DecodePlan.type i <> DecodePlan.transfer_fixlen_endianness ->
  fixed_extent i = Some n ->
  buf_end < cur + n ->
  execute_decision buf buf_end i cur m = AssertFailed m.
Proof.
  intros Hn1 Hn2 Hext Hover. unfold fixed_extent in Hext.
  unfold DecodePlan.execute_decision.
  destruct (DecodePlan.type i); try congruence; injection Hext as <-;
    match goal with |- context [?a <=? ?b] => destruct (Z.leb_spec a b) end;
    try lia; reflexivity.
Qed.

(** Whatever a decision does, a cursor it returns is inside the buffer. *)
Lemma execute_decision_inside (buf : list Byte.byte) (buf_end : Z)
                              (i : DecodePlan.Decision) (cur cur' : Z) (m m' : memory) :
  execute_decision buf buf_end i cur m = Done (cur', m') -> cur' <= buf_end.
Proof.
  unfold DecodePlan.execute_decision.
  destruct (DecodePlan.type i);
    try (destruct (DecodePlan.decode_varlen_length buf cur buf_end)
           as [[c n]| |] eqn:Hdec; [|discriminate..]);
    repeat match goal with
           | |- context [?a <=? ?b] => destruct (Z.leb_spec a b)
           | |- context [?a <? ?b] => destruct (Z.ltb_spec a b)
           | |- context [?a =? ?b] => destruct (Z.eqb_spec a b)
           end;
    try discriminate; intros [= <- <-]; lia.
Qed.

Abbreviation execute_loop := (DecodePlan.execute_loop new_storage float_to_double).

(** A decision with a length that is not negative never moves the cursor
    back. *)
Lemma execute_decision_advances (buf : list Byte.byte) (buf_end : Z)
                                (i : DecodePlan.Decision) (cur cur' : Z) (m m' : memory) :
  0 <= DecodePlan.length i ->
  execute_decision buf buf_end i cur m = Done (cur', m') -> cur <= cur'.
Proof.
  intros Hlen. unfold DecodePlan.execute_decision.
  destruct (DecodePlan.type i);
    try (destruct (DecodePlan.decode_varlen_length buf cur buf_end)
           as [[c n]| |] eqn:Hdec; [apply decode_varlen_length_inside in Hdec|discriminate..]);
    repeat match goal with
           | |- context [?a <=? ?b] => destruct (Z.leb_spec a b)
           | |- context [?a <? ?b] => destruct (Z.ltb_spec a b)
           | |- context [?a =? ?b] => destruct (Z.eqb_spec a b)
           end;
    try discriminate; intros [= <- <-]; lia.
Qed.

Lemma execute_loop_inside (buf : list Byte.byte) (buf_end : Z)
                          (plan : list DecodePlan.Decision) :
  Forall (fun i => 0 <= DecodePlan.length i) plan ->
  forall cur cur' m m',
    cur <= buf_end ->
    execute_loop buf buf_end plan cur m = Done (cur', m') ->
    cur <= cur' <= buf_end.
Proof.
  induction 1 as [|i plan Hi _ IH]; intros cur cur' m m' Hcur; simpl.
  - intros [= <- <-]. lia.
  - destruct (Z.ltb_spec cur buf_end); [|discriminate].
    destruct (execute_decision buf buf_end i cur m) as [[c1 m1]| |] eqn:Hstep;
      try discriminate.
    intros Hrest.
    pose proof (execute_decision_inside _ _ _ _ _ _ _ Hstep) as Hin.
    pose proof (execute_decision_advances _ _ _ _ _ _ _ Hi Hstep) as Hadv.
    apply IH in Hrest; lia.
Qed.

(** X1: when execute returns, the count it returns is the distance the cursor
    went, and the cursor is not behind buf + length. *)
Lemma execute_returns_inside (plan : list DecodePlan.Decision) (buf : list Byte.byte)
                             (length consumed : Z) (m m' : memory) :
  Forall (fun i => 0 <= DecodePlan.length i) plan ->
  0 <= length ->
  execute plan buf length m = Done (consumed, m') ->
  0 <= consumed <= length.
Proof.
  intros Hplan Hlength. unfold DecodePlan.execute.
  destruct (execute_loop buf length plan 0 m) as [[cur m1]| |] eqn:Hloop;
    try discriminate.
  apply execute_loop_inside in Hloop; [|exact Hplan|exact Hlength].
  unfold USHRT_MAX. destruct (Z.leb_spec cur 65535); [|discriminate].
  intros [= <- <-]. rewrite u16_small by lia. lia.
Qed.

(** A plan of one decision. *)
Lemma execute_single (i : DecodePlan.Decision) (buf : list Byte.byte)
                     (length : Z) (m : memory) :
  0 < length ->
  execute [i] buf length m
  = match execute_decision buf length i 0 m with
    | Done (cur, m') => if cur <=? USHRT_MAX then Done (u16 cur, m') else AssertFailed m'
    | Thrown msg m' => Thrown msg m'
    | AssertFailed m' => AssertFailed m'
    end.
Proof.
  intros Hlength. unfold DecodePlan.execute. simpl.
  destruct (Z.ltb_spec 0 length); [|lia].
  destruct (execute_decision buf length i 0 m) as [[cur m']| |]; reflexivity.
Qed.

End BoundsFacts.

(** ** A record that runs past the buffer in a skipped field *)

(** C1, evaluated on the code: the plan compiled for the template above is
    a transfer_varlen followed by a skip_fixlen of four octets.  On a data
    set of five octets (03 41 42 43 00, at least the minimum length the
    data-set loop asks for) the name takes four octets, the skipped field
    would end three octets behind the buffer, and execute stops in the
    failed assertion of skip_fixlen: no FormatError is thrown. *)
Theorem execute_skip_overrun_asserts
        (new_storage : nat -> list Byte.byte)
        (float_to_double : list Byte.byte -> list Byte.byte)
        (uninitialised : DecodePlan.Decision) (m : memory) :
  exists plan,
    DecodePlan.create true place_name uninitialised name_and_interface = Done plan
    /\ DecodePlan.type <$> plan = [DecodePlan.transfer_varlen; DecodePlan.skip_fixlen]
    /\ PlacementContentHandler.wire_template_min_length name_and_interface <= 5
    /\ exists m',
         DecodePlan.execute new_storage float_to_double plan
                            [x03; x41; x42; x43; x00] 5 m
         = AssertFailed m'.
Proof.
  eexists. split; [vm_compute; reflexivity|].
  split; [reflexivity|].
  split; [vm_compute; discriminate|].
  eexists. vm_compute. reflexivity.
Qed.

(** ** The coalescing pass *)

Lemma has_adjacent_cons (d : DecodePlan.Decision) (plan : list DecodePlan.Decision) :
  has_adjacent_skip_fixlen (d :: plan)
  = (DecodePlan.is_skip_fixlen d && starts_with_skip_fixlen plan)
    || has_adjacent_skip_fixlen plan.
Proof.
  destruct plan as [|d2 plan]; simpl; [|reflexivity].
  rewrite andb_false_r. reflexivity.
Qed.

Lemma absorb_stops_at_other (skips : list DecodePlan.Decision) :
  forall n, starts_with_skip_fixlen (DecodePlan.absorb n skips).2 = false.
Proof.
  induction skips as [|s skips IH]; intros n; simpl; [reflexivity|].
  destruct (DecodePlan.is_skip_fixlen s) eqn:Hs; [apply IH|].
  simpl. exact Hs.
Qed.

Lemma coalesce_cons (d : DecodePlan.Decision) (rest : list DecodePlan.Decision) :
  DecodePlan.coalesce (d :: rest)
  = if DecodePlan.is_skip_fixlen d
    then DecodePlan.set_length d (DecodePlan.absorb (DecodePlan.length d) rest).1
           :: DecodePlan.coalesce (DecodePlan.absorb (DecodePlan.length d) rest).2
    else d :: DecodePlan.coalesce rest.
Proof.
  simp coalesce. destruct (DecodePlan.is_skip_fixlen d); reflexivity.
Qed.

Lemma coalesce_start (plan : list DecodePlan.Decision) :
  starts_with_skip_fixlen (DecodePlan.coalesce plan) = starts_with_skip_fixlen plan.
Proof.
  destruct plan as [|d rest]; [reflexivity|].
  rewrite coalesce_cons. destruct d as [t n s q w]. destruct t; reflexivity.
Qed.

Lemma coalesce_no_adjacent (plan : list DecodePlan.Decision) :
  has_adjacent_skip_fixlen (DecodePlan.coalesce plan) = false.
Proof.
  remember (List.length plan) as n eqn:Hn. revert plan Hn.
  induction n as [n IH] using lt_wf_ind. intros plan Hn.
  destruct plan as [|d rest]; [reflexivity|].
  rewrite coalesce_cons. destruct (DecodePlan.is_skip_fixlen d) eqn:Hd.
  - rewrite has_adjacent_cons, coalesce_start, absorb_stops_at_other.
    rewrite andb_false_r. simpl.
    assert (Hle : forall l k, (List.length (DecodePlan.absorb k l).2 <= List.length l)%nat).
    { induction l as [|s l IHl]; intros k; simpl; [lia|].
      destruct (DecodePlan.is_skip_fixlen s); simpl; [|lia].
      specialize (IHl (u16 (k + DecodePlan.length s))). lia. }
    apply (IH (List.length (DecodePlan.absorb (DecodePlan.length d) rest).2));
      [|reflexivity].
    specialize (Hle rest (DecodePlan.length d)). simpl in Hn. lia.
  - rewrite has_adjacent_cons, Hd. simpl.
    apply (IH (List.length rest)); [simpl in Hn; lia|reflexivity].
Qed.




Section CompileFacts.

Variable little_endian : bool.
Variable lookup_placement : InfoElement -> option Z.
Variable uninitialised : DecodePlan.Decision.

Abbreviation create :=
  (DecodePlan.create little_endian lookup_placement uninitialised).
Abbreviation decisions :=
  (DecodePlan.decisions little_endian lookup_placement uninitialised).

Abbreviation skip_of := (skip_fixlen_of uninitialised).
Abbreviation unplaced_fixlen := (unplaced_fixed_length lookup_placement).




End CompileFacts.



(** ** The wire-template registry *)

Lemma make_template_key_domain (h : PlacementContentHandler.t) (tid : Z) :
  0 <= PlacementContentHandler.observation_domain h < 4294967296 ->
  0 <= tid < 65536 ->
  PlacementContentHandler.make_template_key h tid
  = PlacementContentHandler.observation_domain h * 65536 + tid.
Proof.
  intros Hod Htid. unfold PlacementContentHandler.make_template_key, u64.
  rewrite Z.shiftl_mul_pow2 by lia. change (2 ^ 16) with 65536.
  apply Z.mod_small. lia.
Qed.

(** No template under the key: the new template is installed, and nothing
    else changes. *)
Lemma register_template_absent (h : PlacementContentHandler.t) (cur : IETemplate) :
  PlacementContentHandler.find_wire_template h
    (PlacementContentHandler.current_template_id h) = None ->
  let h' := PlacementContentHandler.register_template h cur in
  let key := PlacementContentHandler.make_template_key h
               (PlacementContentHandler.current_template_id h) in
  PlacementContentHandler.wire_templates h'
  = <[ key := cur ]> (PlacementContentHandler.wire_templates h)
  /\ PlacementContentHandler.matched_templates h'
     = PlacementContentHandler.matched_templates h
  /\ PlacementContentHandler.incomplete_template_ids h'
     = PlacementContentHandler.incomplete_template_ids h.
Proof.
  intros Hnone. unfold PlacementContentHandler.register_template.
  rewrite Hnone. simpl. repeat split.
Qed.

(** An equal template under the key: the handler is left as it is, so the
    stored pointer and the matched-template cache stay. *)
Lemma register_template_equal (h : PlacementContentHandler.t) (cur old : IETemplate) :
  PlacementContentHandler.find_wire_template h
    (PlacementContentHandler.current_template_id h) = Some old ->
  template_eq old cur = true ->
  PlacementContentHandler.register_template h cur = h.
Proof.
  intros Hold Heq. unfold PlacementContentHandler.register_template, template_ne.
  rewrite Hold, Heq. reflexivity.
Qed.

(** A different template under the key: the old template is deleted and
    replaced, its entry in the matched-template cache is erased, and the
    template id (not the template key) is erased from
    incomplete_template_ids. *)
Lemma register_template_differs (h : PlacementContentHandler.t) (cur old : IETemplate) :
  PlacementContentHandler.find_wire_template h
    (PlacementContentHandler.current_template_id h) = Some old ->
  template_eq old cur = false ->
  let h' := PlacementContentHandler.register_template h cur in
  let key := PlacementContentHandler.make_template_key h
               (PlacementContentHandler.current_template_id h) in
  PlacementContentHandler.wire_templates h'
  = <[ key := cur ]> (PlacementContentHandler.wire_templates h)
  /\ PlacementContentHandler.matched_templates h'
     = delete (tmpl_addr old) (PlacementContentHandler.matched_templates h)
  /\ tmpl_addr old ∈ PlacementContentHandler.deleted h'
  /\ PlacementContentHandler.incomplete_template_ids h'
     = PlacementContentHandler.incomplete_template_ids h
         ∖ {[ PlacementContentHandler.current_template_id h ]}.
Proof.
  intros Hold Hne. unfold PlacementContentHandler.register_template, template_ne.
  rewrite Hold, Hne. simpl. repeat split. set_solver.
Qed.

(** The mark of a replaced template survives whenever its key differs from
    the bare template id, that is, in every observation domain but 0. *)
Lemma incomplete_mark_survives (h : PlacementContentHandler.t) (cur old : IETemplate) :
  let tid := PlacementContentHandler.current_template_id h in
  let key := PlacementContentHandler.make_template_key h tid in
  PlacementContentHandler.find_wire_template h tid = Some old ->
  template_eq old cur = false ->
  0 < PlacementContentHandler.observation_domain h < 4294967296 ->
  0 <= tid < 65536 ->
  key ∈ PlacementContentHandler.incomplete_template_ids h ->
  key ∈ PlacementContentHandler.incomplete_template_ids
          (PlacementContentHandler.register_template h cur).
Proof.
  intros tid key Hold Hne Hod Htid Hmark.
  destruct (register_template_differs h cur old Hold Hne) as (_ & _ & _ & ->).
  assert (Hkey : key = PlacementContentHandler.observation_domain h * 65536 + tid).
  { apply make_template_key_domain; [lia|exact Htid]. }
  assert (Hdiff : key <> tid) by lia.
  fold tid. apply elem_of_difference. split; [exact Hmark|].
  intros Hin. apply elem_of_singleton in Hin. contradiction.
Qed.

(** C9: at the end of a template record without fields the registry and
    the matched-template cache are what they were; in particular every key
    still has the template it had. *)
Theorem empty_template_not_installed (h : PlacementContentHandler.t) (cur : IETemplate) :
  PlacementContentHandler.current_wire_template h = Some cur ->
  IETemplate_size cur = 0%nat ->
  exists h' e,
    PlacementContentHandler.end_template_record h = Done (h', e)
    /\ PlacementContentHandler.wire_templates h'
       = PlacementContentHandler.wire_templates h
    /\ PlacementContentHandler.matched_templates h'
       = PlacementContentHandler.matched_templates h
    /\ forall id, PlacementContentHandler.find_wire_template h' id
                  = PlacementContentHandler.find_wire_template h id.
Proof.
  intros Hcur Hsize. unfold PlacementContentHandler.end_template_record.
  rewrite Hcur, Hsize. simpl.
  destruct (negb (PlacementContentHandler.current_field_count h
                  =? PlacementContentHandler.current_field_no h));
    eexists; eexists; (split; [reflexivity|]); repeat split.
Qed.

(** C3, evaluated on the code: the differing template replaces the stored
    one and the matched-cache entry of the old template is erased, but the
    incomplete mark of the template, which match_placement_template keeps
    under make_template_key(256) = 65792, is still set afterwards:
    end_template_record erases the bare id 256 instead. *)
Theorem redefined_template_keeps_incomplete_mark :
  exists h',
    PlacementContentHandler.end_template_record redefining_handler = Done (h', None)
    /\ PlacementContentHandler.find_wire_template h' 256 = Some interface_only
    /\ PlacementContentHandler.matched_templates h' !! 1000 = None
    /\ PlacementContentHandler.make_template_key h' 256 = 65792
    /\ 65792 ∈ PlacementContentHandler.incomplete_template_ids redefining_handler
    /\ 65792 ∈ PlacementContentHandler.incomplete_template_ids h'.
Proof.
  eexists. split; [reflexivity|].
  split; [reflexivity|]. split; [reflexivity|]. split; [reflexivity|].
  assert (Hmark : 65792 ∈ PlacementContentHandler.incomplete_template_ids
                                redefining_handler).
  { unfold redefining_handler. simpl. apply elem_of_singleton. reflexivity. }
  split; [exact Hmark|].
  unfold redefining_handler in *. simpl in *.
  apply elem_of_difference. split; [exact Hmark|].
  intros Hin. apply elem_of_singleton in Hin. discriminate.
Qed.

Lemma empty_template_not_installed_witness :
  exists h' e,
    PlacementContentHandler.end_template_record
      (PlacementContentHandler.mk 1 256 0 0 (Some (mkTemplate 2000 []))
         {[ 65792 := name_only ]} {[ 1000 := 7 ]} ∅ ∅ ∅ true)
    = Done (h', e)
    /\ PlacementContentHandler.find_wire_template h' 256 = Some name_only.
Proof.
  destruct (empty_template_not_installed
              (PlacementContentHandler.mk 1 256 0 0 (Some (mkTemplate 2000 []))
                 {[ 65792 := name_only ]} {[ 1000 := 7 ]} ∅ ∅ ∅ true)
              (mkTemplate 2000 []) eq_refl eq_refl)
    as (h' & e & Hend & _ & _ & Hfind).
  exists h', e. split; [exact Hend|]. rewrite Hfind. reflexivity.
Defined.

(** ** The record loop of a data set *)

Lemma minlen_sum (t : IETemplate) : minlen t = sum_over minlen_contribution (ies_ t).
Proof.
  unfold minlen. generalize (ies_ t). intros ies.
  assert (Hgen : forall n, foldl minlen_add n ies = n + sum_over minlen_contribution ies).
  { induction ies as [|ie ies IH]; intros n; simpl; [lia|].
    rewrite IH. unfold minlen_add, minlen_contribution.
    destruct (len ie =? kIpfixVarlen); lia. }
  rewrite Hgen. lia.
Qed.

Lemma wire_template_min_length_sum (t : IETemplate) :
  PlacementContentHandler.wire_template_min_length t
  = u16 (sum_over fixed_contribution (ies_ t)).
Proof.
  unfold PlacementContentHandler.wire_template_min_length.
  generalize (ies_ t). intros ies.
  assert (Hgen : forall n, 0 <= n < 65536 ->
            foldl (fun min i => if negb (len i =? kIpfixVarlen)
                                then u16 (min + len i) else min) n ies
            = u16 (n + sum_over fixed_contribution ies)).
  { induction ies as [|ie ies IH]; intros n Hn; simpl.
    - rewrite Z.add_0_r. symmetry. apply u16_small. exact Hn.
    - unfold fixed_contribution at 1.
      destruct (len ie =? kIpfixVarlen); simpl.
      + apply IH. exact Hn.
      + rewrite IH by apply u16_range. rewrite u16_add_l. f_equal. lia. }
  apply Hgen. lia.
Qed.

Section DataSetFacts.

Variable new_storage : nat -> list Byte.byte.
Variable float_to_double : list Byte.byte -> list Byte.byte.
Variable collector : Type.
Variable start_placement : collector -> memory -> collector * option ErrorContext.
Variable end_placement : collector -> memory -> collector * option ErrorContext.

Abbreviation record_loop :=
  (PlacementContentHandler.record_loop new_storage float_to_double collector
     start_placement end_placement).
Abbreviation decode_records :=
  (PlacementContentHandler.decode_records new_storage float_to_double collector
     start_placement end_placement).
Abbreviation loop_guard := (@PlacementContentHandler.loop_guard collector).





End DataSetFacts.

Example address_plan_compiled :
  DecodePlan.create true place_address
    (DecodePlan.mkDecision DecodePlan.skip_fixlen 0 0 0 None) address_only
  = Done address_plan.
Proof. reflexivity. Qed.


(** The two records are decoded one after the other. *)
Example two_records :
  exists s',
    PlacementContentHandler.decode_records zero_storage sample_float_to_double unit
      silent_callback silent_callback 3 address_plan address_only
      [xc0; x00; x02; x01; x0a; x00; x00; x01] 8 zero_memory tt
    = PlacementContentHandler.Finished s'
    /\ PlacementContentHandler.trace s' = brackets [4; 4]
    /\ PlacementContentHandler.cur s' = 8
    /\ le_value (mem_octets (octets (PlacementContentHandler.mem s')) 100 4)
       = 0x0A000001.
Proof. eexists. split; [reflexivity|]. repeat split. Qed.


(** ** The header phase of the IPFIX message stream parser *)

Section HeaderFacts.

Context {H S : Type}.
Context {handler : IPFIXMessageStreamParser.ContentHandler H}.
Context {input : IPFIXMessageStreamParser.InputSource S}.

(** A header with another version number is a fatal error, and nothing is
    announced to the content handler. *)
Lemma bad_version_is_fatal (h : H) (source source1 : S) (message : list Byte.byte) :
  IPFIXMessageStreamParser.read source kIpfixMessageHeaderLen
  = (kIpfixMessageHeaderLen, message, source1) ->
  IPFIXMessageStreamParser.decode_uint16 message 0 <> kIpfixVersion ->
  IPFIXMessageStreamParser.read_message h source
  = IPFIXMessageStreamParser.fatal_reported message_version_number h source1.
Proof.
  intros Hread Hversion. unfold IPFIXMessageStreamParser.read_message.
  rewrite Hread. simpl.
  destruct (Z.eqb_spec (IPFIXMessageStreamParser.decode_uint16 message 0) kIpfixVersion);
    [contradiction|reflexivity].
Qed.

(** A header of version 10 whose length field is below 16 is never reported
    through the fatal-error handler, whatever the content handler does. *)
Lemma short_length_is_not_fatal (h : H) (source source1 : S) (message : list Byte.byte) :
  IPFIXMessageStreamParser.read source kIpfixMessageHeaderLen
  = (kIpfixMessageHeaderLen, message, source1) ->
  IPFIXMessageStreamParser.decode_uint16 message 0 = kIpfixVersion ->
  IPFIXMessageStreamParser.decode_uint16 message 2 < kIpfixMinMessageLen ->
  forall e h' s',
    IPFIXMessageStreamParser.read_message h source
    <> IPFIXMessageStreamParser.fatal_reported e h' s'.
Proof.
  intros Hread Hversion Hshort e h' s'.
  unfold IPFIXMessageStreamParser.read_message.
  rewrite Hread, Hversion. simpl.
  destruct (IPFIXMessageStreamParser.start_message h _ _ _ _ _ _) as [[h1 r]|msg h1|h1];
    try discriminate.
  unfold kIpfixMinMessageLen, kIpfixMessageHeaderLen in *.
  destruct (Z.leb_spec 16 (IPFIXMessageStreamParser.decode_uint16 message 2));
    [lia|discriminate].
Qed.

End HeaderFacts.

(** PlacementContentHandler's start_message answers a length below 16 with
    a recoverable short_message error. *)
Lemma start_message_short (h : PlacementContentHandler.t)
      (length export_time sequence_number observation_domain : Z) :
  PlacementContentHandler.current_wire_template h = None ->
  length < kIpfixMinMessageLen ->
  PlacementContentHandler.start_message h kIpfixVersion length export_time
    sequence_number observation_domain 0
  = Done (PlacementContentHandler.set_parse_is_good h false,
          Some (mkErrorContext recoverable short_message)).
Proof.
  intros Hcur Hshort. unfold PlacementContentHandler.start_message.
  rewrite Hcur. simpl.
  destruct (Z.ltb_spec length kIpfixMinMessageLen); [reflexivity|lia].
Qed.

(** C7, evaluated on the code: for a header of version 10 with length 8 the
    parser reports no fatal error.  start_message answers with a recoverable
    short_message error, which parse does not look at, and parse then fails
    its assertion cur <= message_end. *)
Theorem short_length_not_validated :
  exists h1 source1,
    PlacementContentHandler.start_message new_handler 10 8 1 1 0 0
    = Done (h1, Some (mkErrorContext recoverable short_message))
    /\ IPFIXMessageStreamParser.read_message new_handler
         (IPFIXMessageStreamParser.BufferInputSource_new short_header_stream)
       = IPFIXMessageStreamParser.assert_failed h1 source1
    /\ forall e h' s',
         IPFIXMessageStreamParser.read_message new_handler
           (IPFIXMessageStreamParser.BufferInputSource_new short_header_stream)
         <> IPFIXMessageStreamParser.fatal_reported e h' s'.
Proof.
  eexists. eexists. split; [reflexivity|]. split; [reflexivity|].
  intros e h' s'. discriminate.
Qed.

(** * Further properties of the code *)

(** ** The executor: what it writes and how far it reads *)

Lemma store_list_outside (l : list Byte.byte) :
  forall (f : Z -> Byte.byte) (q a : Z),
    ~ (q <= a < q + Z.of_nat (List.length l)) -> store_list f q l a = f a.
Proof.
  induction l as [|b l IH]; intros f q a Ha; simpl; [reflexivity|].
  simpl in Ha. rewrite IH by lia. apply store_ne. lia.
Qed.

Section FrameFacts.

Variable new_storage : nat -> list Byte.byte.
Variable float_to_double : list Byte.byte -> list Byte.byte.
Hypothesis double_size : forall l, List.length (float_to_double l) = 8%nat.

Abbreviation execute_decision :=
  (DecodePlan.execute_decision new_storage float_to_double).
Abbreviation execute_loop := (DecodePlan.execute_loop new_storage float_to_double).
Abbreviation execute := (DecodePlan.execute new_storage float_to_double).

Lemma execute_decision_frame (buf : list Byte.byte) (buf_end : Z)
                             (i : DecodePlan.Decision) (cur : Z) (m : memory) :
  let m' := memory_after (execute_decision buf buf_end i cur m) in
  (forall a, writes_octet i a = false -> octets m' a = octets m a)
  /\ (forall q, writes_object i q = false -> objects m' q = objects m q).
Proof.
  unfold writes_octet, writes_object, DecodePlan.execute_decision.
  destruct (DecodePlan.type i);
    try match goal with
        | |- context [DecodePlan.decode_varlen_length ?b ?c ?e] =>
          destruct (DecodePlan.decode_varlen_length b c e) as [[c' n']| |]
        end;
    repeat match goal with
           | |- context [if ?a <=? ?b then _ else _] => destruct (Z.leb_spec a b)
           | |- context [if ?a <? ?b then _ else _] => destruct (Z.ltb_spec a b)
           | |- context [if ?a =? ?b then _ else _] => destruct (Z.eqb_spec a b)
           end;
    simpl; split; intros x Hx; try reflexivity;
    rewrite ?andb_false_iff, ?Z.leb_gt, ?Z.ltb_ge, ?Z.eqb_neq in Hx;
    first [ unfold store_bool; apply store_ne; lia
          | rewrite memcpy_from_outside by lia; apply memset_outside; lia
          | rewrite reverse_copy_outside by lia; apply memset_outside; lia
          | apply store_list_outside; rewrite double_size; lia
          | destruct (Z.eqb_spec x (DecodePlan.p i)); [contradiction|reflexivity] ].
Qed.

Lemma execute_loop_frame (buf : list Byte.byte) (buf_end : Z)
                         (plan : list DecodePlan.Decision) :
  forall (cur : Z) (m : memory),
    let m' := memory_after (execute_loop buf buf_end plan cur m) in
    (forall a, Forall (fun i => writes_octet i a = false) plan ->
               octets m' a = octets m a)
    /\ (forall q, Forall (fun i => writes_object i q = false) plan ->
                  objects m' q = objects m q).
Proof.
  induction plan as [|i plan IH]; intros cur m; simpl; [split; reflexivity|].
  destruct (Z.ltb_spec cur buf_end); [|split; reflexivity].
  pose proof (execute_decision_frame buf buf_end i cur m) as [Hoct Hobj].
  destruct (execute_decision buf buf_end i cur m) as [[c1 m1]|msg m1|m1]; simpl in *.
  - destruct (IH c1 m1) as [Hoct' Hobj']. split.
    + intros a Ha. inversion Ha; subst. rewrite Hoct' by assumption. auto.
    + intros q Hq. inversion Hq; subst. rewrite Hobj' by assumption. auto.
  - split; intros x Hx; inversion Hx; subst; auto.
  - split; intros x Hx; inversion Hx; subst; auto.
Qed.

(** X2: however execute ends, an octet outside the destinations of the plan's
    transfers, and an octet array no octet-string transfer points to, is
    what it was. *)
Theorem execute_frame (plan : list DecodePlan.Decision) (buf : list Byte.byte)
                      (length : Z) (m : memory) :
  let m' := memory_after (execute plan buf length m) in
  (forall a, Forall (fun i => writes_octet i a = false) plan ->
             octets m' a = octets m a)
  /\ (forall q, Forall (fun i => writes_object i q = false) plan ->
                objects m' q = objects m q).
Proof.
  pose proof (execute_loop_frame buf length plan 0 m) as Hloop.
  unfold DecodePlan.execute.
  destruct (execute_loop buf length plan 0 m) as [[cur m1]|msg m1|m1]; simpl in *;
    [destruct (cur <=? USHRT_MAX)|..]; exact Hloop.
Qed.

End FrameFacts.

Lemma execute_frame_witness :
  octets (memory_after (DecodePlan.execute zero_storage zero_double
                          address_plan [xc0; x00; x02; x01] 4 zero_memory)) 104
  = octets zero_memory 104.
Proof.
  destruct (execute_frame zero_storage zero_double (fun _ => eq_refl)
                          address_plan [xc0; x00; x02; x01] 4 zero_memory)
    as [Hoctets _].
  apply Hoctets. repeat constructor.
Defined.

Lemma execute_returns_inside_witness :
  exists consumed m',
    DecodePlan.execute zero_storage sample_float_to_double address_plan
                       [xc0; x00; x02; x01; x0a; x00; x00; x01] 8 zero_memory
    = Done (consumed, m')
    /\ 0 <= consumed <= 8.
Proof.
  exists 4.
  exists (memory_after (DecodePlan.execute zero_storage sample_float_to_double
                          address_plan [xc0; x00; x02; x01; x0a; x00; x00; x01]
                          8 zero_memory)).
  split; [reflexivity|].
  apply (execute_returns_inside zero_storage sample_float_to_double address_plan
           [xc0; x00; x02; x01; x0a; x00; x00; x01] 8 4 zero_memory
           (memory_after (DecodePlan.execute zero_storage sample_float_to_double
                            address_plan [xc0; x00; x02; x01; x0a; x00; x00; x01]
                            8 zero_memory))).
  - repeat constructor. simpl. lia.
  - lia.
  - reflexivity.
Defined.

Lemma transfer_fixlen_overrun_throws_witness :
  exists msg,
    DecodePlan.execute_decision zero_storage sample_float_to_double [xc0; x00] 2
      (DecodePlan.mkDecision DecodePlan.transfer_fixlen_endianness 4 4 100 None)
      0 zero_memory
    = Thrown msg zero_memory.
Proof.
  apply (transfer_fixlen_overrun_throws zero_storage sample_float_to_double).
  - right. reflexivity.
  - simpl. lia.
Defined.

(** X4: where decode_varlen_length returns, it has consumed one or three
    octets, the length fits 16 bits, and the payload ends inside the
    buffer. *)
Theorem decode_varlen_length_bounds (buf : list Byte.byte) (cur buf_end cur' n : Z) :
  DecodePlan.decode_varlen_length buf cur buf_end = Done (cur', n) ->
  (cur' = cur + 1 /\ n < 255 \/ cur' = cur + 3)
  /\ 0 <= n <= 65535
  /\ cur' <= buf_end
  /\ cur' + n <= buf_end.
Proof.
  unfold DecodePlan.decode_varlen_length, DecodePlan.varlen_payload_check, UCHAR_MAX.
  pose proof (u8_range (octet_at buf cur)) as Hb0.
  pose proof (u16_range (Z.shiftl (u8 (octet_at buf (cur + 1))) 8
                         + u8 (octet_at buf (cur + 2)))) as Hl.
  destruct (Z.leb_spec buf_end cur); [discriminate|].
  destruct (Z.ltb_spec (u8 (octet_at buf cur)) 255).
  - destruct (Z.ltb_spec buf_end (cur + 1 + u8 (octet_at buf cur))); [discriminate|].
    intros [= <- <-]. lia.
  - destruct (Z.ltb_spec buf_end (cur + 3)); [discriminate|].
    destruct (Z.ltb_spec buf_end
                (cur + 3 + u16 (Z.shiftl (u8 (octet_at buf (cur + 1))) 8
                                + u8 (octet_at buf (cur + 2))))); [discriminate|].
    intros [= <- <-]. lia.
Qed.

Lemma decode_varlen_length_bounds_witness :
  (1 = 0 + 1 /\ 3 < 255 \/ 1 = 0 + 3) /\ 0 <= 3 <= 65535 /\ 1 <= 4 /\ 1 + 3 <= 4.
Proof.
  apply (decode_varlen_length_bounds [x03; x41; x42; x43] 0 4 1 3). reflexivity.
Defined.

Section ExtentFacts.

Variable new_storage : nat -> list Byte.byte.
Variable float_to_double : list Byte.byte -> list Byte.byte.

Abbreviation execute_decision :=
  (DecodePlan.execute_decision new_storage float_to_double).
Abbreviation execute_loop := (DecodePlan.execute_loop new_storage float_to_double).
Abbreviation execute := (DecodePlan.execute new_storage float_to_double).

Lemma execute_decision_extent (buf : list Byte.byte) (buf_end : Z)
      (i : DecodePlan.Decision) (cur cur' n : Z) (m m' : memory) :
  fixed_extent i = Some n ->
  execute_decision buf buf_end i cur m = Done (cur', m') ->
  cur' = cur + n.
Proof.
  unfold fixed_extent, DecodePlan.execute_decision.
  destruct (DecodePlan.type i); try discriminate; intros [= <-];
    repeat match goal with
           | |- context [if ?a <=? ?b then _ else _] => destruct (Z.leb_spec a b)
           | |- context [if ?a <? ?b then _ else _] => destruct (Z.ltb_spec a b)
           | |- context [if ?a =? ?b then _ else _] => destruct (Z.eqb_spec a b)
           end;
    try discriminate; intros [= <- <-]; reflexivity.
Qed.

Lemma execute_loop_extent (buf : list Byte.byte) (buf_end : Z)
                          (plan : list DecodePlan.Decision) :
  Forall (fun i => fixed_extent i <> None) plan ->
  forall cur cur' m m',
    execute_loop buf buf_end plan cur m = Done (cur', m') ->
    cur' = cur + plan_extent plan.
Proof.
  induction 1 as [|i plan Hi _ IH]; intros cur cur' m m'; simpl.
  - intros [= <- <-]. lia.
  - destruct (Z.ltb_spec cur buf_end); [|discriminate].
    destruct (execute_decision buf buf_end i cur m) as [[c1 m1]| |] eqn:Hstep;
      try discriminate.
    intros Hrest. apply IH in Hrest.
    destruct (fixed_extent i) as [n|] eqn:Hn; [|contradiction].
    rewrite (execute_decision_extent _ _ _ _ _ _ _ _ Hn Hstep) in Hrest.
    simpl. lia.
Qed.

(** X3: a plan without decisions of variable length, when it returns, has
    consumed the sum of the extents of its decisions: the length of a
    skipped or transferred field, one octet for a boolean, four for a
    reduced-length float64. *)
Theorem execute_fixed_extent (plan : list DecodePlan.Decision) (buf : list Byte.byte)
                             (length consumed : Z) (m m' : memory) :
  Forall (fun i => fixed_extent i <> None) plan ->
  Forall (fun i => 0 <= DecodePlan.length i) plan ->
  execute plan buf length m = Done (consumed, m') ->
  consumed = plan_extent plan.
Proof.
  intros Hfixed Hlen. unfold DecodePlan.execute.
  destruct (execute_loop buf length plan 0 m) as [[cur m1]| |] eqn:Hloop;
    try discriminate.
  apply execute_loop_extent in Hloop; [|exact Hfixed].
  unfold USHRT_MAX. destruct (Z.leb_spec cur 65535); [|discriminate].
  intros [= <- <-].
  assert (0 <= plan_extent plan).
  { clear -Hfixed Hlen. induction plan as [|i plan IH]; simpl; [lia|].
    inversion Hfixed; inversion Hlen; subst.
    assert (0 <= default 0 (fixed_extent i)).
    { unfold fixed_extent. destruct (DecodePlan.type i); simpl; lia. }
    specialize (IH ltac:(assumption) ltac:(assumption)). lia. }
  rewrite u16_small by lia. lia.
Qed.

End ExtentFacts.

Lemma execute_fixed_extent_witness :
  4 = plan_extent address_plan.
Proof.
  apply (execute_fixed_extent zero_storage sample_float_to_double address_plan
           [xc0; x00; x02; x01; x0a; x00; x00; x01] 8 4 zero_memory
           (memory_after (DecodePlan.execute zero_storage sample_float_to_double
                            address_plan [xc0; x00; x02; x01; x0a; x00; x00; x01]
                            8 zero_memory))).
  - repeat constructor. discriminate.
  - repeat constructor. simpl. lia.
  - reflexivity.
Defined.

(** ** The executor: octet-string destinations *)

Section OctetStringFacts.

Variable new_storage : nat -> list Byte.byte.
Variable float_to_double : list Byte.byte -> list Byte.byte.

Abbreviation execute_decision :=
  (DecodePlan.execute_decision new_storage float_to_double).

Lemma octets_from_length (buf : list Byte.byte) (cur : Z) (n : nat) :
  0 <= cur -> cur + Z.of_nat n <= Z.of_nat (List.length buf) ->
  List.length (octets_from buf cur n) = n.
Proof.
  intros Hcur Hin. unfold octets_from. rewrite length_take, length_drop. lia.
Qed.

Lemma copy_into_spec (m : memory) (q : Z) (buf : list Byte.byte) (cur n : Z) :
  0 <= cur -> 0 <= n -> cur + n <= Z.of_nat (List.length buf) ->
  let m' := DecodePlan.copy_into new_storage m q buf cur n in
  BasicOctetArray.get_length (objects m' q) = Z.to_nat n
  /\ take (Z.to_nat n) (BasicOctetArray.get_buf (objects m' q))
     = octets_from buf cur (Z.to_nat n)
  /\ List.length (octets_from buf cur (Z.to_nat n)) = Z.to_nat n
  /\ octets m' = octets m
  /\ (forall q', q' <> q -> objects m' q' = objects m q').
Proof.
  intros Hcur Hn Hin.
  assert (Hlen : List.length (octets_from buf cur (Z.to_nat n)) = Z.to_nat n).
  { apply octets_from_length; lia. }
  unfold DecodePlan.copy_into. simpl. rewrite Z.eqb_refl. repeat split.
  - unfold BasicOctetArray.copy_content, BasicOctetArray.get_buf,
      BasicOctetArray.memcpy. simpl.
    fold (octets_from buf cur (Z.to_nat n)).
    rewrite take_app_le by lia. apply take_ge. lia.
  - exact Hlen.
  - intros q' Hq'. destruct (Z.eqb_spec q' q); [contradiction|reflexivity].
Qed.

(** X5: a transfer_fixlen_octets decision whose octets lie inside the buffer,
    and a transfer_varlen decision whose length was decoded, leave the
    octet array at the destination with the length of the field and with
    the wire octets of the field in front; nothing else changes, and the
    cursor stands behind the field. *)
Theorem transfer_octets_spec (buf : list Byte.byte) (buf_end : Z)
                             (i : DecodePlan.Decision) (cur : Z) (m : memory) :
  0 <= cur -> buf_end <= Z.of_nat (List.length buf) ->
  let q := DecodePlan.p i in
  (DecodePlan.type i = DecodePlan.transfer_fixlen_octets ->
   0 <= DecodePlan.length i -> cur + DecodePlan.length i <= buf_end ->
   let n := Z.to_nat (DecodePlan.length i) in
   exists m', execute_decision buf buf_end i cur m = Done (cur + DecodePlan.length i, m')
     /\ BasicOctetArray.get_length (objects m' q) = n
     /\ take n (BasicOctetArray.get_buf (objects m' q)) = octets_from buf cur n
     /\ List.length (octets_from buf cur n) = n
     /\ octets m' = octets m
     /\ (forall q', q' <> q -> objects m' q' = objects m q'))
  /\ (DecodePlan.type i = DecodePlan.transfer_varlen ->
      forall cur' varlen_length,
        DecodePlan.decode_varlen_length buf cur buf_end = Done (cur', varlen_length) ->
        let n := Z.to_nat varlen_length in
        exists m', execute_decision buf buf_end i cur m = Done (cur' + varlen_length, m')
          /\ BasicOctetArray.get_length (objects m' q) = n
          /\ take n (BasicOctetArray.get_buf (objects m' q)) = octets_from buf cur' n
          /\ List.length (octets_from buf cur' n) = n
          /\ octets m' = octets m
          /\ (forall q', q' <> q -> objects m' q' = objects m q')).
Proof.
  intros Hcur Hbuf q. split.
  - intros Htype Hlen Hin n. unfold DecodePlan.execute_decision. rewrite Htype.
    destruct (Z.leb_spec (cur + DecodePlan.length i) buf_end); [|lia].
    eexists. split; [reflexivity|].
    apply copy_into_spec; lia.
  - intros Htype cur' varlen_length Hdec n.
    unfold DecodePlan.execute_decision. rewrite Htype, Hdec.
    apply decode_varlen_length_inside in Hdec as (Hadv & Hin & Hn).
    destruct (Z.leb_spec (cur' + varlen_length) buf_end); [|lia].
    eexists. split; [reflexivity|].
    apply copy_into_spec; lia.
Qed.

End OctetStringFacts.

(** The string ABC sent as 03 41 42 43. *)
Lemma transfer_octets_spec_witness :
  exists m',
    DecodePlan.execute_decision zero_storage sample_float_to_double
      [x03; x41; x42; x43] 4
      (DecodePlan.mkDecision DecodePlan.transfer_varlen 0 0 100 (Some interfaceName))
      0 zero_memory
    = Done (4, m')
    /\ BasicOctetArray.get_length (objects m' 100) = 3%nat
    /\ take 3 (BasicOctetArray.get_buf (objects m' 100)) = [x41; x42; x43].
Proof.
  assert (Hcur : 0 <= 0) by lia.
  assert (Hbuf : 4 <= Z.of_nat (List.length [x03; x41; x42; x43])) by (simpl; lia).
  destruct (transfer_octets_spec zero_storage sample_float_to_double
              [x03; x41; x42; x43] 4
              (DecodePlan.mkDecision DecodePlan.transfer_varlen 0 0 100
                 (Some interfaceName)) 0 zero_memory Hcur Hbuf) as [_ Hvarlen].
  destruct (Hvarlen eq_refl 1 3 eq_refl) as (m' & Hexec & Hlen & Hcontent & _).
  exists m'. split; [exact Hexec|]. split; [exact Hlen|exact Hcontent].
Defined.

(** ** The compiler: shape of a compiled plan *)

Lemma absorb_suffix (l : list DecodePlan.Decision) :
  forall n, exists k, (DecodePlan.absorb n l).2 = drop k l.
Proof.
  induction l as [|s l IH]; intros n; simpl.
  - exists 0%nat. reflexivity.
  - destruct (DecodePlan.is_skip_fixlen s).
    + destruct (IH (u16 (n + DecodePlan.length s))) as [k Hk]. exists (S k). exact Hk.
    + exists 0%nat. reflexivity.
Qed.

Lemma absorb_shorter (l : list DecodePlan.Decision) (n : Z) :
  (List.length (DecodePlan.absorb n l).2 <= List.length l)%nat.
Proof.
  destruct (absorb_suffix l n) as [k ->]. rewrite length_drop. lia.
Qed.

Lemma coalesce_Forall (P : DecodePlan.Decision -> Prop) :
  (forall d n, DecodePlan.is_skip_fixlen d = true -> P (DecodePlan.set_length d n)) ->
  forall plan, Forall P plan -> Forall P (DecodePlan.coalesce plan).
Proof.
  intros Hskip plan. remember (List.length plan) as n eqn:Hn. revert plan Hn.
  induction n as [n IH] using lt_wf_ind. intros plan Hn Hall.
  destruct plan as [|d rest]; [constructor|].
  rewrite coalesce_cons. inversion Hall as [|? ? Hd Hrest]; subst.
  destruct (DecodePlan.is_skip_fixlen d) eqn:Hd'.
  - constructor; [apply Hskip; exact Hd'|].
    pose proof (absorb_shorter rest (DecodePlan.length d)) as Hshort.
    apply (IH (List.length (DecodePlan.absorb (DecodePlan.length d) rest).2));
      [simpl; lia|reflexivity|].
    destruct (absorb_suffix rest (DecodePlan.length d)) as [k ->].
    apply Forall_drop. exact Hrest.
  - constructor; [exact Hd|]. apply (IH (List.length rest)); [simpl; lia|reflexivity|exact Hrest].
Qed.

(** Coalescing a plan without adjacent skip_fixlen decisions changes
    nothing, so coalescing twice is coalescing once. *)
Lemma coalesce_fixpoint (plan : list DecodePlan.Decision) :
  has_adjacent_skip_fixlen plan = false -> DecodePlan.coalesce plan = plan.
Proof.
  induction plan as [|d rest IH]; intros Hadj; [reflexivity|].
  rewrite has_adjacent_cons in Hadj. apply orb_false_iff in Hadj as [Hhead Hrest].
  rewrite coalesce_cons. destruct (DecodePlan.is_skip_fixlen d) eqn:Hd.
  - simpl in Hhead.
    assert (Habs : DecodePlan.absorb (DecodePlan.length d) rest
                   = (DecodePlan.length d, rest)).
    { destruct rest as [|s rest']; [reflexivity|]. simpl in *. rewrite Hhead. reflexivity. }
    rewrite Habs. simpl. rewrite (IH Hrest). destruct d. reflexivity.
  - rewrite (IH Hrest). reflexivity.
Qed.

(** X6: coalescing a coalesced plan changes nothing: the pass leaves no two
    skip_fixlen decisions next to each other, and a plan without such a
    pair is left as it is. *)
Theorem coalesce_idempotent (plan : list DecodePlan.Decision) :
  DecodePlan.coalesce (DecodePlan.coalesce plan) = DecodePlan.coalesce plan.
Proof.
  pose proof (coalesce_no_adjacent plan) as Hnone.
  apply coalesce_fixpoint. exact Hnone.
Qed.

Lemma is_skip_fixlen_set_length (d : DecodePlan.Decision) (n : Z) :
  DecodePlan.is_skip_fixlen (DecodePlan.set_length d n) = DecodePlan.is_skip_fixlen d.
Proof. reflexivity. Qed.

Lemma absorb_keeps_others (l : list DecodePlan.Decision) :
  forall n,
    List.filter (fun d => negb (DecodePlan.is_skip_fixlen d)) (DecodePlan.absorb n l).2
    = List.filter (fun d => negb (DecodePlan.is_skip_fixlen d)) l.
Proof.
  induction l as [|s l IH]; intros n; simpl; [reflexivity|].
  destruct (DecodePlan.is_skip_fixlen s) eqn:Hs; simpl.
  - apply IH.
  - rewrite Hs. reflexivity.
Qed.

Lemma coalesce_filter_upto (n : nat) (l : list DecodePlan.Decision) :
  (List.length l <= n)%nat ->
  List.filter (fun d => negb (DecodePlan.is_skip_fixlen d)) (DecodePlan.coalesce l)
  = List.filter (fun d => negb (DecodePlan.is_skip_fixlen d)) l.
Proof.
  revert l. induction n as [|n IH]; intros l Hl.
  - destruct l; [|simpl in Hl; lia]. reflexivity.
  - destruct l as [|d rest]; [reflexivity|].
    simpl in Hl. rewrite coalesce_cons.
    destruct (DecodePlan.is_skip_fixlen d) eqn:Hd.
    + pose proof (absorb_shorter rest (DecodePlan.length d)) as Hshort.
      simpl. rewrite is_skip_fixlen_set_length, Hd. simpl.
      rewrite IH by lia. apply absorb_keeps_others.
    + simpl. rewrite Hd. simpl. rewrite IH by lia. reflexivity.
Qed.

Lemma coalesce_length_upto (n : nat) (l : list DecodePlan.Decision) :
  (List.length l <= n)%nat ->
  (List.length (DecodePlan.coalesce l) <= List.length l)%nat.
Proof.
  revert l. induction n as [|n IH]; intros l Hl.
  - destruct l; [|simpl in Hl; lia]. apply le_n.
  - destruct l as [|d rest]; [apply le_n|].
    simpl in Hl. rewrite coalesce_cons.
    destruct (DecodePlan.is_skip_fixlen d) eqn:Hd.
    + pose proof (absorb_shorter rest (DecodePlan.length d)) as Hshort.
      pose proof (IH (DecodePlan.absorb (DecodePlan.length d) rest).2 ltac:(lia)).
      simpl. lia.
    + pose proof (IH rest ltac:(lia)). simpl. lia.
Qed.

(** X7: coalescing keeps every decision that is not a skip_fixlen, in order,
    and never makes a plan longer. *)
Theorem coalesce_keeps_others (plan : list DecodePlan.Decision) :
  List.filter (fun d => negb (DecodePlan.is_skip_fixlen d)) (DecodePlan.coalesce plan)
  = List.filter (fun d => negb (DecodePlan.is_skip_fixlen d)) plan
  /\ (List.length (DecodePlan.coalesce plan) <= List.length plan)%nat.
Proof.
  split.
  - apply (coalesce_filter_upto (List.length plan)). apply le_n.
  - apply (coalesce_length_upto (List.length plan)). apply le_n.
Qed.

Section PlanShapeFacts.

Variable little_endian : bool.
Variable lookup_placement : InfoElement -> option Z.
Variable uninitialised : DecodePlan.Decision.

Abbreviation create :=
  (DecodePlan.create little_endian lookup_placement uninitialised).
Abbreviation decisions :=
  (DecodePlan.decisions little_endian lookup_placement uninitialised).
Abbreviation decide :=
  (DecodePlan.decide little_endian lookup_placement uninitialised).

Lemma native_shape (d d' : DecodePlan.Decision) (t : DecodePlan.decision_type_t)
                   (ie : InfoElement) (n : Z) :
  DecodePlan.native d t ie n = Done d' ->
  DecodePlan.type d' = t /\ DecodePlan.length d' = len ie
  /\ DecodePlan.destination_size d' = n /\ len ie <= n
  /\ DecodePlan.p d' = DecodePlan.p d /\ DecodePlan.wire_ie d' = DecodePlan.wire_ie d.
Proof.
  unfold DecodePlan.native. simpl.
  destruct (Z.ltb_spec n (len ie)); [discriminate|].
  intros [= <-]. simpl. repeat split. lia.
Qed.

Lemma exactly_shape (d d' : DecodePlan.Decision) (t : DecodePlan.decision_type_t)
                    (ie : InfoElement) (n : Z) (msg : string) :
  DecodePlan.exactly d t ie n msg = Done d' ->
  DecodePlan.type d' = t /\ DecodePlan.length d' = len ie
  /\ DecodePlan.destination_size d' = n /\ len ie = n
  /\ DecodePlan.p d' = DecodePlan.p d /\ DecodePlan.wire_ie d' = DecodePlan.wire_ie d.
Proof.
  unfold DecodePlan.exactly. simpl.
  destruct (Z.eqb_spec (len ie) n); [|discriminate].
  intros [= <-]. simpl. repeat split. assumption.
Qed.

Lemma octet_string_shape (d d' : DecodePlan.Decision) (ie : InfoElement) :
  DecodePlan.octet_string d ie = Done d' ->
  (DecodePlan.type d' = DecodePlan.transfer_varlen
   \/ DecodePlan.type d' = DecodePlan.transfer_fixlen_octets)
  /\ DecodePlan.p d' = DecodePlan.p d /\ DecodePlan.wire_ie d' = DecodePlan.wire_ie d.
Proof.
  unfold DecodePlan.octet_string.
  destruct (len ie =? kIpfixVarlen); intros [= <-]; simpl; auto.
Qed.

Lemma decide_shape (ie : InfoElement) (d : DecodePlan.Decision) :
  decide ie = Done d -> well_sized d /\ decision_for lookup_placement ie d.
Proof.
  unfold DecodePlan.decide, decision_for, well_sized, is_transfer.
  unfold DecodePlan.transfer_fixlen_maybe_endianness,
    DecodePlan.transfer_float_into_double_maybe_endianness.
  destruct (lookup_placement ie) as [q|].
  - destruct (ietype ie) as [[]|]; try discriminate;
      repeat match goal with
             | |- context [if ?c then _ else _] => destruct c eqn:?
             end;
      try discriminate; intros Hd;
      first [ apply native_shape in Hd as (Ht & Hl & Hs & Hle & Hp & Hw)
            | apply exactly_shape in Hd as (Ht & Hl & Hs & Hle & Hp & Hw)
            | apply octet_string_shape in Hd as ([Ht|Ht] & Hp & Hw) ];
      rewrite Ht, ?Hl, ?Hs, Hp, Hw; simpl; repeat split;
      try lia; try (repeat constructor; fail);
      try (apply Z.eqb_eq; assumption);
      set_solver.
  - destruct (Z.eqb_spec (len ie) kIpfixVarlen); intros [= <-]; simpl; auto.
Qed.

Lemma decisions_shape (wire : list InfoElement) :
  forall ds, decisions wire = Done ds ->
             Forall well_sized ds /\ Forall2 (decision_for lookup_placement) wire ds.
Proof.
  induction wire as [|ie wire IH]; simpl; intros ds.
  - intros [= <-]. split; constructor.
  - destruct (decide ie) as [d| |] eqn:Hd; try discriminate.
    destruct (decisions wire) as [ds'| |]; try discriminate.
    intros [= <-]. apply decide_shape in Hd as [Hsize Hfor].
    destruct (IH ds' eq_refl) as [Hsizes Hfors].
    split; constructor; assumption.
Qed.

(** X8: a compiled plan: every fixed-length transfer fits its destination, so
    the executor's assertion length <= destination_size cannot fail on it.
    Before coalescing there is one decision per wire field, a transfer to
    the registered address for a placed field and a skip for the others;
    coalescing keeps the transfers and skip_varlen decisions in order, and
    the plan has at most as many decisions as the wire template has
    fields. *)
Theorem create_shape (wire_template : IETemplate) (plan : list DecodePlan.Decision) :
  create wire_template = Done plan ->
  Forall well_sized plan
  /\ (List.length plan <= IETemplate_size wire_template)%nat
  /\ exists ds,
       decisions (ies_ wire_template) = Done ds
       /\ Forall2 (decision_for lookup_placement) (ies_ wire_template) ds
       /\ List.filter (fun d => negb (DecodePlan.is_skip_fixlen d)) plan
          = List.filter (fun d => negb (DecodePlan.is_skip_fixlen d)) ds.
Proof.
  unfold DecodePlan.create.
  destruct (decisions (ies_ wire_template)) as [ds| |] eqn:Hds; try discriminate.
  intros [= <-]. apply decisions_shape in Hds as [Hsizes Hfors].
  pose proof (coalesce_filter_upto (List.length ds) ds (le_n _)) as Hfilter.
  pose proof (coalesce_length_upto (List.length ds) ds (le_n _)) as Hlen.
  split; [|split].
  - apply coalesce_Forall; [|exact Hsizes].
    intros d n Hskip. unfold well_sized. simpl.
    unfold DecodePlan.is_skip_fixlen in Hskip.
    destruct (DecodePlan.type d); try discriminate. exact I.
  - unfold IETemplate_size. rewrite (Forall2_length _ _ _ Hfors). exact Hlen.
  - exists ds. repeat split; assumption.
Qed.

End PlanShapeFacts.

Lemma create_shape_witness :
  Forall well_sized address_plan.
Proof.
  apply (create_shape true place_address
           (DecodePlan.mkDecision DecodePlan.skip_fixlen 0 0 0 None) address_only
           address_plan eq_refl).
Defined.

(** ** BasicOctetArray over a sequence of calls *)

Section CopyContentsFacts.

Variable new_storage : nat -> list Byte.byte.
Hypothesis new_storage_length : forall n, List.length (new_storage n) = n.

Abbreviation copy_content := (BasicOctetArray.copy_content new_storage).
Abbreviation copy_contents := (BasicOctetArray.copy_contents new_storage).

Lemma copy_content_array_ok (a : BasicOctetArray.t) (new_buf : list Byte.byte) (n : nat) :
  (n <= List.length new_buf)%nat -> array_ok a -> array_ok (copy_content a new_buf n).
Proof.
  intros Hsrc [Hok Hlen]. split.
  - apply copy_content_storage_ok; assumption.
  - rewrite copy_content_capacity. simpl.
    destruct (Nat.ltb_spec (BasicOctetArray.capacity a) n); lia.
Qed.

Lemma copy_content_to_string (a : BasicOctetArray.t) (new_buf : list Byte.byte) (n : nat) :
  (n <= List.length new_buf)%nat ->
  BasicOctetArray_to_string (copy_content a new_buf n) = take n new_buf.
Proof.
  intros Hsrc. unfold BasicOctetArray_to_string, BasicOctetArray.copy_content,
    BasicOctetArray.memcpy. simpl.
  rewrite take_app_le by (rewrite length_take; lia).
  apply take_ge. rewrite length_take. lia.
Qed.

Lemma copy_contents_capacity_max (calls : list (list Byte.byte * nat)) :
  forall a,
    BasicOctetArray.capacity (copy_contents a calls)
    = Nat.max (BasicOctetArray.capacity a) (max_list (calls.*2)).
Proof.
  induction calls as [|c calls IH]; intros a; [simpl; lia|].
  rewrite fmap_cons. change (copy_contents a (c :: calls))
    with (copy_contents (copy_content a c.1 c.2) calls).
  rewrite IH, copy_content_capacity. simpl max_list.
  destruct (Nat.ltb_spec (BasicOctetArray.capacity a) c.2); lia.
Qed.

(** X9: an array that starts empty and is filled by any sequence of
    copy_content calls, each with a readable source: its storage has
    capacity octets, its length is at most its capacity (the assertion of
    copy_content), its capacity is the largest length any call asked for,
    and to_string gives the octets of the last call. *)
Theorem copy_contents_invariant (calls : list (list Byte.byte * nat)) :
  Forall (fun c => (c.2 <= List.length c.1)%nat) calls ->
  let a := copy_contents BasicOctetArray.empty calls in
  BasicOctetArray.storage_ok a
  /\ (BasicOctetArray.get_length a <= BasicOctetArray.capacity a)%nat
  /\ BasicOctetArray.capacity a = max_list (calls.*2)
  /\ (forall calls' src n, calls = calls' ++ [(src, n)] ->
        BasicOctetArray_to_string a = take n src).
Proof.
  intros Hcalls a.
  assert (Hgen : forall a0, array_ok a0 -> array_ok (copy_contents a0 calls)).
  { clear a. induction Hcalls as [|c calls Hc _ IH]; intros a0 H0; simpl; [exact H0|].
    apply IH. apply copy_content_array_ok; assumption. }
  destruct (Hgen BasicOctetArray.empty) as [Hok Hlen]; [split; [reflexivity|apply le_n]|].
  split; [exact Hok|]. split; [exact Hlen|]. split.
  - unfold a. rewrite copy_contents_capacity_max. simpl. reflexivity.
  - intros calls' src n ->. unfold a, BasicOctetArray.copy_contents.
    rewrite foldl_snoc. simpl. apply copy_content_to_string.
    apply Forall_app in Hcalls as [_ Hlast]. inversion Hlast; subst. assumption.
Qed.

End CopyContentsFacts.

Lemma copy_contents_invariant_witness :
  BasicOctetArray.capacity
    (BasicOctetArray.copy_contents zero_storage BasicOctetArray.empty
       [([x41; x42; x43], 3%nat); ([x44], 1%nat)]) = 3%nat.
Proof.
  apply (copy_contents_invariant zero_storage (fun n => length_replicate n x00)
           [([x41; x42; x43], 3%nat); ([x44], 1%nat)]).
  repeat constructor.
Defined.

(** ** Information elements and templates *)

Lemma matches_iff (a b : InfoElement) :
  matches a b = true <-> pen a = pen b /\ number a = number b.
Proof.
  unfold matches. rewrite andb_true_iff, !Z.eqb_eq. reflexivity.
Qed.

(** X10: ptrIdEqual is an equivalence, and ptrIdHash gives elements that are
    equal under it the same hash: the two can key a hash map. *)
Theorem ptrIdHash_respects_ptrIdEqual :
  (forall a, ptrIdEqual a a = true)
  /\ (forall a b, ptrIdEqual a b = true -> ptrIdEqual b a = true)
  /\ (forall a b c, ptrIdEqual a b = true -> ptrIdEqual b c = true ->
                    ptrIdEqual a c = true)
  /\ (forall a b, ptrIdEqual a b = true -> ptrIdHash a = ptrIdHash b).
Proof.
  unfold ptrIdEqual, ptrIdHash. repeat split.
  - intros a. apply matches_iff. split; reflexivity.
  - intros a b Hab. apply matches_iff in Hab as [H1 H2]. apply matches_iff. auto.
  - intros a b c Hab Hbc. apply matches_iff in Hab as [H1 H2].
    apply matches_iff in Hbc as [H3 H4]. apply matches_iff. split; congruence.
  - intros a b Hab. apply matches_iff in Hab as [-> ->]. reflexivity.
Qed.

Lemma ies_equal_iff (l r : list InfoElement) :
  ies_equal l r = true <-> ie_addr <$> l = ie_addr <$> r.
Proof.
  revert r. induction l as [|a l IH]; intros [|b r]; rewrite ?fmap_cons; simpl;
    try (split; congruence).
  destruct (Z.eqb_spec (ie_addr a) (ie_addr b)) as [Heq|Hne].
  - rewrite IH. split; [intros Hr; rewrite Heq, Hr; reflexivity|intros [= _ Hr]; exact Hr].
  - split; [discriminate|intros [= Ha _]; contradiction].
Qed.

Lemma template_eq_refl (a : IETemplate) : template_eq a a = true.
Proof. apply ies_equal_iff. reflexivity. Qed.

Lemma template_eq_trans (a b c : IETemplate) :
  template_eq a b = true -> template_eq b c = true -> template_eq a c = true.
Proof.
  intros Hab Hbc. apply ies_equal_iff. apply ies_equal_iff in Hab, Hbc. congruence.
Qed.

(** X11: IETemplate::operator== holds exactly when the two templates list the
    same InfoElement objects in the same order; it is an equivalence, and
    operator!= is its negation. *)
Theorem template_eq_spec :
  (forall a b, template_eq a b = true <-> ie_addr <$> ies_ a = ie_addr <$> ies_ b)
  /\ (forall a, template_eq a a = true)
  /\ (forall a b, template_eq a b = template_eq b a)
  /\ (forall a b c, template_eq a b = true -> template_eq b c = true ->
                    template_eq a c = true)
  /\ (forall a b, template_ne a b = negb (template_eq a b)).
Proof.
  assert (Hiff : forall a b, template_eq a b = true
                             <-> ie_addr <$> ies_ a = ie_addr <$> ies_ b).
  { intros a b. apply ies_equal_iff. }
  split; [exact Hiff|]. split; [|split; [|split]].
  - intros a. apply Hiff. reflexivity.
  - intros a b. destruct (template_eq a b) eqn:Hab.
    + symmetry. apply Hiff. symmetry. apply Hiff. exact Hab.
    + destruct (template_eq b a) eqn:Hba; [|reflexivity].
      apply Hiff in Hba. symmetry in Hba. apply Hiff in Hba. congruence.
  - intros a b c Hab Hbc. apply Hiff. apply Hiff in Hab, Hbc. congruence.
  - reflexivity.
Qed.

Lemma find_first_spec (ies : list InfoElement) (ie : InfoElement) :
  match find_first ies ie with
  | Some k =>
    exists i, ies !! k = Some i /\ matches i ie = true
              /\ forall j i', (j < k)%nat -> ies !! j = Some i' -> matches i' ie = false
  | None => forall i, i ∈ ies -> matches i ie = false
  end.
Proof.
  induction ies as [|i ies IH]; simpl.
  - intros i Hi. apply elem_of_nil in Hi. contradiction.
  - destruct (matches i ie) eqn:Hm.
    + exists i. repeat split; [exact Hm|]. intros j i' Hj. lia.
    + destruct (find_first ies ie) as [k|]; simpl.
      * destruct IH as (i0 & Hk & Hm0 & Hfirst). exists i0. repeat split; try assumption.
        intros [|j] i' Hj Hi'; simpl in Hi'; [congruence|].
        apply (Hfirst j); [lia|exact Hi'].
      * intros i0 Hi0. apply elem_of_cons in Hi0 as [->|Hi0]; [exact Hm|apply IH, Hi0].
Qed.

Lemma contains_iff (t : IETemplate) (ie : InfoElement) :
  IETemplate_contains t ie = true <-> exists i, i ∈ ies_ t /\ matches i ie = true.
Proof.
  unfold IETemplate_contains, IETemplate_find.
  pose proof (find_first_spec (ies_ t) ie) as Hspec.
  destruct (find_first (ies_ t) ie) as [k|].
  - destruct Hspec as (i & Hk & Hm & _). split; [|reflexivity].
    intros _. exists i. split; [|exact Hm]. apply list_elem_of_lookup. eauto.
  - split; [discriminate|]. intros (i & Hi & Hm). rewrite (Hspec i Hi) in Hm. discriminate.
Qed.

Lemma containsAll_iff (t rhs : IETemplate) :
  IETemplate_containsAll t rhs = true
  <-> forall ie, ie ∈ ies_ rhs -> IETemplate_contains t ie = true.
Proof.
  unfold IETemplate_containsAll. generalize (ies_ rhs). intros l.
  induction l as [|ie l IH]; simpl.
  - split; [|reflexivity]. intros _ ie Hie. apply elem_of_nil in Hie. contradiction.
  - destruct (IETemplate_contains t ie) eqn:Hc; simpl.
    + rewrite IH. split.
      * intros Hall x Hx. apply elem_of_cons in Hx as [->|Hx]; [exact Hc|apply Hall, Hx].
      * intros Hall x Hx. apply Hall. apply list_elem_of_further. exact Hx.
    + split; [discriminate|]. intros Hall.
      rewrite (Hall ie) in Hc; [discriminate|apply list_elem_of_here].
Qed.

(** X12: IETemplate::find returns the first element that matches on enterprise
    number and element number, or the end when no element matches;
    contains and containsAll follow it: a template contains what was added
    to it and keeps containing what it contained, contains all elements of
    itself, and containsAll is transitive. *)
Theorem IETemplate_contains_spec :
  (forall t ie,
      match IETemplate_find t ie with
      | Some k =>
        exists i, ies_ t !! k = Some i /\ matches i ie = true
                  /\ forall j i', (j < k)%nat -> ies_ t !! j = Some i' ->
                                  matches i' ie = false
      | None => forall i, i ∈ ies_ t -> matches i ie = false
      end)
  /\ (forall t ie, IETemplate_contains (IETemplate_add t ie) ie = true)
  /\ (forall t ie x, IETemplate_contains t x = true ->
                     IETemplate_contains (IETemplate_add t ie) x = true)
  /\ (forall t, IETemplate_containsAll t t = true)
  /\ (forall a b c, IETemplate_containsAll a b = true ->
                    IETemplate_containsAll b c = true ->
                    IETemplate_containsAll a c = true).
Proof.
  split; [intros t ie; apply find_first_spec|].
  split; [|split; [|split]].
  - intros t ie. apply contains_iff. exists ie. split.
    + simpl. apply elem_of_app. right. apply list_elem_of_here.
    + apply matches_iff. split; reflexivity.
  - intros t ie x Hx. apply contains_iff in Hx as (i & Hi & Hm).
    apply contains_iff. exists i. split; [|exact Hm].
    simpl. apply elem_of_app. left. exact Hi.
  - intros t. apply containsAll_iff. intros ie Hie. apply contains_iff.
    exists ie. split; [exact Hie|]. apply matches_iff. split; reflexivity.
  - intros a b c Hab Hbc. apply containsAll_iff. intros ie Hie.
    pose proof (proj1 (containsAll_iff b c) Hbc ie Hie) as Hb.
    apply contains_iff in Hb as (i & Hi & Hm).
    pose proof (proj1 (containsAll_iff a b) Hab i Hi) as Ha.
    apply contains_iff in Ha as (i0 & Hi0 & Hm0).
    apply contains_iff. exists i0. split; [exact Hi0|].
    apply matches_iff in Hm as [? ?]. apply matches_iff in Hm0 as [? ?].
    apply matches_iff. split; congruence.
Qed.

Lemma minlen_add_element (t : IETemplate) (ie : InfoElement) :
  minlen (IETemplate_add t ie) = minlen_add (minlen t) ie.
Proof. unfold minlen, IETemplate_add. simpl. apply foldl_snoc. Qed.



(** ** The registry: keys, installation and repeated announcements *)

(** X14: template keys of different (observation domain, template id) pairs
    differ: templates of one domain never hide those of another. *)
Theorem make_template_key_injective (h h' : PlacementContentHandler.t) (tid tid' : Z) :
  0 <= PlacementContentHandler.observation_domain h < 4294967296 ->
  0 <= PlacementContentHandler.observation_domain h' < 4294967296 ->
  0 <= tid < 65536 -> 0 <= tid' < 65536 ->
  PlacementContentHandler.make_template_key h tid
  = PlacementContentHandler.make_template_key h' tid' ->
  PlacementContentHandler.observation_domain h
  = PlacementContentHandler.observation_domain h'
  /\ tid = tid'.
Proof.
  intros Hod Hod' Htid Htid' Hkey.
  rewrite !make_template_key_domain in Hkey by assumption. lia.
Qed.

Lemma make_template_key_injective_witness :
  PlacementContentHandler.observation_domain redefining_handler
  = PlacementContentHandler.observation_domain redefining_handler
  /\ 256 = 256.
Proof.
  apply (make_template_key_injective redefining_handler redefining_handler 256 256);
    solve [simpl; lia | reflexivity].
Defined.

Lemma register_template_stored (h : PlacementContentHandler.t) (cur : IETemplate) :
  let h' := PlacementContentHandler.register_template h cur in
  let key := PlacementContentHandler.make_template_key h
               (PlacementContentHandler.current_template_id h) in
  (exists stored, PlacementContentHandler.wire_templates h' !! key = Some stored
                  /\ template_eq stored cur = true)
  /\ (forall key', key' <> key ->
        PlacementContentHandler.wire_templates h' !! key'
        = PlacementContentHandler.wire_templates h !! key')
  /\ PlacementContentHandler.observation_domain h'
     = PlacementContentHandler.observation_domain h
  /\ PlacementContentHandler.current_template_id h'
     = PlacementContentHandler.current_template_id h
  /\ PlacementContentHandler.current_field_count h'
     = PlacementContentHandler.current_field_count h
  /\ PlacementContentHandler.current_field_no h'
     = PlacementContentHandler.current_field_no h.
Proof.
  unfold PlacementContentHandler.register_template,
    PlacementContentHandler.find_wire_template, template_ne.
  destruct (PlacementContentHandler.wire_templates h
            !! PlacementContentHandler.make_template_key h
                 (PlacementContentHandler.current_template_id h)) as [old|] eqn:Hold.
  - destruct (template_eq old cur) eqn:Heq; simpl.
    + repeat split. exists old. split; assumption.
    + repeat split.
      * exists cur. split; [apply lookup_insert_eq|apply template_eq_refl].
      * intros key' Hne. apply lookup_insert_ne. congruence.
  - simpl. repeat split.
    + exists cur. split; [apply lookup_insert_eq|apply template_eq_refl].
    + intros key' Hne. apply lookup_insert_ne. congruence.
Qed.

(** X15: at the end of a template record with at least one field and the
    announced number of fields, the registry holds under the record's key a
    template equal to the one announced, every other key has what it had,
    and the handler is ready for the next record. *)
Theorem end_template_record_installs (h : PlacementContentHandler.t) (cur : IETemplate) :
  PlacementContentHandler.current_wire_template h = Some cur ->
  (0 < IETemplate_size cur)%nat ->
  PlacementContentHandler.current_field_count h
  = PlacementContentHandler.current_field_no h ->
  exists h' stored,
    PlacementContentHandler.end_template_record h = Done (h', None)
    /\ PlacementContentHandler.find_wire_template h'
         (PlacementContentHandler.current_template_id h) = Some stored
    /\ template_eq stored cur = true
    /\ PlacementContentHandler.current_wire_template h' = None
    /\ forall key',
         key' <> PlacementContentHandler.make_template_key h
                   (PlacementContentHandler.current_template_id h) ->
         PlacementContentHandler.wire_templates h' !! key'
         = PlacementContentHandler.wire_templates h !! key'.
Proof.
  intros Hcur Hsize Hcount.
  destruct (register_template_stored h cur)
    as ((stored & Hstored & Heq) & Hother & Hod & Htid & Hfc & Hfn).
  unfold PlacementContentHandler.end_template_record. rewrite Hcur.
  destruct (Nat.ltb_spec 0 (IETemplate_size cur)) as [_|]; [|lia].
  rewrite Hfc, Hfn, Hcount, Z.eqb_refl. simpl.
  eexists. exists stored. split; [reflexivity|]. simpl.
  unfold PlacementContentHandler.find_wire_template,
    PlacementContentHandler.make_template_key in *. simpl. rewrite Hod.
  repeat split; assumption.
Qed.

Lemma end_template_record_installs_witness :
  exists h' stored,
    PlacementContentHandler.end_template_record redefining_handler = Done (h', None)
    /\ PlacementContentHandler.find_wire_template h' 256 = Some stored
    /\ template_eq stored interface_only = true.
Proof.
  destruct (end_template_record_installs redefining_handler interface_only eq_refl)
    as (h' & stored & Hend & Hfind & Heq & _).
  - unfold IETemplate_size. simpl. lia.
  - reflexivity.
  - exists h', stored. repeat split; assumption.
Defined.

(** X16: announcing a template and then an equal one again: the second
    announcement changes nothing, whatever the registry held before. *)
Theorem register_template_twice (h : PlacementContentHandler.t) (cur cur' : IETemplate) :
  template_eq cur cur' = true ->
  PlacementContentHandler.register_template
    (PlacementContentHandler.register_template h cur) cur'
  = PlacementContentHandler.register_template h cur.
Proof.
  intros Heq.
  destruct (register_template_stored h cur)
    as ((stored & Hstored & Hsc) & _ & Hod & Htid & _).
  apply (register_template_equal _ cur' stored).
  - unfold PlacementContentHandler.find_wire_template,
      PlacementContentHandler.make_template_key in *.
    rewrite Htid, Hod. exact Hstored.
  - apply (template_eq_trans stored cur cur'); assumption.
Qed.

Lemma register_template_twice_witness :
  PlacementContentHandler.register_template
    (PlacementContentHandler.register_template redefining_handler interface_only)
    (mkTemplate 2001 [ingressInterface])
  = PlacementContentHandler.register_template redefining_handler interface_only.
Proof.
  apply (register_template_twice redefining_handler interface_only
           (mkTemplate 2001 [ingressInterface])).
  reflexivity.
Defined.

(** ** The two minimum lengths *)

Lemma sum_over_split (ies : list InfoElement) :
  sum_over minlen_contribution ies
  = sum_over fixed_contribution ies + varlen_count ies.
Proof.
  unfold varlen_count, sum_over.
  induction ies as [|ie ies IH]; simpl; [reflexivity|].
  rewrite IH. unfold minlen_contribution, fixed_contribution.
  destruct (len ie =? kIpfixVarlen); lia.
Qed.

(** X17: for a template with lengths that are not negative, the minimum length
    the data-set loop tests is never above IETemplate's minlen; as long as
    the fixed lengths do not add up beyond 65535, it is minlen less the
    number of fields of variable length. *)
Theorem min_length_below_minlen (t : IETemplate) :
  Forall (fun ie => 0 <= len ie) (ies_ t) ->
  PlacementContentHandler.wire_template_min_length t <= minlen t
  /\ (sum_over fixed_contribution (ies_ t) < 65536 ->
      PlacementContentHandler.wire_template_min_length t
      = minlen t - varlen_count (ies_ t)).
Proof.
  intros Hlen.
  rewrite wire_template_min_length_sum, minlen_sum, sum_over_split.
  assert (Hfixed : 0 <= sum_over fixed_contribution (ies_ t)).
  { unfold sum_over. induction Hlen as [|ie ies Hie _ IH]; simpl; [lia|].
    unfold fixed_contribution at 1. destruct (len ie =? kIpfixVarlen); lia. }
  assert (Hvar : 0 <= varlen_count (ies_ t)).
  { unfold varlen_count, sum_over. generalize (ies_ t). intros ies.
    induction ies as [|ie ies IH]; simpl; [lia|].
    destruct (len ie =? kIpfixVarlen); lia. }
  split.
  - pose proof (Z.mod_le (sum_over fixed_contribution (ies_ t)) 65536 Hfixed ltac:(lia)).
    unfold u16. lia.
  - intros Hsmall. rewrite u16_small by lia. lia.
Qed.

Lemma min_length_below_minlen_witness :
  PlacementContentHandler.wire_template_min_length name_and_interface
  <= minlen name_and_interface.
Proof.
  apply (min_length_below_minlen name_and_interface).
  simpl. constructor; [vm_compute; discriminate|].
  constructor; [vm_compute; discriminate|]. constructor.
Defined.

(** ** The set loop of the parser *)

Lemma u8_octet_of (z : Z) : u8 (octet_of z) = z mod 256.
Proof.
  unfold octet_of, u8.
  pose proof (Z.mod_pos_bound z 256 ltac:(lia)) as Hz.
  destruct (Byte.of_N _) as [b|] eqn:Hb; simpl.
  - apply Byte.to_of_N in Hb. lia.
  - apply Byte.of_N_None_iff in Hb. lia.
Qed.

Lemma octet_at_app (pre l : list Byte.byte) (k : Z) :
  0 <= k ->
  octet_at (pre ++ l) (Z.of_nat (List.length pre) + k) = octet_at l k.
Proof.
  intros Hk. unfold octet_at.
  replace (Z.to_nat (Z.of_nat (List.length pre) + k))
    with (List.length pre + Z.to_nat k)%nat by lia.
  apply app_nth2_plus.
Qed.

Lemma decode_uint16_u16be (pre post : list Byte.byte) (v : Z) :
  0 <= v < 65536 ->
  IPFIXMessageStreamParser.decode_uint16 (pre ++ u16be v ++ post)
    (Z.of_nat (List.length pre)) = v.
Proof.
  intros Hv. unfold IPFIXMessageStreamParser.decode_uint16.
  rewrite <- (Z.add_0_r (Z.of_nat (List.length pre))) at 1.
  rewrite !octet_at_app by lia. unfold octet_at. simpl.
  rewrite !u8_octet_of.
  rewrite (Z.mod_small (v / 256)) by (split; [apply Z.div_pos; lia|apply Z.div_lt_upper_bound; lia]).
  pose proof (Z.div_mod v 256 ltac:(lia)). lia.
Qed.

Lemma decode_set_header (pre rest : list Byte.byte) (s : Z * list Byte.byte) :
  set_fits s ->
  IPFIXMessageStreamParser.decode_uint16 (pre ++ encode_set s ++ rest)
    (Z.of_nat (List.length pre) + 0) = s.1
  /\ IPFIXMessageStreamParser.decode_uint16 (pre ++ encode_set s ++ rest)
       (Z.of_nat (List.length pre) + 2)
     = kIpfixSetHeaderLen + Z.of_nat (List.length s.2).
Proof.
  intros [Hid Hlen]. unfold encode_set. split.
  - rewrite Z.add_0_r, <- !app_assoc. apply decode_uint16_u16be. exact Hid.
  - replace (pre ++ (u16be s.1 ++ u16be (kIpfixSetHeaderLen + Z.of_nat (List.length s.2))
                     ++ s.2) ++ rest)
      with ((pre ++ u16be s.1)
            ++ u16be (kIpfixSetHeaderLen + Z.of_nat (List.length s.2)) ++ (s.2 ++ rest))
      by (rewrite <- !app_assoc; reflexivity).
    replace (Z.of_nat (List.length pre) + 2)
      with (Z.of_nat (List.length (pre ++ u16be s.1)))
      by (rewrite length_app; simpl; lia).
    apply decode_uint16_u16be. unfold kIpfixSetHeaderLen in *. lia.
Qed.

Lemma encode_set_length (s : Z * list Byte.byte) :
  Z.of_nat (List.length (encode_set s)) = kIpfixSetHeaderLen + Z.of_nat (List.length s.2).
Proof.
  unfold encode_set, kIpfixSetHeaderLen. rewrite !length_app. simpl. lia.
Qed.

Lemma encode_sets_cons (s : Z * list Byte.byte) (sets : list (Z * list Byte.byte)) :
  encode_sets (s :: sets) = encode_set s ++ encode_sets sets.
Proof. reflexivity. Qed.

Lemma decode_sets_step {H : Type} `{SetLoop.SetHandler H} (fuel : nat)
      (message : list Byte.byte) (cur message_end : Z) (h : H) :
  SetLoop.decode_sets (S fuel) message cur message_end h
  = if cur + kIpfixSetHeaderLen <=? message_end then
      if message_end <? cur + IPFIXMessageStreamParser.decode_uint16 message (cur + 2)
      then SetLoop.sets_fatal long_set cur h
      else
        match SetLoop.dispatch h (IPFIXMessageStreamParser.decode_uint16 message (cur + 0))
                (u16 (IPFIXMessageStreamParser.decode_uint16 message (cur + 2)
                      - kIpfixSetHeaderLen))
                message (cur + kIpfixSetHeaderLen) with
        | Done h1 =>
          if negb (cur + kIpfixSetHeaderLen
                   + (IPFIXMessageStreamParser.decode_uint16 message (cur + 2)
                      - kIpfixSetHeaderLen)
                   =? cur + IPFIXMessageStreamParser.decode_uint16 message (cur + 2))
          then SetLoop.sets_assert_failed h1
          else if negb (cur + kIpfixSetHeaderLen
                        + (IPFIXMessageStreamParser.decode_uint16 message (cur + 2)
                           - kIpfixSetHeaderLen)
                        <=? message_end)
          then SetLoop.sets_assert_failed h1
          else SetLoop.decode_sets fuel message
                 (cur + kIpfixSetHeaderLen
                  + (IPFIXMessageStreamParser.decode_uint16 message (cur + 2)
                     - kIpfixSetHeaderLen))
                 message_end h1
        | Thrown msg h1 => SetLoop.sets_handler_threw msg h1
        | AssertFailed h1 => SetLoop.sets_assert_failed h1
        end
    else SetLoop.sets_done cur h.
Proof. reflexivity. Qed.

(** The loop on a sequence of sets that fit: it makes the callbacks of
    these sets and goes on behind them. *)
Lemma decode_sets_app {H : Type} `{SetLoop.SetHandler H}
      (sets : list (Z * list Byte.byte)) :
  forall (pre rest : list Byte.byte) (fuel : nat) (h : H),
    Forall set_fits sets ->
    let message := pre ++ encode_sets sets ++ rest in
    let cur := Z.of_nat (List.length pre) in
    SetLoop.decode_sets (List.length sets + fuel) message cur
                        (Z.of_nat (List.length message)) h
    = match deliver_all message cur sets h with
      | Done h' =>
        SetLoop.decode_sets fuel message
          (cur + Z.of_nat (List.length (encode_sets sets)))
          (Z.of_nat (List.length message)) h'
      | Thrown msg h' => SetLoop.sets_handler_threw msg h'
      | AssertFailed h' => SetLoop.sets_assert_failed h'
      end.
Proof.
  induction sets as [|s sets IH]; intros pre rest fuel h Hfit; cbv zeta.
  - simpl. rewrite Z.add_0_r. reflexivity.
  - inversion Hfit as [|s' sets' Hs Hrest]; subst.
    rewrite encode_sets_cons.
    replace (pre ++ (encode_set s ++ encode_sets sets) ++ rest)
      with (pre ++ encode_set s ++ (encode_sets sets ++ rest))
      by (rewrite <- !app_assoc; reflexivity).
    destruct (decode_set_header pre (encode_sets sets ++ rest) s Hs) as [Hid Hlen].
    pose proof (encode_set_length s) as Hslen.
    change (List.length (s :: sets) + fuel)%nat with (S (List.length sets + fuel)).
    rewrite decode_sets_step.
    change (deliver_all ?m ?c (s :: sets) h)
      with (match SetLoop.dispatch h s.1 (Z.of_nat (List.length s.2)) m
                    (c + kIpfixSetHeaderLen) with
            | Done h1 =>
              deliver_all m (c + kIpfixSetHeaderLen + Z.of_nat (List.length s.2)) sets h1
            | Thrown msg h1 => Thrown msg h1
            | AssertFailed h1 => AssertFailed h1
            end).
    rewrite Hid, Hlen.
    set (message := pre ++ encode_set s ++ encode_sets sets ++ rest).
    assert (Hmsg : Z.of_nat (List.length message)
                   = Z.of_nat (List.length pre) + Z.of_nat (List.length (encode_set s))
                     + Z.of_nat (List.length (encode_sets sets ++ rest))).
    { unfold message. rewrite !length_app. lia. }
    destruct Hs as [_ Hs].
    destruct (Z.leb_spec (Z.of_nat (List.length pre) + kIpfixSetHeaderLen)
                         (Z.of_nat (List.length message))); [|lia].
    destruct (Z.ltb_spec (Z.of_nat (List.length message))
                (Z.of_nat (List.length pre)
                 + (kIpfixSetHeaderLen + Z.of_nat (List.length s.2)))); [lia|].
    replace (kIpfixSetHeaderLen + Z.of_nat (List.length s.2) - kIpfixSetHeaderLen)
      with (Z.of_nat (List.length s.2)) by lia.
    rewrite (u16_small (Z.of_nat (List.length s.2))) by (unfold kIpfixSetHeaderLen in *; lia).
    destruct (SetLoop.dispatch h s.1 (Z.of_nat (List.length s.2)) message
                (Z.of_nat (List.length pre) + kIpfixSetHeaderLen)) as [h1|msg h1|h1];
      [|reflexivity|reflexivity].
    destruct (Z.eqb_spec (Z.of_nat (List.length pre) + kIpfixSetHeaderLen
                          + Z.of_nat (List.length s.2))
                (Z.of_nat (List.length pre)
                 + (kIpfixSetHeaderLen + Z.of_nat (List.length s.2)))); [|lia].
    destruct (Z.leb_spec (Z.of_nat (List.length pre) + kIpfixSetHeaderLen
                          + Z.of_nat (List.length s.2))
                (Z.of_nat (List.length message))); [|lia].
    replace (Z.of_nat (List.length pre) + kIpfixSetHeaderLen
             + (kIpfixSetHeaderLen + Z.of_nat (List.length s.2) - kIpfixSetHeaderLen))
      with (Z.of_nat (List.length pre) + kIpfixSetHeaderLen + Z.of_nat (List.length s.2))
      by lia.
    specialize (IH (pre ++ encode_set s) rest fuel h1 Hrest). cbv zeta in IH.
    replace ((pre ++ encode_set s) ++ encode_sets sets ++ rest) with message in IH
      by (unfold message; rewrite <- !app_assoc; reflexivity).
    replace (Z.of_nat (List.length (pre ++ encode_set s)))
      with (Z.of_nat (List.length pre) + kIpfixSetHeaderLen + Z.of_nat (List.length s.2)) in IH
      by (rewrite length_app; lia).
    rewrite IH.
    destruct (deliver_all message _ sets h1); try reflexivity.
    f_equal. rewrite length_app. lia.
Qed.

(** X18: the set loop on a message body made of sets that fit, with fewer than
    four octets behind them: the callbacks are those of the sets in their
    order, each with the length and the offset of its payload; the loop
    ends behind the last set, and the octets left over get neither a
    callback nor an error. *)
Theorem decode_sets_frames {H : Type} `{SetLoop.SetHandler H}
        (pre tail : list Byte.byte) (sets : list (Z * list Byte.byte))
        (fuel : nat) (h : H) :
  Forall set_fits sets ->
  (List.length tail < 4)%nat ->
  (List.length sets < fuel)%nat ->
  let message := pre ++ encode_sets sets ++ tail in
  SetLoop.decode_sets fuel message (Z.of_nat (List.length pre))
                      (Z.of_nat (List.length message)) h
  = match deliver_all message (Z.of_nat (List.length pre)) sets h with
    | Done h' =>
      SetLoop.sets_done (Z.of_nat (List.length message) - Z.of_nat (List.length tail)) h'
    | Thrown msg h' => SetLoop.sets_handler_threw msg h'
    | AssertFailed h' => SetLoop.sets_assert_failed h'
    end.
Proof.
  intros Hfit Htail Hfuel message.
  replace fuel with (List.length sets + S (fuel - List.length sets - 1))%nat by lia.
  unfold message. rewrite (decode_sets_app sets pre tail _ h Hfit).
  destruct (deliver_all _ _ sets h) as [h'| |]; try reflexivity.
  rewrite decode_sets_step.
  rewrite !length_app.
  destruct (Z.leb_spec
              (Z.of_nat (List.length pre) + Z.of_nat (List.length (encode_sets sets))
               + kIpfixSetHeaderLen)
              (Z.of_nat (List.length pre
                         + (List.length (encode_sets sets) + List.length tail))));
    [unfold kIpfixSetHeaderLen in *; lia|].
  f_equal. lia.
Qed.

Lemma decode_sets_frames_witness :
  SetLoop.decode_sets 3 (short_header_stream ++ encode_sets sample_sets ++ [x00; x00]) 16 38 0%nat
  = SetLoop.sets_done 36 4%nat.
Proof.
  assert (Hfit : Forall set_fits sample_sets) by (repeat constructor; vm_compute; congruence).
  pose proof (decode_sets_frames short_header_stream [x00; x00] sample_sets 3 0%nat Hfit
                ltac:(simpl; lia) ltac:(simpl; lia)) as Hframes.
  vm_compute in Hframes. vm_compute. exact Hframes.
Defined.

(** X19: a set header whose length reaches beyond the end of the message, behind
    sets that fit: the sets before it get their callbacks, the overlong set
    gets none, and the loop ends with the fatal error long_set. *)
Theorem decode_sets_long_set {H : Type} `{SetLoop.SetHandler H}
        (pre rest : list Byte.byte) (sets : list (Z * list Byte.byte))
        (set_id set_length : Z) (fuel : nat) (h : H) :
  Forall set_fits sets ->
  0 <= set_id < 65536 -> 0 <= set_length < 65536 ->
  kIpfixSetHeaderLen + Z.of_nat (List.length rest) < set_length ->
  (List.length sets < fuel)%nat ->
  let message := pre ++ encode_sets sets ++ (u16be set_id ++ u16be set_length ++ rest) in
  SetLoop.decode_sets fuel message (Z.of_nat (List.length pre))
                      (Z.of_nat (List.length message)) h
  = match deliver_all message (Z.of_nat (List.length pre)) sets h with
    | Done h' =>
      SetLoop.sets_fatal long_set
        (Z.of_nat (List.length pre) + Z.of_nat (List.length (encode_sets sets))) h'
    | Thrown msg h' => SetLoop.sets_handler_threw msg h'
    | AssertFailed h' => SetLoop.sets_assert_failed h'
    end.
Proof.
  intros Hfit Hid Hlen Hover Hfuel message.
  replace fuel with (List.length sets + S (fuel - List.length sets - 1))%nat by lia.
  unfold message. rewrite (decode_sets_app sets pre _ _ h Hfit).
  destruct (deliver_all _ _ sets h) as [h'| |]; try reflexivity.
  rewrite decode_sets_step.
  assert (Hlength : IPFIXMessageStreamParser.decode_uint16
                      (pre ++ encode_sets sets ++ u16be set_id ++ u16be set_length ++ rest)
                      (Z.of_nat (List.length pre)
                       + Z.of_nat (List.length (encode_sets sets)) + 2)
                    = set_length).
  { replace (pre ++ encode_sets sets ++ u16be set_id ++ u16be set_length ++ rest)
      with ((pre ++ encode_sets sets ++ u16be set_id) ++ u16be set_length ++ rest)
      by (rewrite <- !app_assoc; reflexivity).
    replace (Z.of_nat (List.length pre) + Z.of_nat (List.length (encode_sets sets)) + 2)
      with (Z.of_nat (List.length (pre ++ encode_sets sets ++ u16be set_id)))
      by (rewrite !length_app; simpl; lia).
    apply decode_uint16_u16be. exact Hlen. }
  rewrite Hlength. rewrite !length_app. simpl List.length.
  unfold kIpfixSetHeaderLen in *.
  match goal with |- context [?a <=? ?b] => destruct (Z.leb_spec a b) end; [|lia].
  match goal with |- context [?a <? ?b] => destruct (Z.ltb_spec a b) end;
    [reflexivity|lia].
Qed.

Lemma decode_sets_long_set_witness :
  SetLoop.decode_sets 3
    (short_header_stream ++ encode_sets sample_sets
     ++ (u16be 256 ++ u16be 100 ++ [x01; x02])) 16 42 0%nat
  = SetLoop.sets_fatal long_set 36 4%nat.
Proof.
  assert (Hfit : Forall set_fits sample_sets) by (repeat constructor; vm_compute; congruence).
  pose proof (decode_sets_long_set short_header_stream [x01; x02] sample_sets 256 100 3 0%nat
                Hfit ltac:(lia) ltac:(lia) ltac:(vm_compute; reflexivity)
                ltac:(simpl; lia)) as Hlong.
  vm_compute in Hlong. vm_compute. exact Hlong.
Defined.

(** X20: a set header with the length 0 inside the message, for a handler whose
    callbacks return: the loop makes the callbacks of a set and stands
    where it stood, so it never ends, whatever the number of rounds. *)
Theorem decode_sets_zero_length {H : Type} `{SetLoop.SetHandler H}
        (message : list Byte.byte) (cur message_end : Z) :
  always_returns ->
  cur + kIpfixSetHeaderLen <= message_end ->
  IPFIXMessageStreamParser.decode_uint16 message (cur + 2) = 0 ->
  forall (fuel : nat) (h : H),
    exists h', SetLoop.decode_sets fuel message cur message_end h
               = SetLoop.sets_out_of_fuel cur h'.
Proof.
  intros Hret Hin Hzero fuel.
  induction fuel as [|fuel IH]; intros h.
  - exists h. reflexivity.
  - rewrite decode_sets_step, Hzero.
    destruct (Z.leb_spec (cur + kIpfixSetHeaderLen) message_end); [|lia].
    destruct (Z.ltb_spec message_end (cur + 0)); [unfold kIpfixSetHeaderLen in *; lia|].
    destruct (Hret h (IPFIXMessageStreamParser.decode_uint16 message (cur + 0))
                   (u16 (0 - kIpfixSetHeaderLen)) message (cur + kIpfixSetHeaderLen))
      as [h1 Hh1].
    rewrite Hh1.
    destruct (Z.eqb_spec (cur + kIpfixSetHeaderLen + (0 - kIpfixSetHeaderLen)) (cur + 0));
      [|lia].
    destruct (Z.leb_spec (cur + kIpfixSetHeaderLen + (0 - kIpfixSetHeaderLen)) message_end);
      [|unfold kIpfixSetHeaderLen in *; lia].
    simpl negb. cbv iota.
    replace (cur + kIpfixSetHeaderLen + (0 - kIpfixSetHeaderLen)) with cur by lia.
    apply IH.
Qed.

Lemma decode_sets_zero_length_witness :
  exists h', SetLoop.decode_sets 1000 (short_header_stream ++ [x01; x00; x00; x00]) 16 20 0%nat
             = SetLoop.sets_out_of_fuel 16 h'.
Proof.
  apply (decode_sets_zero_length (short_header_stream ++ [x01; x00; x00; x00]) 16 20).
  - intros h set_id length message cur. unfold SetLoop.dispatch, SetLoop.bracket.
    destruct (set_id =? kIpfixTemplateSetID);
      [|destruct (set_id =? kIpfixOptionTemplateSetID)]; eexists; reflexivity.
  - vm_compute. discriminate.
  - reflexivity.
Defined.

(** ** Template sets *)

Lemma octet_at_middle (pre l post : list Byte.byte) (k : Z) :
  0 <= k < Z.of_nat (List.length l) ->
  octet_at (pre ++ l ++ post) (Z.of_nat (List.length pre) + k) = octet_at l k.
Proof.
  intros Hk. rewrite octet_at_app by lia. unfold octet_at.
  apply app_nth1. lia.
Qed.

Lemma decode_uint16_middle (pre l post : list Byte.byte) (k : Z) :
  0 <= k -> k + 2 <= Z.of_nat (List.length l) ->
  IPFIXMessageStreamParser.decode_uint16 (pre ++ l ++ post) (Z.of_nat (List.length pre) + k)
  = IPFIXMessageStreamParser.decode_uint16 l k.
Proof.
  intros Hk Hl. unfold IPFIXMessageStreamParser.decode_uint16.
  rewrite <- Z.add_assoc. rewrite !octet_at_middle by lia. reflexivity.
Qed.

Lemma decode_uint32_middle (pre l post : list Byte.byte) (k : Z) :
  0 <= k -> k + 4 <= Z.of_nat (List.length l) ->
  IPFIXMessageStreamParser.decode_uint32 (pre ++ l ++ post) (Z.of_nat (List.length pre) + k)
  = IPFIXMessageStreamParser.decode_uint32 l k.
Proof.
  intros Hk Hl. unfold IPFIXMessageStreamParser.decode_uint32.
  rewrite <- Z.add_assoc. rewrite !decode_uint16_middle by lia. reflexivity.
Qed.

Lemma decode_uint16_here (v : Z) (post : list Byte.byte) :
  0 <= v < 65536 ->
  IPFIXMessageStreamParser.decode_uint16 (u16be v ++ post) 0 = v.
Proof.
  intros Hv. apply (decode_uint16_u16be [] post v Hv).
Qed.

Lemma land_low_bits (v : Z) : Z.land v 32767 = v mod 32768.
Proof. change 32767 with (Z.ones 15). rewrite Z.land_ones by lia. reflexivity. Qed.

Lemma land_enterprise_bit (v : Z) :
  0 <= v < 65536 -> negb (Z.land v 32768 =? 0) = (32768 <=? v).
Proof.
  intros Hv.
  assert (Hbit : Z.testbit (Z.land v 32768) 15 = (32768 <=? v)).
  { rewrite Z.land_spec. change 32768 with (2 ^ 15) at 1.
    rewrite Z.pow2_bits_true by lia. rewrite andb_true_r.
    rewrite Z.testbit_eqb by lia. change (2 ^ 15) with 32768.
    destruct (Z.leb_spec 32768 v).
    - assert (v / 32768 = 1) as -> by (symmetry; apply Z.div_unique with (r := v - 32768); lia).
      reflexivity.
    - rewrite Z.div_small by lia. reflexivity. }
  destruct (Z.eqb_spec (Z.land v 32768) 0) as [Hz|Hnz]; simpl.
  - rewrite Hz in Hbit. rewrite Z.bits_0 in Hbit. exact Hbit.
  - destruct (Z.leb_spec 32768 v); [reflexivity|].
    exfalso. apply Hnz. apply Z.bits_inj'. intros n Hn.
    rewrite Z.land_spec, Z.bits_0. change 32768 with (2 ^ 15).
    rewrite Z.pow2_bits_eqb by lia.
    destruct (Z.eqb_spec 15 n) as [<-|]; [|apply andb_false_r].
    rewrite Z.testbit_eqb by lia. change (2 ^ 15) with 32768.
    rewrite Z.div_small by lia. reflexivity.
Qed.

Lemma u16be_length (v : Z) : List.length (u16be v) = 2%nat.
Proof. reflexivity. Qed.

Lemma decode_uint32_here (v : Z) (post : list Byte.byte) :
  0 <= v < 4294967296 ->
  IPFIXMessageStreamParser.decode_uint32 (u32be v ++ post) 0 = v.
Proof.
  intros Hv. unfold IPFIXMessageStreamParser.decode_uint32, u32be.
  rewrite <- app_assoc.
  rewrite decode_uint16_here
    by (split; [apply Z.div_pos; lia|apply Z.div_lt_upper_bound; lia]).
  pose proof (decode_uint16_u16be (u16be (v / 65536)) post (v mod 65536)
                ltac:(apply Z.mod_pos_bound; lia)) as Hlow.
  rewrite u16be_length in Hlow. change (Z.of_nat 2) with (0 + 2) in Hlow.
  rewrite Hlow. pose proof (Z.div_mod v 65536 ltac:(lia)). lia.
Qed.

Lemma encode_field_length (f : field_spec) :
  Z.of_nat (List.length (encode_field f))
  = kFieldSpecifierLen + (if fs_enterprise f then kEnterpriseLen else 0).
Proof. unfold encode_field. destruct (fs_enterprise f); reflexivity. Qed.

Lemma decode_field (pre rest : list Byte.byte) (f : field_spec) :
  field_ok f ->
  let message := pre ++ encode_field f ++ rest in
  let buf := Z.of_nat (List.length pre) in
  IPFIXMessageStreamParser.decode_uint16 message (buf + 0)
  = (if fs_enterprise f then 32768 else 0) + fs_id f
  /\ IPFIXMessageStreamParser.decode_uint16 message (buf + 2) = fs_length f
  /\ (fs_enterprise f = true ->
      IPFIXMessageStreamParser.decode_uint32 message (buf + 4) = fs_pen f).
Proof.
  intros (Hid & Hlen & Hpen & _) message buf. unfold message, buf.
  pose proof (encode_field_length f) as Hflen.
  unfold kFieldSpecifierLen, kEnterpriseLen in Hflen.
  split; [|split].
  - rewrite decode_uint16_middle by (destruct (fs_enterprise f); lia).
    unfold encode_field. destruct (fs_enterprise f); apply decode_uint16_here; lia.
  - rewrite decode_uint16_middle by (destruct (fs_enterprise f); lia).
    unfold encode_field.
    destruct (fs_enterprise f).
    + apply (decode_uint16_u16be (u16be (32768 + fs_id f)) _ (fs_length f) Hlen).
    + pose proof (decode_uint16_u16be (u16be (fs_id f)) [] (fs_length f) Hlen) as Hd.
      rewrite app_nil_r in Hd. exact Hd.
  - intros He. rewrite He in Hflen.
    rewrite decode_uint32_middle by lia.
    unfold encode_field. rewrite He.
    pose proof (decode_uint32_middle (u16be (32768 + fs_id f) ++ u16be (fs_length f))
                  (u32be (fs_pen f)) [] 0 ltac:(lia) ltac:(simpl; lia)) as Hd.
    rewrite app_nil_r, <- app_assoc in Hd. simpl Z.of_nat in Hd.
    change (Z.of_nat 4 + 0) with 4 in Hd. rewrite Hd.
    pose proof (decode_uint32_here (fs_pen f) [] Hpen) as Hh.
    rewrite app_nil_r in Hh. exact Hh.
Qed.

Section TemplateSets.

Context {info_model : Type}.
Variable lookupIE : info_model -> Z -> Z -> Z -> option InfoElement.
Variable add_unknown : info_model -> Z -> Z -> Z -> option InfoElement * info_model.
Variable new_MatchTemplate : nat -> Z.

Abbreviation field_specifier := (IPFIXContentHandler.field_specifier _ lookupIE add_unknown).
Abbreviation read_fields := (IPFIXContentHandler.read_fields _ lookupIE add_unknown).
Abbreviation template_records :=
  (IPFIXContentHandler.template_records _ lookupIE add_unknown new_MatchTemplate).
Abbreviation start_template_set :=
  (IPFIXContentHandler.start_template_set _ lookupIE add_unknown new_MatchTemplate).

Lemma field_specifier_known (h : IPFIXContentHandler.t info_model) (cur : IETemplate)
      (n : Z) (f : field_spec) (ie : InfoElement) :
  known lookupIE (IPFIXContentHandler.info h) f ie ->
  field_ok f ->
  n < IPFIXContentHandler.current_field_count h ->
  field_specifier (with_fields h cur n) (fs_enterprise f) (fs_id f) (fs_length f)
                  (if fs_enterprise f then fs_pen f else 0)
  = IPFIXContentHandler.Returned (with_fields h (IETemplate_add cur ie) (n + 1)).
Proof.
  intros Hknown (_ & _ & _ & Hpen) Hn.
  unfold IPFIXContentHandler.field_specifier, with_fields. simpl.
  destruct (Z.leb_spec (IPFIXContentHandler.current_field_count h) n); [lia|].
  assert (Hp : (if fs_enterprise f then fs_pen f else 0) = fs_pen f).
  { destruct (fs_enterprise f); [reflexivity|]. symmetry. apply Hpen. reflexivity. }
  rewrite Hp. unfold known in Hknown. rewrite Hknown.
  destruct (fs_enterprise f) eqn:He.
  - simpl. rewrite ?orb_true_r. reflexivity.
  - rewrite (Hpen eq_refl). simpl. reflexivity.
Qed.

Lemma read_fields_step (remaining : nat) (message : list Byte.byte) (buf set_end : Z)
      (h : IPFIXContentHandler.t info_model) :
  read_fields (S remaining) message buf set_end h
  = if set_end <? buf + kFieldSpecifierLen then IPFIXContentHandler.fields_long h
    else
      if negb (Z.land (IPFIXMessageStreamParser.decode_uint16 message (buf + 0)) 32768 =? 0)
         && (set_end <? buf + kFieldSpecifierLen + kEnterpriseLen)
      then IPFIXContentHandler.fields_long h
      else
        match field_specifier h
                (negb (Z.land (IPFIXMessageStreamParser.decode_uint16 message (buf + 0))
                              32768 =? 0))
                (Z.land (IPFIXMessageStreamParser.decode_uint16 message (buf + 0)) 32767)
                (IPFIXMessageStreamParser.decode_uint16 message (buf + 2))
                (if negb (Z.land (IPFIXMessageStreamParser.decode_uint16 message (buf + 0))
                                 32768 =? 0)
                 then IPFIXMessageStreamParser.decode_uint32 message (buf + 4) else 0) with
        | IPFIXContentHandler.Returned h1 =>
          if negb (buf + kFieldSpecifierLen
                   + (if negb (Z.land (IPFIXMessageStreamParser.decode_uint16 message
                                         (buf + 0)) 32768 =? 0)
                      then kEnterpriseLen else 0) <=? set_end)
          then IPFIXContentHandler.fields_failed (IPFIXContentHandler.AssertionFailed h1)
          else read_fields remaining message
                 (buf + kFieldSpecifierLen
                  + (if negb (Z.land (IPFIXMessageStreamParser.decode_uint16 message
                                        (buf + 0)) 32768 =? 0)
                     then kEnterpriseLen else 0)) set_end h1
        | r => IPFIXContentHandler.fields_failed r
        end.
Proof. reflexivity. Qed.

Lemma encode_fields_cons (f : field_spec) (fs : list field_spec) :
  encode_fields (f :: fs) = encode_field f ++ encode_fields fs.
Proof. reflexivity. Qed.

(** The loop over the specifiers of a record, on specifiers that are
    complete and known: it adds their elements in order and goes on behind
    them. *)
Lemma read_fields_app (fs : list field_spec) :
  forall (ies : list InfoElement) (pre rest : list Byte.byte) (k : nat)
         (h : IPFIXContentHandler.t info_model) (cur : IETemplate) (n set_end : Z),
    Forall field_ok fs ->
    Forall2 (known lookupIE (IPFIXContentHandler.info h)) fs ies ->
    n + Z.of_nat (List.length fs) <= IPFIXContentHandler.current_field_count h ->
    Z.of_nat (List.length pre) + Z.of_nat (List.length (encode_fields fs)) <= set_end ->
    read_fields (List.length fs + k) (pre ++ encode_fields fs ++ rest)
                (Z.of_nat (List.length pre)) set_end (with_fields h cur n)
    = read_fields k (pre ++ encode_fields fs ++ rest)
        (Z.of_nat (List.length pre) + Z.of_nat (List.length (encode_fields fs))) set_end
        (with_fields h (foldl IETemplate_add cur ies) (n + Z.of_nat (List.length fs))).
Proof.
  induction fs as [|f fs IH]; intros ies pre rest k h cur n set_end Hok Hknown Hn Hend.
  - inversion Hknown; subst. simpl. rewrite !Z.add_0_r. reflexivity.
  - inversion Hknown as [|f' ie fs' ies' Hf Hfs]; subst.
    inversion Hok as [|f' fs' Hfok Hfsok]; subst.
    rewrite encode_fields_cons in *.
    replace (pre ++ (encode_field f ++ encode_fields fs) ++ rest)
      with (pre ++ encode_field f ++ (encode_fields fs ++ rest))
      by (rewrite <- !app_assoc; reflexivity).
    destruct (decode_field pre (encode_fields fs ++ rest) f Hfok) as (Hid & Hlen & Hpen).
    pose proof (encode_field_length f) as Hflen.
    pose proof Hfok as (Hidr & Hlenr & Hpenr & Hnoent).
    change (List.length (f :: fs) + k)%nat with (S (List.length fs + k)).
    rewrite read_fields_step, Hid, Hlen.
    rewrite length_app in Hend. simpl List.length in Hn.
    rewrite land_enterprise_bit by (destruct (fs_enterprise f); lia).
    rewrite land_low_bits.
    assert (Hbit : (32768 <=? (if fs_enterprise f then 32768 else 0) + fs_id f)
                   = fs_enterprise f)
      by (destruct (fs_enterprise f); [apply Z.leb_le|apply Z.leb_gt]; lia).
    assert (Hlow : ((if fs_enterprise f then 32768 else 0) + fs_id f) mod 32768 = fs_id f).
    { destruct (fs_enterprise f).
      - symmetry. apply Z.mod_unique with (q := 1); lia.
      - apply Z.mod_small. lia. }
    rewrite Hbit, Hlow.
    unfold kFieldSpecifierLen, kEnterpriseLen in *.
    destruct (Z.ltb_spec set_end (Z.of_nat (List.length pre) + 4));
      [destruct (fs_enterprise f); lia|].
    assert (Hpen' : (if fs_enterprise f
                     then IPFIXMessageStreamParser.decode_uint32
                            (pre ++ encode_field f ++ encode_fields fs ++ rest)
                            (Z.of_nat (List.length pre) + 4)
                     else 0) = (if fs_enterprise f then fs_pen f else 0)).
    { destruct (fs_enterprise f); [apply Hpen; reflexivity|reflexivity]. }
    rewrite Hpen'.
    rewrite (field_specifier_known h cur n f ie Hf Hfok) by lia.
    assert (Hin : fs_enterprise f && (set_end <? Z.of_nat (List.length pre) + 4 + 4) = false).
    { destruct (fs_enterprise f); [|reflexivity]. apply Z.ltb_ge. lia. }
    rewrite Hin.
    destruct (Z.leb_spec (Z.of_nat (List.length pre) + 4
                          + (if fs_enterprise f then 4 else 0)) set_end); [|lia].
    simpl negb. cbv iota.
    specialize (IH ies' (pre ++ encode_field f) rest k h (IETemplate_add cur ie) (n + 1)
                   set_end Hfsok Hfs).
    replace ((pre ++ encode_field f) ++ encode_fields fs ++ rest)
      with (pre ++ encode_field f ++ encode_fields fs ++ rest) in IH
      by (rewrite <- !app_assoc; reflexivity).
    replace (Z.of_nat (List.length (pre ++ encode_field f)))
      with (Z.of_nat (List.length pre) + 4 + (if fs_enterprise f then 4 else 0)) in IH
      by (rewrite length_app; lia).
    rewrite IH by (clear - Hn Hend Hflen; lia).
    simpl foldl. simpl List.length. f_equal; [rewrite length_app; lia|].
    f_equal. lia.
Qed.

Lemma template_records_step (fuel : nat) (message : list Byte.byte) (buf set_end : Z)
      (h : IPFIXContentHandler.t info_model) :
  template_records (S fuel) message buf set_end h
  = if buf + kTemplateHeaderLen <=? set_end then
      match IPFIXContentHandler.start_template_record _ new_MatchTemplate h
              (IPFIXMessageStreamParser.decode_uint16 message (buf + 0))
              (IPFIXMessageStreamParser.decode_uint16 message (buf + 2)) with
      | IPFIXContentHandler.Returned h1 =>
        match read_fields
                (Z.to_nat (IPFIXMessageStreamParser.decode_uint16 message (buf + 2)))
                message (buf + kTemplateHeaderLen) set_end h1 with
        | IPFIXContentHandler.fields_done buf1 h2 =>
          match IPFIXContentHandler.end_template_record _ h2 with
          | IPFIXContentHandler.Returned h3 => template_records fuel message buf1 set_end h3
          | r => r
          end
        | IPFIXContentHandler.fields_long h2 => IPFIXContentHandler.Returned h2
        | IPFIXContentHandler.fields_failed r => r
        end
      | r => r
      end
    else IPFIXContentHandler.Returned h.
Proof. reflexivity. Qed.

Lemma add_all_elements (ies : list InfoElement) :
  forall (a : Z) (l : list InfoElement),
    foldl IETemplate_add (mkTemplate a l) ies = mkTemplate a (l ++ ies).
Proof.
  induction ies as [|ie ies IH]; intros a l; simpl; [rewrite app_nil_r; reflexivity|].
  unfold IETemplate_add at 2. simpl. rewrite IH, <- app_assoc. reflexivity.
Qed.

Lemma encode_record_length (r : Z * list field_spec) :
  Z.of_nat (List.length (encode_record r))
  = kTemplateHeaderLen + Z.of_nat (List.length (encode_fields r.2)).
Proof.
  unfold encode_record, kTemplateHeaderLen. rewrite !length_app. simpl. lia.
Qed.

Lemma decode_record_header (pre rest : list Byte.byte) (tid count : Z) :
  0 <= tid < 65536 -> 0 <= count < 65536 ->
  let message := pre ++ (u16be tid ++ u16be count) ++ rest in
  IPFIXMessageStreamParser.decode_uint16 message (Z.of_nat (List.length pre) + 0) = tid
  /\ IPFIXMessageStreamParser.decode_uint16 message (Z.of_nat (List.length pre) + 2) = count.
Proof.
  intros Htid Hcount message. unfold message.
  rewrite !decode_uint16_middle by (simpl; lia). split.
  - apply decode_uint16_here. exact Htid.
  - pose proof (decode_uint16_u16be (u16be tid) [] count Hcount) as Hd.
    rewrite app_nil_r in Hd. exact Hd.
Qed.

(** The start of a record whose header announces [count] fields, followed
    by the specifiers [fs]: the state behind these specifiers, with [k]
    rounds of the field loop to go. *)
Lemma record_start (pre rest : list Byte.byte) (tid count : Z) (fs : list field_spec)
      (ies : list InfoElement) (k : nat) (set_end : Z)
      (h : IPFIXContentHandler.t info_model) :
  IPFIXContentHandler.current_wire_template h = None ->
  0 <= tid < 65536 -> 0 <= count < 65536 ->
  Z.to_nat count = (List.length fs + k)%nat ->
  Forall field_ok fs ->
  Forall2 (known lookupIE (IPFIXContentHandler.info h)) fs ies ->
  Z.of_nat (List.length pre) + kTemplateHeaderLen
  + Z.of_nat (List.length (encode_fields fs)) <= set_end ->
  let message := pre ++ (u16be tid ++ u16be count) ++ encode_fields fs ++ rest in
  let h0 := IPFIXContentHandler.mk _ (IPFIXContentHandler.info h)
              (IPFIXContentHandler.observation_domain h) tid count 0 None
              (IPFIXContentHandler.wire_templates h) (IPFIXContentHandler.parse_is_good h)
              (S (IPFIXContentHandler.allocated h)) in
  IPFIXContentHandler.start_template_record _ new_MatchTemplate h
    (IPFIXMessageStreamParser.decode_uint16 message (Z.of_nat (List.length pre) + 0))
    (IPFIXMessageStreamParser.decode_uint16 message (Z.of_nat (List.length pre) + 2))
  = IPFIXContentHandler.Returned
      (with_fields h0 (mkTemplate (new_MatchTemplate (IPFIXContentHandler.allocated h)) []) 0)
  /\ read_fields
       (Z.to_nat (IPFIXMessageStreamParser.decode_uint16 message
                    (Z.of_nat (List.length pre) + 2)))
       message (Z.of_nat (List.length pre) + kTemplateHeaderLen) set_end
       (with_fields h0 (mkTemplate (new_MatchTemplate (IPFIXContentHandler.allocated h)) []) 0)
     = read_fields k message
         (Z.of_nat (List.length pre) + kTemplateHeaderLen
          + Z.of_nat (List.length (encode_fields fs))) set_end
         (with_fields h0
            (mkTemplate (new_MatchTemplate (IPFIXContentHandler.allocated h)) ies)
            (Z.of_nat (List.length fs))).
Proof.
  intros Hnull Htid Hcount Hk Hok Hknown Hend message h0.
  destruct (decode_record_header pre (encode_fields fs ++ rest) tid count Htid Hcount)
    as [Hid Hc].
  fold message in Hid, Hc. rewrite Hid, Hc. split.
  - unfold IPFIXContentHandler.start_template_record. rewrite Hnull. reflexivity.
  - rewrite Hk.
    pose proof (read_fields_app fs ies (pre ++ u16be tid ++ u16be count) rest k h0
                  (mkTemplate (new_MatchTemplate (IPFIXContentHandler.allocated h)) []) 0
                  set_end Hok Hknown) as Happ.
    replace ((pre ++ u16be tid ++ u16be count) ++ encode_fields fs ++ rest)
      with message in Happ by (unfold message; rewrite <- !app_assoc; reflexivity).
    replace (Z.of_nat (List.length (pre ++ u16be tid ++ u16be count)))
      with (Z.of_nat (List.length pre) + kTemplateHeaderLen) in Happ
      by (rewrite !length_app; unfold kTemplateHeaderLen; simpl; lia).
    rewrite Happ; [|simpl; lia|exact Hend].
    rewrite add_all_elements. simpl app. rewrite Z.add_0_l. reflexivity.
Qed.

Lemma encode_records_cons (r : Z * list field_spec) (rs : list (Z * list field_spec)) :
  encode_records (r :: rs) = encode_record r ++ encode_records rs.
Proof. reflexivity. Qed.

(** The loop over the records of a set, on records that are complete and
    whose elements are known: it leaves what their announcements should
    leave and goes on behind them. *)
Lemma template_records_app (rs : list (Z * list field_spec)) :
  forall (elems : list (list InfoElement)) (pre rest : list Byte.byte) (fuel : nat)
         (set_end : Z) (h : IPFIXContentHandler.t info_model),
    IPFIXContentHandler.current_wire_template h = None ->
    Forall record_ok rs ->
    Forall2 (fun r ies => Forall2 (known lookupIE (IPFIXContentHandler.info h)) r.2 ies)
            rs elems ->
    Z.of_nat (List.length pre) + Z.of_nat (List.length (encode_records rs)) <= set_end ->
    template_records (List.length rs + fuel) (pre ++ encode_records rs ++ rest)
                     (Z.of_nat (List.length pre)) set_end h
    = template_records fuel (pre ++ encode_records rs ++ rest)
        (Z.of_nat (List.length pre) + Z.of_nat (List.length (encode_records rs))) set_end
        (foldl (announce new_MatchTemplate) h (zip rs elems)).
Proof.
  induction rs as [|r rs IH]; intros elems pre rest fuel set_end h Hnull Hok Hknown Hend.
  - inversion Hknown; subst. simpl. rewrite Z.add_0_r. reflexivity.
  - inversion Hknown as [|r' ies rs' elems' Hr Hrs]; subst.
    inversion Hok as [|r' rs' (Htid & Hcount & Hfok) Hrsok]; subst.
    rewrite encode_records_cons in *. rewrite length_app in Hend.
    pose proof (encode_record_length r) as Hrlen.
    change (List.length (r :: rs) + fuel)%nat with (S (List.length rs + fuel)).
    rewrite template_records_step.
    destruct (Z.leb_spec (Z.of_nat (List.length pre) + kTemplateHeaderLen) set_end);
      [|lia].
    replace (pre ++ (encode_record r ++ encode_records rs) ++ rest)
      with (pre ++ (u16be r.1 ++ u16be (Z.of_nat (List.length r.2)))
            ++ encode_fields r.2 ++ (encode_records rs ++ rest))
      by (unfold encode_record; rewrite <- !app_assoc; reflexivity).
    destruct (record_start pre (encode_records rs ++ rest) r.1
                (Z.of_nat (List.length r.2)) r.2 ies 0 set_end h Hnull Htid
                ltac:(lia) ltac:(lia) Hfok Hr ltac:(lia)) as [Hstart Hfields].
    cbv zeta in Hstart, Hfields. rewrite Hstart, Hfields.
    change (IPFIXContentHandler.read_fields _ lookupIE add_unknown 0 ?m ?b ?e ?hh)
      with (IPFIXContentHandler.fields_done b hh).
    set (message := pre ++ (u16be r.1 ++ u16be (Z.of_nat (List.length r.2)))
                    ++ encode_fields r.2 ++ encode_records rs ++ rest).
    assert (Hendrec :
      IPFIXContentHandler.end_template_record _
        (with_fields
           (IPFIXContentHandler.mk _ (IPFIXContentHandler.info h)
              (IPFIXContentHandler.observation_domain h) r.1
              (Z.of_nat (List.length r.2)) 0 None (IPFIXContentHandler.wire_templates h)
              (IPFIXContentHandler.parse_is_good h) (S (IPFIXContentHandler.allocated h)))
           (mkTemplate (new_MatchTemplate (IPFIXContentHandler.allocated h)) ies)
           (Z.of_nat (List.length r.2)))
      = IPFIXContentHandler.Returned (announce new_MatchTemplate h (r, ies))).
    { unfold IPFIXContentHandler.end_template_record, with_fields, announce,
        IETemplate_size. simpl.
      destruct ies as [|ie ies]; simpl; rewrite Z.eqb_refl; reflexivity. }
    cbv beta iota. rewrite Hendrec.
    specialize (IH elems' (pre ++ encode_record r) rest fuel set_end
                   (announce new_MatchTemplate h (r, ies)) eq_refl Hrsok Hrs).
    replace ((pre ++ encode_record r) ++ encode_records rs ++ rest) with message in IH
      by (unfold message, encode_record; rewrite <- !app_assoc; reflexivity).
    replace (Z.of_nat (List.length (pre ++ encode_record r)))
      with (Z.of_nat (List.length pre) + kTemplateHeaderLen
            + Z.of_nat (List.length (encode_fields r.2))) in IH
      by (rewrite length_app; lia).
    rewrite IH by lia.
    simpl foldl. f_equal. rewrite length_app. lia.
Qed.

Lemma announce_all_state (l : list ((Z * list field_spec) * list InfoElement)) :
  forall h : IPFIXContentHandler.t info_model,
    IPFIXContentHandler.current_wire_template h = None ->
    IPFIXContentHandler.current_wire_template (foldl (announce new_MatchTemplate) h l) = None
    /\ IPFIXContentHandler.info (foldl (announce new_MatchTemplate) h l)
       = IPFIXContentHandler.info h.
Proof.
  induction l as [|p l IH]; intros h Hnull; simpl; [split; [exact Hnull|reflexivity]|].
  apply (IH (announce new_MatchTemplate h p)). reflexivity.
Qed.

(** X21: a template set of complete records whose elements the information
    model knows, with fewer than four octets of padding: start_template_set
    returns, and leaves what the announcements of the records in their order
    should leave, so that a later record replaces an earlier one of the same
    id and a record without fields changes no template; no record is under
    construction any more, and end_message returns. *)
Theorem start_template_set_installs (pre tail post : list Byte.byte)
        (rs : list (Z * list field_spec)) (elems : list (list InfoElement))
        (fuel : nat) (set_id : Z) (h : IPFIXContentHandler.t info_model) :
  IPFIXContentHandler.current_wire_template h = None ->
  Forall record_ok rs ->
  Forall2 (fun r ies => Forall2 (known lookupIE (IPFIXContentHandler.info h)) r.2 ies)
          rs elems ->
  (List.length tail < 4)%nat ->
  (List.length rs < fuel)%nat ->
  let payload := encode_records rs ++ tail in
  let h' := foldl (announce new_MatchTemplate) h (zip rs elems) in
  start_template_set fuel h set_id (Z.of_nat (List.length payload))
                     (pre ++ payload ++ post) (Z.of_nat (List.length pre))
  = IPFIXContentHandler.Returned h'
  /\ IPFIXContentHandler.end_message _ h' = IPFIXContentHandler.Returned h'.
Proof.
  intros Hnull Hok Hknown Htail Hfuel payload h'. split.
  - unfold IPFIXContentHandler.start_template_set. rewrite Hnull.
    replace fuel with (List.length rs + S (fuel - List.length rs - 1))%nat by lia.
    unfold payload.
    replace (pre ++ (encode_records rs ++ tail) ++ post)
      with (pre ++ encode_records rs ++ (tail ++ post))
      by (rewrite <- !app_assoc; reflexivity).
    rewrite length_app.
    rewrite (template_records_app rs elems pre (tail ++ post) _ _ h Hnull Hok Hknown)
      by lia.
    rewrite template_records_step. unfold kTemplateHeaderLen.
    match goal with |- context [?a <=? ?b] => destruct (Z.leb_spec a b) end; [lia|].
    reflexivity.
  - unfold IPFIXContentHandler.end_message, h'.
    destruct (announce_all_state (zip rs elems) h Hnull) as [-> _]. reflexivity.
Qed.

(** X22: a template set that ends inside a record, behind [fs] of the fields
    its header announces: start_template_set returns with that record
    still under construction and not stored, and from then on end_message,
    start_message and start_template_set fail their assertion. *)
Theorem truncated_record_blocks_handler (pre tail post : list Byte.byte)
        (rs : list (Z * list field_spec)) (elems : list (list InfoElement))
        (tid count : Z) (fs : list field_spec) (ies : list InfoElement)
        (fuel : nat) (set_id : Z) (h : IPFIXContentHandler.t info_model) :
  IPFIXContentHandler.current_wire_template h = None ->
  Forall record_ok rs ->
  Forall2 (fun r ies => Forall2 (known lookupIE (IPFIXContentHandler.info h)) r.2 ies)
          rs elems ->
  0 <= tid < 65536 ->
  Z.of_nat (List.length fs) < count < 65536 ->
  Forall field_ok fs ->
  Forall2 (known lookupIE (IPFIXContentHandler.info h)) fs ies ->
  (List.length tail < 4)%nat ->
  (List.length rs < fuel)%nat ->
  let payload := encode_records rs ++ ((u16be tid ++ u16be count) ++ encode_fields fs)
                 ++ tail in
  let before := foldl (announce new_MatchTemplate) h (zip rs elems) in
  exists h',
    start_template_set fuel h set_id (Z.of_nat (List.length payload))
                       (pre ++ payload ++ post) (Z.of_nat (List.length pre))
    = IPFIXContentHandler.Returned h'
    /\ IPFIXContentHandler.wire_templates h' = IPFIXContentHandler.wire_templates before
    /\ IPFIXContentHandler.current_wire_template h'
       = Some (mkTemplate (new_MatchTemplate (IPFIXContentHandler.allocated before)) ies)
    /\ IPFIXContentHandler.end_message _ h' = IPFIXContentHandler.AssertionFailed h'
    /\ (forall version length export_time sequence_number observation_domain base_time,
          IPFIXContentHandler.start_message _ h' version length export_time
            sequence_number observation_domain base_time
          = IPFIXContentHandler.AssertionFailed h')
    /\ (forall fuel' set_id' set_length message buf,
          start_template_set fuel' h' set_id' set_length message buf
          = IPFIXContentHandler.AssertionFailed h').
Proof.
  intros Hnull Hok Hknown Htid Hcount Hfok Hfknown Htail Hfuel payload before.
  destruct (announce_all_state (zip rs elems) h Hnull) as [Hnull' Hinfo].
  fold before in Hnull', Hinfo.
  eexists. split; [|split; [|split; [|split; [|split]]]].
  - unfold IPFIXContentHandler.start_template_set. rewrite Hnull.
    replace fuel with (List.length rs + S (fuel - List.length rs - 1))%nat by lia.
    unfold payload.
    replace (pre ++ (encode_records rs ++ ((u16be tid ++ u16be count) ++ encode_fields fs)
                     ++ tail) ++ post)
      with (pre ++ encode_records rs
            ++ ((u16be tid ++ u16be count) ++ encode_fields fs ++ (tail ++ post)))
      by (rewrite <- !app_assoc; reflexivity).
    rewrite !length_app.
    rewrite (template_records_app rs elems pre _ _ _ h Hnull Hok Hknown) by lia.
    fold before. rewrite template_records_step.
    assert (Hhead : Z.of_nat (List.length (u16be tid ++ u16be count)) = kTemplateHeaderLen)
      by reflexivity.
    rewrite length_app in Hhead.
    match goal with |- context [?a <=? ?b] => destruct (Z.leb_spec a b) end; [|lia].
    replace (pre ++ encode_records rs
             ++ (u16be tid ++ u16be count) ++ encode_fields fs ++ tail ++ post)
      with ((pre ++ encode_records rs)
            ++ (u16be tid ++ u16be count) ++ encode_fields fs ++ (tail ++ post))
      by (rewrite <- !app_assoc; reflexivity).
    replace (Z.of_nat (List.length pre) + Z.of_nat (List.length (encode_records rs)))
      with (Z.of_nat (List.length (pre ++ encode_records rs)))
      by (rewrite length_app; lia).
    rewrite <- Hinfo in Hfknown.
    destruct (record_start (pre ++ encode_records rs) (tail ++ post) tid count fs ies
                (S (Z.to_nat count - List.length fs - 1))
                (Z.of_nat (List.length pre)
                 + Z.of_nat
                     (List.length (encode_records rs)
                      + (List.length (u16be tid) + List.length (u16be count)
                         + List.length (encode_fields fs) + List.length tail)))
                before Hnull' Htid ltac:(lia) ltac:(lia) Hfok Hfknown
                ltac:(rewrite length_app; lia)) as [Hstart Hfields].
    cbv zeta in Hstart, Hfields. rewrite Hstart, Hfields.
    rewrite read_fields_step. unfold kFieldSpecifierLen.
    match goal with |- context [?a <? ?b] => destruct (Z.ltb_spec a b) end;
      [reflexivity|rewrite length_app in *; lia].
  - reflexivity.
  - reflexivity.
  - reflexivity.
  - reflexivity.
  - reflexivity.
Qed.

Lemma read_fields_advances (remaining : nat) (message : list Byte.byte) (set_end : Z) :
  forall (buf buf1 : Z) (h h2 : IPFIXContentHandler.t info_model),
    read_fields remaining message buf set_end h = IPFIXContentHandler.fields_done buf1 h2 ->
    buf <= set_end -> buf <= buf1 <= set_end.
Proof.
  induction remaining as [|remaining IH]; intros buf buf1 h h2 Hdone Hin.
  - inversion Hdone; subst. lia.
  - rewrite read_fields_step in Hdone. unfold kFieldSpecifierLen, kEnterpriseLen in Hdone.
    destruct (set_end <? buf + 4); [discriminate|].
    destruct (negb (Z.land (IPFIXMessageStreamParser.decode_uint16 message (buf + 0)) 32768
                    =? 0)).
    + destruct (set_end <? buf + 4 + 4); [discriminate|]. simpl in Hdone.
      destruct (field_specifier _ _ _ _ _); try discriminate.
      destruct (Z.leb_spec (buf + 4 + 4) set_end); [|discriminate]. simpl in Hdone.
      apply IH in Hdone; lia.
    + simpl in Hdone.
      destruct (field_specifier _ _ _ _ _); try discriminate.
      destruct (Z.leb_spec (buf + 4 + 0) set_end); [|discriminate]. simpl in Hdone.
      apply IH in Hdone; lia.
Qed.

Lemma field_specifier_no_fuel (h h' : IPFIXContentHandler.t info_model) (enterprise : bool)
      (ie_id ie_length enterprise_number : Z) :
  field_specifier h enterprise ie_id ie_length enterprise_number
  <> IPFIXContentHandler.OutOfFuel h'.
Proof.
  unfold IPFIXContentHandler.field_specifier.
  destruct (_ <=? _); [discriminate|].
  destruct (negb _); [discriminate|].
  destruct (negb _); [discriminate|].
  destruct (lookupIE _ _ _ _).
  - destruct (IPFIXContentHandler.current_wire_template h); discriminate.
  - destruct (add_unknown _ _ _ _) as [[ie|] m];
      [destruct (IPFIXContentHandler.current_wire_template _)|]; discriminate.
Qed.

Lemma read_fields_no_fuel (remaining : nat) (message : list Byte.byte) (set_end : Z) :
  forall (buf : Z) (h h' : IPFIXContentHandler.t info_model),
    read_fields remaining message buf set_end h
    <> IPFIXContentHandler.fields_failed (IPFIXContentHandler.OutOfFuel h').
Proof.
  induction remaining as [|remaining IH]; intros buf h h'; [discriminate|].
  rewrite read_fields_step.
  destruct (set_end <? buf + kFieldSpecifierLen); [discriminate|].
  destruct (_ && _); [discriminate|].
  match goal with
  | |- context [field_specifier ?a ?b ?c ?d ?e] =>
    pose proof (field_specifier_no_fuel a h' b c d e) as Hspec;
    destruct (field_specifier a b c d e)
  end; try discriminate.
  - match goal with |- context [if negb ?c then _ else _] => destruct c end;
      [apply IH|discriminate].
  - intros [= ->]. apply Hspec. reflexivity.
Qed.

Lemma template_records_fuel (message : list Byte.byte) (set_end : Z) (fuel : nat) :
  forall (buf : Z) (h h' : IPFIXContentHandler.t info_model),
    (0 < fuel)%nat ->
    set_end - buf < 4 * Z.of_nat fuel ->
    template_records fuel message buf set_end h <> IPFIXContentHandler.OutOfFuel h'.
Proof.
  induction fuel as [|fuel IH]; intros buf h h' Hpos Hfuel; [lia|].
  rewrite template_records_step. unfold kTemplateHeaderLen.
  destruct (Z.leb_spec (buf + 4) set_end); [|discriminate].
  destruct (IPFIXContentHandler.start_template_record _ _ _ _ _) as [h1| | | |] eqn:Hstart;
    try (unfold IPFIXContentHandler.start_template_record in Hstart;
         destruct (IPFIXContentHandler.current_wire_template h); discriminate).
  destruct (read_fields _ _ _ _ _) as [buf1 h2|h2|r] eqn:Hfields; [|discriminate|].
  - apply read_fields_advances in Hfields; [|lia].
    destruct (IPFIXContentHandler.end_template_record _ h2) as [h3| | | |] eqn:Hend;
      try (unfold IPFIXContentHandler.end_template_record in Hend;
           destruct (IPFIXContentHandler.current_wire_template h2); [|discriminate];
           destruct (negb _); discriminate).
    apply IH; lia.
  - intros ->. apply read_fields_no_fuel in Hfields. exact Hfields.
Qed.

(** X23: start_template_set ends on every set: each record takes at least the
    four octets of its header, so one round for every four octets of the
    set and one more are enough, whatever the set holds. *)
Theorem start_template_set_terminates (fuel : nat) (set_id set_length : Z)
        (message : list Byte.byte) (buf : Z) (h h' : IPFIXContentHandler.t info_model) :
  0 <= set_length < 4 * Z.of_nat fuel ->
  start_template_set fuel h set_id set_length message buf
  <> IPFIXContentHandler.OutOfFuel h'.
Proof.
  intros Hlen. unfold IPFIXContentHandler.start_template_set.
  destruct (IPFIXContentHandler.current_wire_template h); [discriminate|].
  apply template_records_fuel; lia.
Qed.

End TemplateSets.

Lemma start_template_set_installs_witness :
  IPFIXContentHandler.start_template_set unit sample_lookupIE sample_add_unknown
    sample_new_MatchTemplate 3 fresh_handler 2 26
    ((short_header_stream ++ [x00; x02; x00; x1e])
     ++ (encode_records sample_records ++ [x00; x00]) ++ []) 20
  = IPFIXContentHandler.Returned
      (foldl (announce sample_new_MatchTemplate) fresh_handler
         (zip sample_records
            [[mkIE 8 0 8 (Some kOctetArray) 4;
              mkIE 1920532485 29305 5 (Some kOctetArray) 65535];
             [mkIE 12 0 12 (Some kOctetArray) 4]])).
Proof.
  assert (Hok : Forall record_ok sample_records)
    by (repeat constructor; vm_compute; congruence).
  destruct (start_template_set_installs sample_lookupIE sample_add_unknown
              sample_new_MatchTemplate
              (short_header_stream ++ [x00; x02; x00; x1e]) [x00; x00] []
              sample_records
              [[mkIE 8 0 8 (Some kOctetArray) 4;
                mkIE 1920532485 29305 5 (Some kOctetArray) 65535];
               [mkIE 12 0 12 (Some kOctetArray) 4]]
              3 2 fresh_handler eq_refl Hok ltac:(repeat constructor)
              ltac:(simpl; lia) ltac:(simpl; lia)) as [Hinst _].
  exact Hinst.
Defined.

Lemma truncated_record_blocks_handler_witness :
  exists h',
    IPFIXContentHandler.start_template_set unit sample_lookupIE sample_add_unknown
      sample_new_MatchTemplate 1 fresh_handler 2 10
      ([] ++ ([] ++ ((u16be 256 ++ u16be 2) ++ encode_fields [mkFieldSpec false 8 4 0])
              ++ [x00; x0c]) ++ []) 0
    = IPFIXContentHandler.Returned h'
    /\ IPFIXContentHandler.end_message _ h' = IPFIXContentHandler.AssertionFailed h'.
Proof.
  destruct (truncated_record_blocks_handler sample_lookupIE sample_add_unknown
              sample_new_MatchTemplate [] [x00; x0c] [] [] [] 256 2
              [mkFieldSpec false 8 4 0] [mkIE 8 0 8 (Some kOctetArray) 4]
              1 2 fresh_handler eq_refl)
    as (h' & Hstart & _ & _ & Hend & _).
  - constructor.
  - constructor.
  - lia.
  - simpl. lia.
  - repeat constructor; vm_compute; congruence.
  - repeat constructor.
  - simpl. lia.
  - simpl. lia.
  - exists h'. split; [exact Hstart|exact Hend].
Defined.

Lemma start_template_set_terminates_witness :
  IPFIXContentHandler.start_template_set unit sample_lookupIE sample_add_unknown
    sample_new_MatchTemplate 3 fresh_handler 2 8 [x01; x00; x00; x00; x01; x01; x00; x00] 0
  <> IPFIXContentHandler.OutOfFuel fresh_handler.
Proof.
  apply (start_template_set_terminates sample_lookupIE sample_add_unknown
           sample_new_MatchTemplate 3 2 8). lia.
Defined.

(** ** Messages read from a buffer *)

(** BufferInputSource::read hands out the next octets of the buffer: all
    that were asked for if that many are left, else the ones that are
    left. *)
Lemma BufferInputSource_read_next (pre l rest : list Byte.byte) (n : Z) :
  0 <= n ->
  (n = Z.of_nat (List.length l) \/ (Z.of_nat (List.length l) < n /\ rest = [])) ->
  IPFIXMessageStreamParser.BufferInputSource_read
    (buffer_at (pre ++ l ++ rest) (List.length pre)) n
  = (Z.of_nat (List.length l), l,
     buffer_at (pre ++ l ++ rest) (List.length pre + List.length l)).
Proof.
  intros Hn Hcase.
  unfold IPFIXMessageStreamParser.BufferInputSource_read, buffer_at. simpl.
  rewrite !length_app.
  assert (Hcopy : (if (List.length pre + (List.length l + List.length rest)
                       <? List.length pre + Z.to_nat n)%nat
                   then (List.length pre + (List.length l + List.length rest)
                         - List.length pre)%nat
                   else Z.to_nat n) = List.length l).
  { destruct (Nat.ltb_spec (List.length pre + (List.length l + List.length rest))
                           (List.length pre + Z.to_nat n)) as [Hlt|Hge].
    - destruct Hcase as [->|[_ ->]]; simpl in *; lia.
    - destruct Hcase as [->|[Hlt ->]]; simpl in *; lia. }
  rewrite Hcopy. rewrite drop_app_length, take_app_length. reflexivity.
Qed.

Section BufferFrames.

Context {H : Type} `{IPFIXMessageStreamParser.ContentHandler H}.

(** X24: a message in a buffer, with a header of version 10 whose length field
    is the length of header and body: one round of the parser announces the
    message to the content handler, reads exactly this message, and leaves
    the source at the first octet behind it. *)
Theorem read_message_whole (h h1 : H) (e : option ErrorContext)
        (pre header body rest : list Byte.byte) :
  List.length header = 16%nat ->
  IPFIXMessageStreamParser.decode_uint16 header 0 = kIpfixVersion ->
  IPFIXMessageStreamParser.decode_uint16 header 2
  = kIpfixMessageHeaderLen + Z.of_nat (List.length body) ->
  IPFIXMessageStreamParser.start_message h kIpfixVersion
    (kIpfixMessageHeaderLen + Z.of_nat (List.length body))
    (IPFIXMessageStreamParser.decode_uint32 header 4)
    (IPFIXMessageStreamParser.decode_uint32 header 8)
    (IPFIXMessageStreamParser.decode_uint32 header 12) 0 = Done (h1, e) ->
  let b := pre ++ header ++ body ++ rest in
  IPFIXMessageStreamParser.read_message h (buffer_at b (List.length pre))
  = IPFIXMessageStreamParser.message_read (header ++ body)
      (kIpfixMessageHeaderLen + Z.of_nat (List.length body)) h1
      (buffer_at b (List.length pre + 16 + List.length body)).
Proof.
  intros Hheader Hversion Hsize Hstart b.
  assert (Hread : IPFIXMessageStreamParser.read (buffer_at b (List.length pre))
                    kIpfixMessageHeaderLen
                  = (kIpfixMessageHeaderLen, header,
                     buffer_at b (List.length pre + 16))).
  { pose proof (BufferInputSource_read_next pre header (body ++ rest) kIpfixMessageHeaderLen
                  ltac:(unfold kIpfixMessageHeaderLen; lia)
                  ltac:(left; rewrite Hheader; reflexivity)) as Hr.
    rewrite Hheader in Hr. exact Hr. }
  assert (Hbody : IPFIXMessageStreamParser.read (buffer_at b (List.length pre + 16))
                    (kIpfixMessageHeaderLen + Z.of_nat (List.length body)
                     - kIpfixMessageHeaderLen)
                  = (Z.of_nat (List.length body), body,
                     buffer_at b (List.length pre + 16 + List.length body))).
  { pose proof (BufferInputSource_read_next (pre ++ header) body rest
                  (kIpfixMessageHeaderLen + Z.of_nat (List.length body)
                   - kIpfixMessageHeaderLen)
                  ltac:(lia) ltac:(left; lia)) as Hr.
    rewrite length_app, Hheader, <- app_assoc in Hr. exact Hr. }
  unfold IPFIXMessageStreamParser.read_message.
  rewrite Hread. cbv beta iota zeta.
  change (kIpfixMessageHeaderLen <? 0) with false.
  change (kIpfixMessageHeaderLen =? 0) with false.
  change (kIpfixMessageHeaderLen <? kIpfixMessageHeaderLen) with false.
  change (kIpfixMessageHeaderLen =? kIpfixMessageHeaderLen) with true.
  rewrite Hversion, Z.eqb_refl. change (negb true) with false. cbv beta iota.
  rewrite Hsize, Hstart. cbv beta iota zeta.
  destruct (Z.leb_spec kIpfixMessageHeaderLen
              (kIpfixMessageHeaderLen + Z.of_nat (List.length body))); [|lia].
  rewrite Hbody. cbv beta iota zeta.
  destruct (Z.ltb_spec (Z.of_nat (List.length body)) 0); [lia|].
  destruct (Z.eqb_spec (Z.of_nat (List.length body))
              (kIpfixMessageHeaderLen + Z.of_nat (List.length body)
               - kIpfixMessageHeaderLen)); [reflexivity|lia].
Qed.

(** X25: a buffer that ends too early.  At the end of the buffer the round ends
    the session without an error; a buffer that ends inside a header gives
    the fatal error short_header, and nothing is announced; one that ends
    inside the body gives the fatal error short_body, after the message was
    announced. *)
Theorem read_message_truncated (h : H) (pre : list Byte.byte) :
  IPFIXMessageStreamParser.read_message h (buffer_at pre (List.length pre))
  = IPFIXMessageStreamParser.end_of_stream h (buffer_at pre (List.length pre))
  /\ (forall part : list Byte.byte,
        (0 < List.length part < 16)%nat ->
        IPFIXMessageStreamParser.read_message h (buffer_at (pre ++ part) (List.length pre))
        = IPFIXMessageStreamParser.fatal_reported short_header h
            (buffer_at (pre ++ part) (List.length pre + List.length part)))
  /\ (forall (header part : list Byte.byte) (h1 : H) (e : option ErrorContext),
        List.length header = 16%nat ->
        IPFIXMessageStreamParser.decode_uint16 header 0 = kIpfixVersion ->
        kIpfixMessageHeaderLen + Z.of_nat (List.length part)
        < IPFIXMessageStreamParser.decode_uint16 header 2 ->
        IPFIXMessageStreamParser.start_message h kIpfixVersion
          (IPFIXMessageStreamParser.decode_uint16 header 2)
          (IPFIXMessageStreamParser.decode_uint32 header 4)
          (IPFIXMessageStreamParser.decode_uint32 header 8)
          (IPFIXMessageStreamParser.decode_uint32 header 12) 0 = Done (h1, e) ->
        IPFIXMessageStreamParser.read_message h
          (buffer_at (pre ++ header ++ part) (List.length pre))
        = IPFIXMessageStreamParser.fatal_reported short_body h1
            (buffer_at (pre ++ header ++ part)
               (List.length pre + 16 + List.length part))).
Proof.
  split; [|split].
  - unfold IPFIXMessageStreamParser.read_message, IPFIXMessageStreamParser.read,
      IPFIXMessageStreamParser.BufferInputSource_source.
    pose proof (BufferInputSource_read_next pre [] [] kIpfixMessageHeaderLen
                  ltac:(unfold kIpfixMessageHeaderLen; lia)
                  ltac:(right; split; [unfold kIpfixMessageHeaderLen; simpl; lia
                                      |reflexivity])) as Hread.
    simpl in Hread. rewrite app_nil_r, Nat.add_0_r in Hread.
    rewrite Hread. reflexivity.
  - intros part Hpart.
    unfold IPFIXMessageStreamParser.read_message, IPFIXMessageStreamParser.read,
      IPFIXMessageStreamParser.BufferInputSource_source.
    pose proof (BufferInputSource_read_next pre part [] kIpfixMessageHeaderLen
                  ltac:(unfold kIpfixMessageHeaderLen; lia)
                  ltac:(right; split; [unfold kIpfixMessageHeaderLen; lia|reflexivity]))
      as Hread.
    rewrite app_nil_r in Hread. rewrite Hread.
    destruct (Z.ltb_spec (Z.of_nat (List.length part)) 0); [lia|].
    destruct (Z.eqb_spec (Z.of_nat (List.length part)) 0); [lia|].
    destruct (Z.ltb_spec (Z.of_nat (List.length part)) kIpfixMessageHeaderLen);
      [reflexivity|unfold kIpfixMessageHeaderLen in *; lia].
  - intros header part h1 e Hheader Hversion Hsize Hstart.
    assert (Hread : IPFIXMessageStreamParser.read
                      (buffer_at (pre ++ header ++ part) (List.length pre))
                      kIpfixMessageHeaderLen
                    = (kIpfixMessageHeaderLen, header,
                       buffer_at (pre ++ header ++ part) (List.length pre + 16))).
    { pose proof (BufferInputSource_read_next pre header part kIpfixMessageHeaderLen
                    ltac:(unfold kIpfixMessageHeaderLen; lia)
                    ltac:(left; rewrite Hheader; reflexivity)) as Hr.
      rewrite Hheader in Hr. exact Hr. }
    assert (Hbody : IPFIXMessageStreamParser.read
                      (buffer_at (pre ++ header ++ part) (List.length pre + 16))
                      (IPFIXMessageStreamParser.decode_uint16 header 2
                       - kIpfixMessageHeaderLen)
                    = (Z.of_nat (List.length part), part,
                       buffer_at (pre ++ header ++ part)
                         (List.length pre + 16 + List.length part))).
    { pose proof (BufferInputSource_read_next (pre ++ header) part []
                    (IPFIXMessageStreamParser.decode_uint16 header 2
                     - kIpfixMessageHeaderLen)
                    ltac:(unfold kIpfixMessageHeaderLen in *; lia)
                    ltac:(right; split; [lia|reflexivity])) as Hr.
      rewrite app_nil_r, length_app, Hheader, <- app_assoc in Hr. exact Hr. }
    unfold IPFIXMessageStreamParser.read_message.
    rewrite Hread. cbv beta iota zeta.
    change (kIpfixMessageHeaderLen <? 0) with false.
    change (kIpfixMessageHeaderLen =? 0) with false.
    change (kIpfixMessageHeaderLen <? kIpfixMessageHeaderLen) with false.
    change (kIpfixMessageHeaderLen =? kIpfixMessageHeaderLen) with true.
    rewrite Hversion, Z.eqb_refl. change (negb true) with false. cbv beta iota.
    rewrite Hstart. cbv beta iota zeta.
    destruct (Z.leb_spec kIpfixMessageHeaderLen
                (IPFIXMessageStreamParser.decode_uint16 header 2));
      [|unfold kIpfixMessageHeaderLen in *; lia].
    rewrite Hbody. cbv beta iota zeta.
    destruct (Z.ltb_spec (Z.of_nat (List.length part)) 0); [lia|].
    destruct (Z.eqb_spec (Z.of_nat (List.length part))
                (IPFIXMessageStreamParser.decode_uint16 header 2 - kIpfixMessageHeaderLen));
      [lia|reflexivity].
Qed.

End BufferFrames.

Lemma read_message_whole_witness :
  IPFIXMessageStreamParser.read_message 0%nat (buffer_at ([] ++ sample_message) 0)
  = IPFIXMessageStreamParser.message_read sample_message 20 1%nat
      (buffer_at ([] ++ sample_message) 20).
Proof.
  apply (read_message_whole 0%nat 1%nat None [] (take 16 sample_message)
           (drop 16 sample_message) []); reflexivity.
Defined.

Lemma read_message_truncated_witness :
  IPFIXMessageStreamParser.read_message 0%nat (buffer_at (sample_message ++ [x00; x0a]) 20)
  = IPFIXMessageStreamParser.fatal_reported short_header 0%nat
      (buffer_at (sample_message ++ [x00; x0a]) 22).
Proof.
  destruct (read_message_truncated 0%nat sample_message) as (_ & Hheader & _).
  apply (Hheader [x00; x0a]). simpl. lia.
Defined.

(** ** UDP sources *)

Section UDPFacts.

Variable recvfrom : nat -> Z * list Byte.byte.

Lemma udp_read_stuck (s : UDPInputSource.t) (len : Z) :
  UDPInputSource.packet_lenght s < 0 ->
  UDPInputSource.packet_read s = 0 ->
  0 <= len ->
  UDPInputSource.read recvfrom s len = (-1, [], s).
Proof.
  intros Hneg Hzero Hlen. unfold UDPInputSource.read. rewrite Hzero.
  destruct (Z.eqb_spec 0 (UDPInputSource.packet_lenght s)); [lia|].
  rewrite Hzero.
  destruct (Z.leb_spec (0 + len) (UDPInputSource.packet_lenght s)); [lia|reflexivity].
Qed.

(** X26: after a call of recvfrom that fails, no read succeeds any more: every
    later read returns -1 without asking the socket again, whatever is
    waiting there; only resync makes the source receive again. *)
Theorem udp_read_after_error (s : UDPInputSource.t) (len : Z) (lens : list Z) :
  UDPInputSource.packet_read s = UDPInputSource.packet_lenght s ->
  (recvfrom (UDPInputSource.received s)).1 < 0 ->
  0 <= len -> Forall (fun l => 0 <= l) lens ->
  exists s1,
    UDPInputSource.read recvfrom s len = (-1, [], s1)
    /\ udp_reads recvfrom s1 lens = (replicate (List.length lens) (-1), s1)
    /\ UDPInputSource.received s1 = S (UDPInputSource.received s)
    /\ (forall len',
          UDPInputSource.received
            (UDPInputSource.read recvfrom (UDPInputSource.resync s1).2 len').2
          = S (S (UDPInputSource.received s))).
Proof.
  intros Hall Hfail Hlen Hlens.
  destruct (recvfrom (UDPInputSource.received s)) as [n datagram] eqn:Hrecv.
  simpl in Hfail.
  set (s1 := UDPInputSource.mk
               (datagram ++ drop (List.length datagram) (UDPInputSource.packet_buffer s))
               n 0 (S (UDPInputSource.received s))).
  assert (Hread : UDPInputSource.read recvfrom s len = (-1, [], s1)).
  { unfold UDPInputSource.read. rewrite Hall, Z.eqb_refl, Hrecv. simpl.
    destruct (Z.leb_spec (0 + len) n); [lia|reflexivity]. }
  exists s1. split; [exact Hread|]. split; [|split; [reflexivity|]].
  - induction Hlens as [|l lens Hl _ IH]; [reflexivity|].
    simpl. rewrite (udp_read_stuck s1 l) by (simpl; lia). rewrite IH. reflexivity.
  - intros len'. unfold UDPInputSource.read, UDPInputSource.resync. simpl.
    destruct (recvfrom (S (UDPInputSource.received s))) as [n2 datagram2]. simpl.
    destruct (0 + len' <=? n2); reflexivity.
Qed.

(** The invariant of a source: not more is marked as read or received than
    the packet buffer holds. *)
Lemma udp_read_invariant (s : UDPInputSource.t) (len : Z) :
  recvfrom_bounded recvfrom ->
  0 <= len ->
  0 <= UDPInputSource.packet_read s ->
  UDPInputSource.packet_lenght s <= 4096 ->
  0 <= UDPInputSource.packet_read (UDPInputSource.read recvfrom s len).2
  /\ UDPInputSource.packet_lenght (UDPInputSource.read recvfrom s len).2 <= 4096
  /\ (UDPInputSource.read recvfrom s len).1.1 <= 4096.
Proof.
  intros Hbound Hlen Hread Hlength. unfold UDPInputSource.read.
  destruct (UDPInputSource.packet_read s =? UDPInputSource.packet_lenght s).
  - pose proof (Hbound (UDPInputSource.received s)) as Hn.
    destruct (recvfrom (UDPInputSource.received s)) as [n datagram]. simpl in *.
    destruct (Z.leb_spec (0 + len) n); simpl; lia.
  - destruct (Z.leb_spec (UDPInputSource.packet_read s + len)
                         (UDPInputSource.packet_lenght s)); simpl; lia.
Qed.

(** X27: no read from a UDP source returns more than the 4096 octets of the
    packet buffer, whatever was read before: a read of more octets than
    that fails with -1. *)
Theorem udp_read_oversize (lens : list Z) (len : Z) :
  recvfrom_bounded recvfrom ->
  Forall (fun l => 0 <= l) lens ->
  4096 < len ->
  forall s : UDPInputSource.t,
    0 <= UDPInputSource.packet_read s ->
    UDPInputSource.packet_lenght s <= 4096 ->
    Forall (fun n => n <= 4096) (udp_reads recvfrom s lens).1
    /\ (UDPInputSource.read recvfrom (udp_reads recvfrom s lens).2 len).1.1 = -1.
Proof.
  intros Hbound Hlens Hlen.
  induction Hlens as [|l lens Hl _ IH]; intros s Hread Hlength.
  - split; [constructor|]. simpl.
    unfold UDPInputSource.read.
    destruct (UDPInputSource.packet_read s =? UDPInputSource.packet_lenght s).
    + pose proof (Hbound (UDPInputSource.received s)) as Hn.
      destruct (recvfrom (UDPInputSource.received s)) as [n datagram]. simpl in *.
      destruct (Z.leb_spec (0 + len) n); [lia|reflexivity].
    + destruct (Z.leb_spec (UDPInputSource.packet_read s + len)
                           (UDPInputSource.packet_lenght s)); [lia|reflexivity].
  - destruct (udp_read_invariant s l Hbound Hl Hread Hlength) as (Hread1 & Hlength1 & Hret).
    simpl. destruct (UDPInputSource.read recvfrom s l) as [[n octets] s1]. simpl in *.
    destruct (IH s1 Hread1 Hlength1) as [Hall Hlast].
    destruct (udp_reads recvfrom s1 lens) as [ns s2]. simpl in *.
    split; [constructor; assumption|exact Hlast].
Qed.

End UDPFacts.

Lemma udp_read_after_error_witness :
  exists s1,
    UDPInputSource.read failing_socket new_udp_source 16 = (-1, [], s1)
    /\ udp_reads failing_socket s1 [16; 2; 0] = ([-1; -1; -1], s1).
Proof.
  destruct (udp_read_after_error failing_socket new_udp_source 16 [16; 2; 0])
    as (s1 & Hread & Hreads & _).
  - reflexivity.
  - simpl. lia.
  - lia.
  - repeat constructor; lia.
  - exists s1. split; [exact Hread|exact Hreads].
Defined.

Lemma udp_read_oversize_witness :
  (UDPInputSource.read failing_socket
     (udp_reads failing_socket new_udp_source [16; 2]).2 5000).1.1 = -1.
Proof.
  apply (udp_read_oversize failing_socket [16; 2] 5000).
  - intros [|k]; simpl; lia.
  - repeat constructor; lia.
  - lia.
  - simpl. lia.
  - simpl. lia.
Defined.
